(** * gds/shmem: the shared-memory generalized data store of OpenPMIx

    A shallow embedding of [src/mca/gds/shmem/gds_shmem.c].  Unsigned 64-bit
    quantities ([size_t], [uintptr_t]) are integers of [Z] with the wrap-around
    written out; pointers are addresses in [Z] with [NULL = 0]; C strings are
    [string]s; status codes are an enumeration. *)

From Stdlib Require Import ZArith List String Ascii Bool Lia SpecFloat.
From Stdlib Require Import Permutation.
Import ListNotations.

Local Open Scope string_scope.
Local Open Scope Z_scope.

(* ================================================================== *)
(** ** Machine arithmetic *)

(** [size_t] and [uintptr_t] are 64 bits wide. *)
Definition SIZE_WIDTH : Z := 64.
Definition to_size_t (z : Z) : Z := z mod 2 ^ SIZE_WIDTH.
Definition to_uintptr_t (z : Z) : Z := z mod 2 ^ SIZE_WIDTH.

Definition LLONG_MAX : Z := 2 ^ 63 - 1.
Definition LLONG_MIN : Z := - 2 ^ 63.

Definition NULL : Z := 0.

(** What a C function call does: it returns, or the process aborts. *)
Inductive outcome (A : Type) : Type :=
| Returned (a : A)
| Aborted.
Arguments Returned {A} a.
Arguments Aborted {A}.

(** [assert(e)] of <assert.h>: compiled out when [NDEBUG] is defined. *)
Definition c_assert (ndebug : bool) (e : bool) : outcome unit :=
  if ndebug then Returned tt
  else if e then Returned tt else Aborted.

(* ================================================================== *)
(** ** Status codes (pmix_status_t) *)

Inductive pmix_status_t : Type :=
| PMIX_SUCCESS
| PMIX_ERROR
| PMIX_ERR_NOMEM
| PMIX_ERR_BAD_PARAM
| PMIX_ERR_TYPE_MISMATCH
| PMIX_ERR_NOT_SUPPORTED
| PMIX_ERR_NOT_FOUND
| PMIX_ERR_UNPACK_FAILURE
| PMIX_ERR_UNPACK_READ_PAST_END_OF_BUFFER
| PMIX_ERR_OTHER (code : Z).

Definition status_eqb (a b : pmix_status_t) : bool :=
  match a, b with
  | PMIX_SUCCESS, PMIX_SUCCESS
  | PMIX_ERROR, PMIX_ERROR
  | PMIX_ERR_NOMEM, PMIX_ERR_NOMEM
  | PMIX_ERR_BAD_PARAM, PMIX_ERR_BAD_PARAM
  | PMIX_ERR_TYPE_MISMATCH, PMIX_ERR_TYPE_MISMATCH
  | PMIX_ERR_NOT_SUPPORTED, PMIX_ERR_NOT_SUPPORTED
  | PMIX_ERR_NOT_FOUND, PMIX_ERR_NOT_FOUND
  | PMIX_ERR_UNPACK_FAILURE, PMIX_ERR_UNPACK_FAILURE
  | PMIX_ERR_UNPACK_READ_PAST_END_OF_BUFFER,
    PMIX_ERR_UNPACK_READ_PAST_END_OF_BUFFER => true
  | PMIX_ERR_OTHER x, PMIX_ERR_OTHER y => x =? y
  | _, _ => false
  end.

(* ================================================================== *)
(** ** The typed memory arena (TMA) *)

(** [addr_align]:
    [(void * )(((uintptr_t)base + size + 7) & ~(uintptr_t)0x07)]. *)
Definition addr_align (base size : Z) : Z :=
  Z.land (to_uintptr_t (base + size + 7)) (to_uintptr_t (Z.lnot 7)).

(** The alignment formula in the words of the specification,
    [align8(p) = (p + 7) & ~7], on [uintptr_t]. *)
Definition align8 (p : Z) : Z :=
  Z.land (to_uintptr_t (p + 7)) (to_uintptr_t (Z.lnot 7)).

(** A [pmix_tma_t] over an externally owned cursor: [data_ptr] is the value
    of [*(tma->data_ptr)], the first free address of the region.  The function
    pointers installed by [tma_init_function_pointers] are the functions
    below. *)
Record pmix_tma_t : Type := mk_tma { data_ptr : Z }.

Definition tma_init (cursor : Z) : pmix_tma_t := mk_tma cursor.

(** [tma_malloc]: returns the cursor and advances it.  (With
    [PMIX_ENABLE_DEBUG] the reserved bytes are zeroed first; the contents of
    the region are not part of this model.) *)
Definition tma_malloc (tma : pmix_tma_t) (size : Z) : Z * pmix_tma_t :=
  let current := data_ptr tma in
  (current, mk_tma (addr_align current size)).

(** [tma_calloc]: [real_size = nmemb * size] in [size_t]. *)
Definition tma_calloc (tma : pmix_tma_t) (nmemb size : Z) : Z * pmix_tma_t :=
  let real_size := to_size_t (nmemb * size) in
  let current := data_ptr tma in
  (current, mk_tma (addr_align current real_size)).

(** [tma_strdup]: [size = strlen(s) + 1]. *)
Definition tma_strdup (tma : pmix_tma_t) (s : string) : Z * pmix_tma_t :=
  let current := data_ptr tma in
  let size := to_size_t (Z.of_nat (String.length s) + 1) in
  (current, mk_tma (addr_align current size)).

Definition tma_memmove (tma : pmix_tma_t) (size : Z) : Z * pmix_tma_t :=
  let current := data_ptr tma in
  (current, mk_tma (addr_align current size)).

(** [tma_free] does nothing. *)
Definition tma_free (tma : pmix_tma_t) (ptr : Z) : pmix_tma_t := tma.

(** [tma_realloc]: [assert(false); return NULL;].  The cursor is not touched. *)
Definition tma_realloc (ndebug : bool) (tma : pmix_tma_t) (ptr size : Z)
  : outcome Z :=
  match c_assert ndebug false with
  | Aborted => Aborted
  | Returned _ => Returned NULL
  end.

(** A run of allocations from one arena: the addresses handed out, in order,
    and the arena afterwards. *)
Fixpoint tma_malloc_seq (tma : pmix_tma_t) (sizes : list Z)
  : list Z * pmix_tma_t :=
  match sizes with
  | [] => ([], tma)
  | n :: rest =>
      let '(a, tma1) := tma_malloc tma n in
      let '(al, tma2) := tma_malloc_seq tma1 rest in
      (a :: al, tma2)
  end.

(* ================================================================== *)
(** ** Page padding *)

(** [get_page_size]: [sysconf(_SC_PAGE_SIZE)] is [-1] on failure, and the
    function then returns [0]. *)
Definition get_page_size (sysconf_page_size : Z) : Z :=
  if sysconf_page_size =? -1 then 0 else to_size_t sysconf_page_size.

(** [pad_amount_to_page]:
    [((~size) + page_size + 1) & (page_size - 1)] on [size_t]. *)
Definition pad_amount_to_page (sysconf_page_size : Z) (size : Z) : Z :=
  let page_size := get_page_size sysconf_page_size in
  Z.land (to_size_t (to_size_t (Z.lnot size) + page_size + 1))
         (to_size_t (page_size - 1)).

(** The size [shmem_segment_create_and_attach] asks for:
    [segment_size + pad_amount_to_page(segment_size)] on [size_t]. *)
Definition real_segsize (sysconf_page_size : Z) (segment_size : Z) : Z :=
  to_size_t (segment_size + pad_amount_to_page sysconf_page_size segment_size).

(** [s] rounded up to the next multiple of [P], in the integers. *)
Definition round_up_to_multiple (s P : Z) : Z := ((s + P - 1) / P) * P.

(* ================================================================== *)
(** ** Number formatting and parsing (libc) *)

(** The digit characters printf uses: [0-9a-f]. *)
Definition digit_char (d : Z) : ascii :=
  if d <? 10 then ascii_of_nat (Z.to_nat (48 + d))
  else ascii_of_nat (Z.to_nat (87 + d)).

(** The digits of a non-negative [n] in [base], most significant first, put
    in front of [acc].  A 64-bit value has at most 64 digits. *)
Fixpoint fmt_digits (fuel : nat) (base n : Z) (acc : string) : string :=
  match fuel with
  | O => acc
  | S fuel' =>
      let acc' := String (digit_char (n mod base)) acc in
      if n / base =? 0 then acc' else fmt_digits fuel' base (n / base) acc'
  end.

(** printf's ["%zx"] applied to a [size_t]. *)
Definition fmt_zx (v : Z) : string := fmt_digits 64 16 (to_size_t v) "".

(** printf's ["%zd"] applied to a [size_t]: the argument is read as the
    signed type of the same width. *)
Definition fmt_zd (v : Z) : string :=
  let u := to_size_t v in
  if u <? 2 ^ 63 then fmt_digits 64 10 u ""
  else String "-" (fmt_digits 64 10 (2 ^ 64 - u) "").

(** printf's ["%d"] applied to an [int]. *)
Definition fmt_d (v : Z) : string :=
  if v <? 0 then String "-" (fmt_digits 64 10 (- v) "")
  else fmt_digits 64 10 v "".

(** [isspace] in the C locale. *)
Definition isspace (c : ascii) : bool :=
  let n := Z.of_nat (nat_of_ascii c) in
  (n =? 32) || ((9 <=? n) && (n <=? 13)).

(** The value of a character as a digit, as strtoll reads it. *)
Definition digit_value (c : ascii) : option Z :=
  let n := Z.of_nat (nat_of_ascii c) in
  if (48 <=? n) && (n <=? 57) then Some (n - 48)
  else if (97 <=? n) && (n <=? 122) then Some (n - 87)
  else if (65 <=? n) && (n <=? 90) then Some (n - 55)
  else None.

Definition is_digit_in (base : Z) (c : ascii) : bool :=
  match digit_value c with
  | Some d => d <? base
  | None => false
  end.

Fixpoint skip_spaces (s : string) : string :=
  match s with
  | String c r => if isspace c then skip_spaces r else s
  | EmptyString => s
  end.

(** Reads digits of [base] while there are some: the value read (not yet
    clamped) and the rest of the string. *)
Fixpoint scan_digits (base acc : Z) (s : string) : Z * string :=
  match s with
  | String c r =>
      match digit_value c with
      | Some d => if d <? base then scan_digits base (acc * base + d) r
                  else (acc, s)
      | None => (acc, s)
      end
  | EmptyString => (acc, s)
  end.

(** An optional sign. *)
Definition scan_sign (s : string) : bool * string :=
  match s with
  | String c r =>
      if Ascii.eqb c "-" then (true, r)
      else if Ascii.eqb c "+" then (false, r)
      else (false, s)
  | EmptyString => (false, s)
  end.

(** For base 16 an optional [0x] or [0X] in front of a hexadecimal digit. *)
Definition scan_hex_prefix (base : Z) (s : string) : string :=
  match s with
  | String z (String x (String c r)) =>
      if (base =? 16) && Ascii.eqb z "0"
         && (Ascii.eqb x "x" || Ascii.eqb x "X")
         && is_digit_in 16 c
      then String c r else s
  | _ => s
  end.

Definition starts_with_digit (base : Z) (s : string) : bool :=
  match s with
  | String c _ => is_digit_in base c
  | EmptyString => false
  end.

(** [strtoll(str, &end, base)] of ISO C for an explicit base between 2 and
    36: the value, the unread rest [end], and whether [errno] is [ERANGE].
    When no digit can be read the value is 0 and [end] is [str]. *)
Definition strtoll (str : string) (base : Z) : Z * string * bool :=
  let s1 := skip_spaces str in
  let '(neg, s2) := scan_sign s1 in
  let s3 := scan_hex_prefix base s2 in
  if starts_with_digit base s3 then
    let '(mag, rest) := scan_digits base 0 s3 in
    let v := if neg then - mag else mag in
    if v >? LLONG_MAX then (LLONG_MAX, rest, true)
    else if v <? LLONG_MIN then (LLONG_MIN, rest, true)
    else (v, rest, false)
  else (0, str, false).

(** [strtost]: string to [size_t].  [*maybe_val] is 0 on failure. *)
Definition strtost (str : string) (base : Z) : pmix_status_t * Z :=
  let '(val, rest, erange) := strtoll str base in
  if (erange && (val =? LLONG_MAX))
     || (erange && (val =? LLONG_MIN))
     || negb (String.eqb rest "")
  then (PMIX_ERROR, 0)
  else (PMIX_SUCCESS, to_size_t val).

(* ================================================================== *)
(** ** The safety margin of the size estimates *)

(** C's [float] is IEEE binary32: 24 bits of precision, rounding to nearest
    even. *)
Definition FLT_PREC : Z := 24.
Definition FLT_EMAX : Z := 128.

(** The conversion of a [size_t] to [float]. *)
Definition float_of_size_t (x : Z) : spec_float :=
  binary_normalize FLT_PREC FLT_EMAX x 0 false.

(** [static const float fluff = 2.5;] *)
Definition fluff : spec_float :=
  binary_normalize FLT_PREC FLT_EMAX 5 (-1) false.

(** The conversion of a [float] to [size_t] drops the fraction.  C leaves it
    undefined for a value that does not fit; the model wraps a finite
    positive one and gives 0 otherwise. *)
Definition size_t_of_float (f : spec_float) : Z :=
  match f with
  | S754_finite false m e =>
      to_size_t (if 0 <=? e then Zpos m * 2 ^ e else Zpos m / 2 ^ (- e))
  | _ => 0
  end.

(** [seg_size *= fluff;] on a [size_t]: the product is taken in [float] and
    converted back. *)
Definition times_fluff (seg_size : Z) : Z :=
  size_t_of_float (SFmul FLT_PREC FLT_EMAX (float_of_size_t seg_size) fluff).

(** C's [double] is IEEE binary64. *)
Definition DBL_PREC : Z := 53.
Definition DBL_EMAX : Z := 1024.

(** The conversion of a [size_t] to [double]. *)
Definition double_of_size_t (x : Z) : spec_float :=
  binary_normalize DBL_PREC DBL_EMAX x 0 false.

(** The value [1.0] of a [double]. *)
Definition double_one : spec_float :=
  binary_normalize DBL_PREC DBL_EMAX 1 0 false.



(* ================================================================== *)
(** ** Keys, roles and status flags *)

(** Key names used to find shared-memory segment info. *)
Definition SHMEM_SEG_BLOB_KEY : string := "PMIX_GDS_SHMEM_SEG_BLOB".
Definition SHMEM_SEG_NSID_KEY : string := "PMIX_GDS_SHMEM_NSPACEID".
Definition SHMEM_SEG_SMID_KEY : string := "PMIX_GDS_SHMEM_SMSEGID".
Definition SHMEM_SEG_PATH_KEY : string := "PMIX_GDS_SHMEM_SEG_PATH".
Definition SHMEM_SEG_SIZE_KEY : string := "PMIX_GDS_SHMEM_SEG_SIZE".
Definition SHMEM_SEG_ADDR_KEY : string := "PMIX_GDS_SHMEM_SEG_ADDR".

(** Attribute names of the PMIx standard (pmix_common.h). *)
Definition PMIX_PROC_DATA : string := "pmix.pdata".
Definition PMIX_SESSION_INFO_ARRAY : string := "pmix.ssn.arr".
Definition PMIX_NODE_INFO_ARRAY : string := "pmix.node.arr".
Definition PMIX_APP_INFO_ARRAY : string := "pmix.app.arr".
Definition PMIX_NSDIR : string := "pmix.nsdir".
Definition PMIX_TMPDIR : string := "pmix.tmpdir".
Definition PMIX_GDS_SHMEM_NAME : string := "shmem".

(** Modelled from the spec: the role enumeration
    [pmix_gds_shmem_job_shmem_id_t] is declared in gds_shmem.h, which is not
    among the sources.  Two roles, JOB and MODEX, and an INVALID sentinel that
    ends iteration; a role read off the wire is any integer. *)
Definition PMIX_GDS_SHMEM_JOB_ID : Z := 0.
Definition PMIX_GDS_SHMEM_MODEX_ID : Z := 1.
Definition PMIX_GDS_SHMEM_INVALID_ID : Z := 2.

(** Modelled from the spec: the status flags of gds_shmem.h, three
    independent bits per tracker and role. *)
Definition PMIX_GDS_SHMEM_ATTACHED : Z := 1.
Definition PMIX_GDS_SHMEM_READY_FOR_USE : Z := 2.
Definition PMIX_GDS_SHMEM_RELEASE : Z := 4.

(* ================================================================== *)
(** ** Values, key/value pairs and buffers of the codec *)

(** A [pmix_buffer_t] as the unpack side of the codec sees it: the key/value
    pairs it holds, in order, and the status [PMIX_BFROPS_UNPACK] gives once
    they are consumed, which is [PMIX_ERR_UNPACK_READ_PAST_END_OF_BUFFER] for
    a well-formed buffer.  [bytes_used] is the length of the payload. *)
Record pmix_buffer_t (V : Type) : Type := mk_buffer {
  bytes_used : Z;
  packed : list (string * V);
  unpack_end : pmix_status_t
}.
Arguments mk_buffer {V}.
Arguments bytes_used {V}.
Arguments packed {V}.
Arguments unpack_end {V}.

(** The values this module looks into.  The entries of a connection-info
    blob are read through [data.string] without a look at their type, so the
    payload of a byte object is a buffer of string-valued pairs. *)
Inductive pmix_value_t : Type :=
| V_string (s : string)
| V_data_array (darray_size : Z)
| V_byte_object (bo : pmix_buffer_t string)
| V_other (type : Z).

Definition pmix_kval_t : Type := string * pmix_value_t.

(** [PMIX_CHECK_KEY]. *)
Definition PMIX_CHECK_KEY {V} (kv : string * V) (k : string) : bool :=
  String.eqb (fst kv) k.

(** [PMIX_CONSTRUCT(&buffer, pmix_buffer_t)]. *)
Definition empty_buffer {V} : pmix_buffer_t V :=
  mk_buffer 0 [] PMIX_ERR_UNPACK_READ_PAST_END_OF_BUFFER.

(* ================================================================== *)
(** ** Segments, shared headers and job trackers *)

(** [pmix_shmem_t] (src/util/pmix_shmem.h). *)
Record pmix_shmem_t : Type := mk_shmem {
  size : Z;
  base_address : Z;
  backing_path : string
}.

Definition new_shmem : pmix_shmem_t := mk_shmem 0 NULL "".

(** A hash table living in a segment: where the object and its table are,
    and the capacity the collaborator gave it. *)
Record pmix_hash_table_t : Type := mk_hash_table {
  ht_object : Z;
  ht_table : Z;
  ht_capacity : Z
}.

(** [pmix_gds_shmem_shared_job_data_t], the header of a JOB segment. *)
Record pmix_gds_shmem_shared_job_data_t : Type := mk_smdata {
  current_addr : Z;
  session : Z;
  jobinfo : Z;
  nodeinfo : Z;
  appinfo : Z;
  local_hashtab : pmix_hash_table_t
}.

(** [pmix_gds_shmem_shared_modex_data_t], the header of a MODEX segment. *)
Record pmix_gds_shmem_shared_modex_data_t : Type := mk_smmodex {
  modex_current_addr : Z;
  hashtab : pmix_hash_table_t
}.

(** [pmix_gds_shmem_job_t].  [smdata] and [smmodex] are the addresses of the
    headers; [nprocs] is [job->nspace->nprocs]. *)
Record pmix_gds_shmem_job_t : Type := mk_job {
  nspace_id : string;
  nprocs : Z;
  shmem_status : Z;
  shmem : pmix_shmem_t;
  smdata : Z;
  modex_shmem_status : Z;
  modex_shmem : pmix_shmem_t;
  smmodex : Z
}.

(** [job_construct], for the tracker of namespace [nsid]. *)
Definition job_construct (nsid : string) (np : Z) : pmix_gds_shmem_job_t :=
  mk_job nsid np 0 new_shmem NULL 0 new_shmem NULL.

(** What the module has made happen at its collaborators and in the system,
    in order: a backing file created, a mapping made or undone, a help message
    shown, a hash table initialized, usage statistics emitted, a segment
    object released, modex data handed to the base store. *)
Inductive event : Type :=
| Ev_segment_create (path : string) (sz : Z)
| Ev_segment_attach (path : string) (req_addr : Z)
| Ev_segment_detach (path : string)
| Ev_show_help (topic : string)
| Ev_hash_table_init (ht : Z) (table_size : Z)
| Ev_usage_stats (id : Z)
| Ev_shmem_release (path : string)
| Ev_store_modex (nspace : string).

(** The collaborators: system calls, the hash table, the key store, the
    codec's pack side, the sizes of the C types, and the value of the
    configured [pmix_gds_shmem_segment_size_multiplier].

    Modelled from the spec: the multiplier is declared in gds_shmem.h, which
    is not part of the sources at hand; it is one floating-point tunable
    (default 1.0) applied to estimated segment sizes, taken here as a C
    [double]. *)
Record host_t : Type := mk_host {
  sysconf_page_size : Z;
  vmem_find_hole : Z -> pmix_status_t * Z;
  segment_create : string -> Z -> pmix_status_t;
  segment_attach : pmix_shmem_t -> Z -> pmix_status_t * Z;
  hash_table_capacity : Z -> Z;
  gds_fetch_kv : string -> pmix_status_t * string;
  getenv_TMPDIR : option string;
  PMIX_PATH_MAX : Z;
  PACKAGE_NAME : string;
  hostname : string;
  getpid : Z;
  bfrops_pack_status : string -> pmix_status_t;
  packed_size_of : pmix_kval_t -> Z;
  sizeof_shared_job_data : Z;
  sizeof_shared_modex_data : Z;
  sizeof_tma : Z;
  sizeof_session : Z;
  sizeof_list : Z;
  sizeof_hash_table : Z;
  sizeof_hash_element : Z;
  sizeof_kval : Z;
  sizeof_value : Z;
  segment_size_multiplier : spec_float;
  nspace_nprocs : string -> Z;
  base_store_modex : string -> pmix_buffer_t pmix_value_t -> pmix_status_t
}.

(* ================================================================== *)
(** ** Tracker helpers (gds_shmem_utils) *)

Definition set_shmem (job : pmix_gds_shmem_job_t) (s : pmix_shmem_t)
  : pmix_gds_shmem_job_t :=
  mk_job (nspace_id job) (nprocs job) (shmem_status job) s (smdata job)
         (modex_shmem_status job) (modex_shmem job) (smmodex job).

Definition set_modex_shmem (job : pmix_gds_shmem_job_t) (s : pmix_shmem_t)
  : pmix_gds_shmem_job_t :=
  mk_job (nspace_id job) (nprocs job) (shmem_status job) (shmem job)
         (smdata job) (modex_shmem_status job) s (smmodex job).

Definition set_shmem_status (job : pmix_gds_shmem_job_t) (st : Z)
  : pmix_gds_shmem_job_t :=
  mk_job (nspace_id job) (nprocs job) st (shmem job) (smdata job)
         (modex_shmem_status job) (modex_shmem job) (smmodex job).

Definition set_modex_shmem_status (job : pmix_gds_shmem_job_t) (st : Z)
  : pmix_gds_shmem_job_t :=
  mk_job (nspace_id job) (nprocs job) (shmem_status job) (shmem job)
         (smdata job) st (modex_shmem job) (smmodex job).

Definition set_smdata (job : pmix_gds_shmem_job_t) (p : Z)
  : pmix_gds_shmem_job_t :=
  mk_job (nspace_id job) (nprocs job) (shmem_status job) (shmem job) p
         (modex_shmem_status job) (modex_shmem job) (smmodex job).

Definition set_smmodex (job : pmix_gds_shmem_job_t) (p : Z)
  : pmix_gds_shmem_job_t :=
  mk_job (nspace_id job) (nprocs job) (shmem_status job) (shmem job)
         (smdata job) (modex_shmem_status job) (modex_shmem job) p.

(** Modelled from the spec: [pmix_gds_shmem_get_job_shmem_by_id] is defined
    in gds_shmem_utils.c.  A tracker has its segments indexed by role; any
    other id is an error. *)
Definition pmix_gds_shmem_get_job_shmem_by_id
    (job : pmix_gds_shmem_job_t) (shmem_id : Z)
  : pmix_status_t * option pmix_shmem_t :=
  if shmem_id =? PMIX_GDS_SHMEM_JOB_ID then (PMIX_SUCCESS, Some (shmem job))
  else if shmem_id =? PMIX_GDS_SHMEM_MODEX_ID
       then (PMIX_SUCCESS, Some (modex_shmem job))
  else (PMIX_ERROR, None).

(** Writes the segment of a role back into the tracker. *)
Definition put_job_shmem (job : pmix_gds_shmem_job_t) (shmem_id : Z)
    (s : pmix_shmem_t) : pmix_gds_shmem_job_t :=
  if shmem_id =? PMIX_GDS_SHMEM_JOB_ID then set_shmem job s
  else if shmem_id =? PMIX_GDS_SHMEM_MODEX_ID then set_modex_shmem job s
  else job.

(** Modelled from the spec: [pmix_gds_shmem_set_status],
    [pmix_gds_shmem_has_status] and [pmix_gds_shmem_clearall_status] are
    defined in gds_shmem_utils.h.  Flags are held per tracker and role, as
    bits of [shmem_status] and [modex_shmem_status]; no flag is held for an
    id that is not a role. *)
Definition job_status (job : pmix_gds_shmem_job_t) (shmem_id : Z) : Z :=
  if shmem_id =? PMIX_GDS_SHMEM_JOB_ID then shmem_status job
  else if shmem_id =? PMIX_GDS_SHMEM_MODEX_ID then modex_shmem_status job
  else 0.

Definition pmix_gds_shmem_set_status
    (job : pmix_gds_shmem_job_t) (shmem_id : Z) (flag : Z)
  : pmix_gds_shmem_job_t :=
  if shmem_id =? PMIX_GDS_SHMEM_JOB_ID
  then set_shmem_status job (Z.lor (shmem_status job) flag)
  else if shmem_id =? PMIX_GDS_SHMEM_MODEX_ID
  then set_modex_shmem_status job (Z.lor (modex_shmem_status job) flag)
  else job.

Definition pmix_gds_shmem_has_status
    (job : pmix_gds_shmem_job_t) (shmem_id : Z) (flag : Z) : bool :=
  negb (Z.land (job_status job shmem_id) flag =? 0).

Definition pmix_gds_shmem_clearall_status
    (job : pmix_gds_shmem_job_t) (shmem_id : Z) : pmix_gds_shmem_job_t :=
  if shmem_id =? PMIX_GDS_SHMEM_JOB_ID then set_shmem_status job 0
  else if shmem_id =? PMIX_GDS_SHMEM_MODEX_ID
  then set_modex_shmem_status job 0
  else job.

(** Modelled from the spec: [pmix_shmem_segment_create] and
    [pmix_shmem_segment_attach] are defined in src/util/pmix_shmem.c.  A
    created segment records its backing path and size; an attached one
    records the address it was mapped at. *)
Definition pmix_shmem_segment_create (host : host_t) (s : pmix_shmem_t)
    (sz : Z) (path : string) : pmix_status_t * pmix_shmem_t :=
  match segment_create host path sz with
  | PMIX_SUCCESS => (PMIX_SUCCESS, mk_shmem sz (base_address s) path)
  | rc => (rc, s)
  end.

Definition pmix_shmem_segment_attach (host : host_t) (s : pmix_shmem_t)
    (req_addr : Z) : pmix_status_t * pmix_shmem_t * Z :=
  match segment_attach host s req_addr with
  | (PMIX_SUCCESS, mmap_addr) =>
      (PMIX_SUCCESS,
       mk_shmem (size s) (to_uintptr_t mmap_addr) (backing_path s),
       to_uintptr_t mmap_addr)
  | (rc, _) => (rc, s, 0)
  end.

(* ================================================================== *)
(** ** Backing path *)

(** [fetch_base_tmpdir]: the loop over [PMIX_NSDIR], [PMIX_TMPDIR].  A failed
    fetch leaves the loop; a value too long for the buffer tries the next
    key. *)
Fixpoint fetch_base_tmpdir_loop (host : host_t) (fetch_keys : list string)
  : option string :=
  match fetch_keys with
  | [] => None
  | k :: rest =>
      match gds_fetch_kv host k with
      | (PMIX_SUCCESS, v) =>
          if Z.of_nat (String.length v) >=? PMIX_PATH_MAX host
          then fetch_base_tmpdir_loop host rest
          else Some v
      | _ => None
      end
  end.

Definition fetch_base_tmpdir (host : host_t) (job : pmix_gds_shmem_job_t)
  : string :=
  match fetch_base_tmpdir_loop host [PMIX_NSDIR; PMIX_TMPDIR] with
  | Some fetched_path => fetched_path
  | None =>
      match getenv_TMPDIR host with
      | Some tmpdir => tmpdir
      | None => "/tmp"
      end
  end.

(** [get_shmem_backing_path]: ["%s/%s-gds-%s.%s-%s.%s.%d"]; [None] is NULL. *)
Definition get_shmem_backing_path (host : host_t)
    (job : pmix_gds_shmem_job_t) (id : string) : option string :=
  let basedir := fetch_base_tmpdir host job in
  let path :=
    basedir ++ "/" ++ PACKAGE_NAME host ++ "-gds-" ++ PMIX_GDS_SHMEM_NAME
    ++ "." ++ hostname host ++ "-" ++ nspace_id job ++ "." ++ id ++ "."
    ++ fmt_d (getpid host) in
  if Z.of_nat (String.length path) >=? PMIX_PATH_MAX host then None
  else Some path.

(* ================================================================== *)
(** ** Attaching and creating segments *)

(** The result of an operation on one tracker: status, tracker, and what
    was asked of the collaborators. *)
Definition job_result : Type :=
  pmix_status_t * pmix_gds_shmem_job_t * list event.

(** [shmem_attach]. *)
Definition shmem_attach (host : host_t) (job : pmix_gds_shmem_job_t)
    (shmem_id : Z) (req_addr : Z) : job_result :=
  match pmix_gds_shmem_get_job_shmem_by_id job shmem_id with
  | (PMIX_SUCCESS, Some s) =>
      match pmix_shmem_segment_attach host s req_addr with
      | (PMIX_SUCCESS, s', mmap_addr) =>
          let job' := put_job_shmem job shmem_id s' in
          let ev := Ev_segment_attach (backing_path s) req_addr in
          if negb (mmap_addr =? req_addr) then
            (PMIX_ERROR, job',
             [ev; Ev_show_help "shmem-segment-attach:address-mismatch";
              Ev_segment_detach (backing_path s')])
          else
            (PMIX_SUCCESS,
             pmix_gds_shmem_set_status job' shmem_id PMIX_GDS_SHMEM_ATTACHED,
             [ev])
      | (rc, _, _) => (rc, job, [])
      end
  | (rc, _) => (rc, job, [])
  end.

(** [init_client_side_sm_data]. *)
Definition init_client_side_sm_data (job : pmix_gds_shmem_job_t)
    (shmem_id : Z) : pmix_status_t * pmix_gds_shmem_job_t :=
  if shmem_id =? PMIX_GDS_SHMEM_JOB_ID then
    (PMIX_SUCCESS,
     pmix_gds_shmem_set_status
       (set_smdata job (base_address (shmem job)))
       shmem_id PMIX_GDS_SHMEM_READY_FOR_USE)
  else if shmem_id =? PMIX_GDS_SHMEM_MODEX_ID then
    (PMIX_SUCCESS,
     pmix_gds_shmem_set_status
       (set_smmodex job (base_address (modex_shmem job)))
       shmem_id PMIX_GDS_SHMEM_READY_FOR_USE)
  else (PMIX_ERROR, job).

(** [pmix_gds_shmem_unpacked_seg_blob_t]; [None] is a NULL string. *)
Record pmix_gds_shmem_unpacked_seg_blob_t : Type := mk_usb {
  nsid : option string;
  smid : Z;
  seg_path : option string;
  seg_size : Z;
  seg_addr : Z
}.

Definition unpacked_seg_blob_construct : pmix_gds_shmem_unpacked_seg_blob_t :=
  mk_usb None PMIX_GDS_SHMEM_INVALID_ID None 0 0.

(** A [char *] as the callee reads it.  The source hands [usb.nsid] and
    [seg_path] on without a NULL check; a NULL one is read as empty here. *)
Definition c_str (s : option string) : string :=
  match s with Some x => x | None => "" end.

(** Modelled from the spec: [pmix_string_copy] is defined in
    src/util/pmix_string_copy.c; the path is truncated to the bounded path
    length of the segment. *)
Definition pmix_string_copy (src : string) (buffmax : Z) : string :=
  String.substring 0 (Z.to_nat (buffmax - 1)) src.

(** [shmem_segment_attach_and_init]. *)
Definition shmem_segment_attach_and_init (host : host_t)
    (job : pmix_gds_shmem_job_t)
    (seginfo : pmix_gds_shmem_unpacked_seg_blob_t) : job_result :=
  match pmix_gds_shmem_get_job_shmem_by_id job (smid seginfo) with
  | (PMIX_SUCCESS, Some s) =>
      let s1 := mk_shmem (seg_size seginfo) (base_address s)
                  (pmix_string_copy (c_str (seg_path seginfo))
                                    (PMIX_PATH_MAX host)) in
      let job1 := put_job_shmem job (smid seginfo) s1 in
      let req_addr := to_uintptr_t (seg_addr seginfo) in
      match shmem_attach host job1 (smid seginfo) req_addr with
      | (PMIX_SUCCESS, job2, evs) =>
          let '(rc, job3) := init_client_side_sm_data job2 (smid seginfo) in
          (rc, job3, evs)
      | (rc, job2, evs) => (rc, job2, evs)
      end
  | (rc, _) => (rc, job, [])
  end.

(** [shmem_segment_create_and_attach]. *)
Definition shmem_segment_create_and_attach (host : host_t)
    (job : pmix_gds_shmem_job_t) (shmem_id : Z) (segment_name : string)
    (segment_size : Z) : job_result :=
  let real_segsize := real_segsize (sysconf_page_size host) segment_size in
  let '(rc, job', evs) :=
    match vmem_find_hole host real_segsize with
    | (PMIX_SUCCESS, base_addr) =>
        match get_shmem_backing_path host job segment_name with
        | None => (PMIX_ERROR, job, [])
        | Some segment_path =>
            match pmix_gds_shmem_get_job_shmem_by_id job shmem_id with
            | (PMIX_SUCCESS, Some s) =>
                match pmix_shmem_segment_create host s real_segsize
                                                segment_path with
                | (PMIX_SUCCESS, s') =>
                    let job1 := put_job_shmem job shmem_id s' in
                    let '(rc, job2, evs) :=
                      shmem_attach host job1 shmem_id
                                   (to_uintptr_t base_addr) in
                    (rc, job2,
                     (Ev_segment_create segment_path real_segsize :: evs)%list)
                | (rc, _) => (rc, job, [])
                end
            | (rc, _) => (rc, job, [])
            end
        end
    | (rc, _) => (rc, job, [])
    end in
  match rc with
  | PMIX_SUCCESS =>
      (rc, pmix_gds_shmem_set_status job' shmem_id PMIX_GDS_SHMEM_RELEASE, evs)
  | _ => (rc, job', evs)
  end.

(* ================================================================== *)
(** ** Laying out the headers *)

(** Modelled from the spec: [PMIX_NEW(type, tma)] is defined in
    src/class/pmix_object.h; containers of a header are allocated through
    the TMA, so that they live inside the segment. *)
Definition pmix_obj_new_tma (tma : pmix_tma_t) (cls_sizeof : Z)
  : Z * pmix_tma_t :=
  tma_malloc tma cls_sizeof.

(** Modelled from the spec: [pmix_hash_table_init] is defined in
    src/class/pmix_hash_table.c.  The table gets the capacity the collaborator
    chooses for the requested size, and its elements come from the TMA. *)
Definition pmix_hash_table_init (host : host_t) (tma : pmix_tma_t)
    (ht : Z) (table_size : Z) : pmix_hash_table_t * pmix_tma_t :=
  let capacity := hash_table_capacity host table_size in
  let '(table, tma') := tma_calloc tma capacity (sizeof_hash_element host) in
  (mk_hash_table ht table capacity, tma').

(** [job_smdata_construct]: the tracker, and the header written at the base
    of the JOB segment. *)
Definition job_smdata_construct (host : host_t)
    (job : pmix_gds_shmem_job_t) (htsize : Z)
  : pmix_status_t * pmix_gds_shmem_job_t
    * pmix_gds_shmem_shared_job_data_t * list event :=
  let baseaddr := base_address (shmem job) in
  let job' := set_smdata job baseaddr in
  let tma := tma_init baseaddr in
  let tma := mk_tma (addr_align baseaddr (sizeof_shared_job_data host)) in
  let '(jobinfo, tma) := pmix_obj_new_tma tma (sizeof_list host) in
  let '(nodeinfo, tma) := pmix_obj_new_tma tma (sizeof_list host) in
  let '(appinfo, tma) := pmix_obj_new_tma tma (sizeof_list host) in
  let '(ht, tma) := pmix_obj_new_tma tma (sizeof_hash_table host) in
  let '(local_hashtab, tma) := pmix_hash_table_init host tma ht htsize in
  (PMIX_SUCCESS, job',
   mk_smdata (data_ptr tma) NULL jobinfo nodeinfo appinfo local_hashtab,
   [Ev_hash_table_init ht htsize]).

(** [modex_smdata_construct]. *)
Definition modex_smdata_construct (host : host_t)
    (job : pmix_gds_shmem_job_t) (htsize : Z)
  : pmix_status_t * pmix_gds_shmem_job_t
    * pmix_gds_shmem_shared_modex_data_t * list event :=
  let baseaddr := base_address (modex_shmem job) in
  let job' := set_smmodex job baseaddr in
  let tma := tma_init baseaddr in
  let tma := mk_tma (addr_align baseaddr (sizeof_shared_modex_data host)) in
  let '(ht, tma) := pmix_obj_new_tma tma (sizeof_hash_table host) in
  let '(hashtab, tma) := pmix_hash_table_init host tma ht htsize in
  (PMIX_SUCCESS, job',
   mk_smmodex (data_ptr tma) hashtab,
   [Ev_hash_table_init ht htsize]).

(* ================================================================== *)
(** ** Sizing the JOB segment *)

(** Stores packed job statistics. *)
Record pmix_gds_shmem_local_job_stats_t : Type := mk_stats {
  packed_size : Z;
  hash_table_size : Z
}.

(** [PMIX_BFROPS_PACK] of one key/value pair: the codec may refuse; otherwise
    the pair is appended. *)
Definition bfrops_pack {V} (host : host_t) (inj : V -> pmix_value_t)
    (buffer : pmix_buffer_t V) (kv : string * V)
  : pmix_status_t * pmix_buffer_t V :=
  match bfrops_pack_status host (fst kv) with
  | PMIX_SUCCESS =>
      (PMIX_SUCCESS,
       mk_buffer
         (to_size_t (bytes_used buffer
                     + packed_size_of host (fst kv, inj (snd kv))))
         (packed buffer ++ [kv])%list
         (unpack_end buffer))
  | rc => (rc, buffer)
  end.

(** [get_actual_hashtab_capacity]: a temporary table is initialized with the
    number of expected elements and asked for its capacity. *)
Definition get_actual_hashtab_capacity (host : host_t) (num_elements : Z)
  : Z :=
  hash_table_capacity host num_elements.

(** What one entry of the fetched list adds to [nhtentries]. *)
Definition nhtentries_add (nhtentries : Z) (kvi : pmix_kval_t) : Z :=
  match snd kvi with
  | V_data_array darray_size =>
      if PMIX_CHECK_KEY kvi PMIX_PROC_DATA
      then to_size_t (nhtentries + darray_size)
      else nhtentries
  | _ => to_size_t (nhtentries + 1)
  end.

(** The [PMIX_LIST_FOREACH] of [get_local_job_data_stats]: status, the count
    so far and the scratch buffer. *)
Fixpoint get_local_job_data_stats_loop (host : host_t)
    (kvs : list pmix_kval_t) (nhtentries : Z)
    (data : pmix_buffer_t pmix_value_t)
  : pmix_status_t * Z * pmix_buffer_t pmix_value_t :=
  match kvs with
  | [] => (PMIX_SUCCESS, nhtentries, data)
  | kvi :: rest =>
      let nhtentries' := nhtentries_add nhtentries kvi in
      match bfrops_pack host (fun v => v) data kvi with
      | (PMIX_SUCCESS, data') =>
          get_local_job_data_stats_loop host rest nhtentries' data'
      | (rc, data') => (rc, nhtentries', data')
      end
  end.

(** The number of hash-table entries the estimator expects for a list. *)
Definition count_nhtentries (kvs : list pmix_kval_t) : Z :=
  fold_left nhtentries_add kvs 0.

(** [get_local_job_data_stats]. *)
Definition get_local_job_data_stats (host : host_t) (kvs : list pmix_kval_t)
  : pmix_status_t * pmix_gds_shmem_local_job_stats_t :=
  match get_local_job_data_stats_loop host kvs 0 empty_buffer with
  | (PMIX_SUCCESS, nhtentries, data) =>
      (PMIX_SUCCESS,
       mk_stats (bytes_used data)
                (get_actual_hashtab_capacity host nhtentries))
  | (rc, _, _) => (rc, mk_stats 0 0)
  end.

(** The size estimate of [prepare_shmem_store_for_local_job_data] before the
    floating-point factors, on [size_t]. *)
Definition job_seg_size_raw (host : host_t)
    (stats : pmix_gds_shmem_local_job_stats_t) : Z :=
  let kvsize := sizeof_kval host + sizeof_value host in
  let htsize := hash_table_size stats in
  to_size_t
    (sizeof_shared_job_data host + sizeof_tma host + sizeof_session host
     + sizeof_list host + sizeof_list host + sizeof_list host
     + sizeof_hash_table host
     + sizeof_hash_table host
     + htsize * sizeof_hash_element host
     + htsize * kvsize
     + packed_size stats).

(** [seg_size *= pmix_gds_shmem_segment_size_multiplier;] on a [size_t]:
    the multiplier being a [double], the product is taken in [double] and
    converted back. *)
Definition times_segment_size_multiplier (host : host_t) (seg_size : Z)
  : Z :=
  size_t_of_float
    (SFmul DBL_PREC DBL_EMAX (double_of_size_t seg_size)
           (segment_size_multiplier host)).

(** [seg_size *= fluff; seg_size *= pmix_gds_shmem_segment_size_multiplier;]
    with [fluff = 2.5]. *)
Definition apply_fluff_and_multiplier (host : host_t) (seg_size : Z) : Z :=
  times_segment_size_multiplier host (times_fluff seg_size).

(** [prepare_shmem_store_for_local_job_data]: also the header laid down,
    when the segment could be made. *)
Definition prepare_shmem_store_for_local_job_data (host : host_t)
    (job : pmix_gds_shmem_job_t) (stats : pmix_gds_shmem_local_job_stats_t)
  : pmix_status_t * pmix_gds_shmem_job_t
    * option pmix_gds_shmem_shared_job_data_t * list event :=
  let htsize := hash_table_size stats in
  let seg_size := apply_fluff_and_multiplier host (job_seg_size_raw host stats) in
  match shmem_segment_create_and_attach host job PMIX_GDS_SHMEM_JOB_ID
                                        "jobdata" seg_size with
  | (PMIX_SUCCESS, job1, evs) =>
      let '(rc, job2, hdr, evs') := job_smdata_construct host job1 htsize in
      (rc, job2, Some hdr, (evs ++ evs')%list)
  | (rc, job1, evs) => (rc, job1, None, evs)
  end.

(* ================================================================== *)
(** ** The connection-info blob *)

(** Packs the pairs in order and stops at the first one the codec refuses. *)
Fixpoint bfrops_pack_all {V} (host : host_t) (inj : V -> pmix_value_t)
    (buffer : pmix_buffer_t V) (kvs : list (string * V))
  : pmix_status_t * pmix_buffer_t V :=
  match kvs with
  | [] => (PMIX_SUCCESS, buffer)
  | kv :: rest =>
      match bfrops_pack host inj buffer kv with
      | (PMIX_SUCCESS, buffer') => bfrops_pack_all host inj buffer' rest
      | (rc, buffer') => (rc, buffer')
      end
  end.

(** The five entries [pack_shmem_connection_info] packs for a segment. *)
Definition connection_info (job : pmix_gds_shmem_job_t) (shmem_id : Z)
    (s : pmix_shmem_t) : list (string * string) :=
  [ (SHMEM_SEG_NSID_KEY, nspace_id job);
    (SHMEM_SEG_SMID_KEY, fmt_zd (to_size_t shmem_id));
    (SHMEM_SEG_PATH_KEY, backing_path s);
    (SHMEM_SEG_SIZE_KEY, fmt_zx (size s));
    (SHMEM_SEG_ADDR_KEY, fmt_zx (base_address s)) ].

(** [pack_shmem_connection_info].  (Running out of memory in [asprintf] is
    not modelled.) *)
Definition pack_shmem_connection_info (host : host_t)
    (job : pmix_gds_shmem_job_t) (shmem_id : Z)
    (buffer : pmix_buffer_t string)
  : pmix_status_t * pmix_buffer_t string :=
  match pmix_gds_shmem_get_job_shmem_by_id job shmem_id with
  | (PMIX_SUCCESS, Some s) =>
      bfrops_pack_all host V_string buffer (connection_info job shmem_id s)
  | (rc, _) => (rc, buffer)
  end.

(** The cast [(pmix_gds_shmem_job_shmem_id_t)st_shmem_id]: an enumeration
    without negative values is an [unsigned int]. *)
Definition to_shmem_id (v : Z) : Z := v mod 2 ^ 32.

Definition set_nsid (usb : pmix_gds_shmem_unpacked_seg_blob_t)
    (v : option string) : pmix_gds_shmem_unpacked_seg_blob_t :=
  mk_usb v (smid usb) (seg_path usb) (seg_size usb) (seg_addr usb).
Definition set_smid (usb : pmix_gds_shmem_unpacked_seg_blob_t)
    (v : Z) : pmix_gds_shmem_unpacked_seg_blob_t :=
  mk_usb (nsid usb) v (seg_path usb) (seg_size usb) (seg_addr usb).
Definition set_seg_path (usb : pmix_gds_shmem_unpacked_seg_blob_t)
    (v : option string) : pmix_gds_shmem_unpacked_seg_blob_t :=
  mk_usb (nsid usb) (smid usb) v (seg_size usb) (seg_addr usb).
Definition set_seg_size (usb : pmix_gds_shmem_unpacked_seg_blob_t)
    (v : Z) : pmix_gds_shmem_unpacked_seg_blob_t :=
  mk_usb (nsid usb) (smid usb) (seg_path usb) v (seg_addr usb).
Definition set_seg_addr (usb : pmix_gds_shmem_unpacked_seg_blob_t)
    (v : Z) : pmix_gds_shmem_unpacked_seg_blob_t :=
  mk_usb (nsid usb) (smid usb) (seg_path usb) (seg_size usb) v.

(** The [while (true)] of [unpack_shmem_connection_info]: the status the
    loop is left with, and the fields filled in so far.  [end_rc] is what
    the codec answers once the buffer is used up. *)
Fixpoint unpack_shmem_connection_info_loop
    (items : list (string * string)) (end_rc : pmix_status_t)
    (usb : pmix_gds_shmem_unpacked_seg_blob_t)
  : pmix_status_t * pmix_gds_shmem_unpacked_seg_blob_t :=
  match items with
  | [] => (end_rc, usb)
  | kv :: rest =>
      let val := snd kv in
      if PMIX_CHECK_KEY kv SHMEM_SEG_NSID_KEY then
        unpack_shmem_connection_info_loop rest end_rc
          (set_nsid usb (Some val))
      else if PMIX_CHECK_KEY kv SHMEM_SEG_SMID_KEY then
        match strtost val 10 with
        | (PMIX_SUCCESS, st_shmem_id) =>
            unpack_shmem_connection_info_loop rest end_rc
              (set_smid usb (to_shmem_id st_shmem_id))
        | (rc, _) => (rc, usb)
        end
      else if PMIX_CHECK_KEY kv SHMEM_SEG_PATH_KEY then
        unpack_shmem_connection_info_loop rest end_rc
          (set_seg_path usb (Some val))
      else if PMIX_CHECK_KEY kv SHMEM_SEG_SIZE_KEY then
        match strtost val 16 with
        | (PMIX_SUCCESS, v) =>
            unpack_shmem_connection_info_loop rest end_rc (set_seg_size usb v)
        | (rc, v) => (rc, set_seg_size usb v)
        end
      else if PMIX_CHECK_KEY kv SHMEM_SEG_ADDR_KEY then
        match strtost val 16 with
        | (PMIX_SUCCESS, v) =>
            unpack_shmem_connection_info_loop rest end_rc (set_seg_addr usb v)
        | (rc, v) => (rc, set_seg_addr usb v)
        end
      else (PMIX_ERR_BAD_PARAM, usb)
  end.

(** What the functions of this module do with the status their unpack loop
    was left with. *)
Definition unpack_loop_verdict (rc : pmix_status_t) : pmix_status_t :=
  match rc with
  | PMIX_ERR_UNPACK_READ_PAST_END_OF_BUFFER => PMIX_SUCCESS
  | _ => PMIX_ERR_UNPACK_FAILURE
  end.

(** [unpack_shmem_connection_info]. *)
Definition unpack_shmem_connection_info (kvbo : pmix_kval_t)
    (usb : pmix_gds_shmem_unpacked_seg_blob_t)
  : pmix_status_t * pmix_gds_shmem_unpacked_seg_blob_t :=
  match snd kvbo with
  | V_byte_object bo =>
      let '(rc, usb') :=
        unpack_shmem_connection_info_loop (packed bo) (unpack_end bo) usb in
      (unpack_loop_verdict rc, usb')
  | _ => (PMIX_ERR_TYPE_MISMATCH, usb)
  end.

(** [pack_shmem_seg_blob]. *)
Definition pack_shmem_seg_blob (host : host_t) (job : pmix_gds_shmem_job_t)
    (shmem_id : Z) (reply : pmix_buffer_t pmix_value_t)
  : pmix_status_t * pmix_buffer_t pmix_value_t :=
  if negb (pmix_gds_shmem_has_status job shmem_id
             PMIX_GDS_SHMEM_READY_FOR_USE)
  then (PMIX_SUCCESS, reply)
  else
    match pack_shmem_connection_info host job shmem_id empty_buffer with
    | (PMIX_SUCCESS, buff) =>
        bfrops_pack host (fun v => v) reply
                    (SHMEM_SEG_BLOB_KEY, V_byte_object buff)
    | (rc, _) => (rc, reply)
    end.

(* ================================================================== *)
(** ** The process-wide list of trackers *)

Fixpoint find_job (nspace : string) (jobs : list pmix_gds_shmem_job_t)
  : option pmix_gds_shmem_job_t :=
  match jobs with
  | [] => None
  | ti :: rest =>
      if String.eqb nspace (nspace_id ti) then Some ti
      else find_job nspace rest
  end.

(** Writes a tracker back in place of the one found for its namespace. *)
Fixpoint put_job (job : pmix_gds_shmem_job_t)
    (jobs : list pmix_gds_shmem_job_t) : list pmix_gds_shmem_job_t :=
  match jobs with
  | [] => []
  | ti :: rest =>
      if String.eqb (nspace_id job) (nspace_id ti) then job :: rest
      else ti :: put_job job rest
  end.

(** Modelled from the spec: [pmix_gds_shmem_get_job_tracker] is defined in
    gds_shmem_utils.c.  It finds the tracker of a namespace in the
    process-wide job list, or creates and appends one when asked to. *)
Definition pmix_gds_shmem_get_job_tracker (host : host_t)
    (jobs : list pmix_gds_shmem_job_t) (nspace : string) (create : bool)
  : pmix_status_t * option pmix_gds_shmem_job_t * list pmix_gds_shmem_job_t :=
  match find_job nspace jobs with
  | Some job => (PMIX_SUCCESS, Some job, jobs)
  | None =>
      if create then
        let job := job_construct nspace (nspace_nprocs host nspace) in
        (PMIX_SUCCESS, Some job, (jobs ++ [job])%list)
      else (PMIX_ERR_NOT_FOUND, None, jobs)
  end.

(** The result of an operation of the module: status, job list, and what
    was asked of the collaborators. *)
Definition module_result : Type :=
  pmix_status_t * list pmix_gds_shmem_job_t * list event.

(** [unpack_shmem_seg_blob_and_attach_if_necessary]. *)
Definition unpack_shmem_seg_blob_and_attach_if_necessary (host : host_t)
    (jobs : list pmix_gds_shmem_job_t) (kvbo : pmix_kval_t) : module_result :=
  match unpack_shmem_connection_info kvbo unpacked_seg_blob_construct with
  | (PMIX_SUCCESS, usb) =>
      match pmix_gds_shmem_get_job_tracker host jobs (c_str (nsid usb)) true
      with
      | (PMIX_SUCCESS, Some job, jobs1) =>
          if pmix_gds_shmem_has_status job (smid usb) PMIX_GDS_SHMEM_ATTACHED
          then (PMIX_SUCCESS, jobs1, [])
          else
            let '(rc, job', evs) :=
              shmem_segment_attach_and_init host job usb in
            (rc, put_job job' jobs1, evs)
      | (rc, _, jobs1) => (rc, jobs1, [])
      end
  | (rc, _) => (rc, jobs, [])
  end.

(** The [while (true)] of [store_job_info]: the status the loop is left
    with. *)
Fixpoint store_job_info_loop (host : host_t)
    (jobs : list pmix_gds_shmem_job_t) (items : list pmix_kval_t)
    (end_rc : pmix_status_t) : module_result :=
  match items with
  | [] => (end_rc, jobs, [])
  | kval :: rest =>
      if PMIX_CHECK_KEY kval SHMEM_SEG_BLOB_KEY then
        match unpack_shmem_seg_blob_and_attach_if_necessary host jobs kval
        with
        | (PMIX_SUCCESS, jobs1, evs) =>
            let '(rc, jobs2, evs') :=
              store_job_info_loop host jobs1 rest end_rc in
            (rc, jobs2, (evs ++ evs')%list)
        | (rc, jobs1, evs) => (rc, jobs1, evs)
        end
      else if PMIX_CHECK_KEY kval PMIX_SESSION_INFO_ARRAY
              || PMIX_CHECK_KEY kval PMIX_NODE_INFO_ARRAY
              || PMIX_CHECK_KEY kval PMIX_APP_INFO_ARRAY then
        store_job_info_loop host jobs rest end_rc
      else (PMIX_ERR_BAD_PARAM, jobs, [])
  end.

(** [store_job_info]. *)
Definition store_job_info (host : host_t) (jobs : list pmix_gds_shmem_job_t)
    (nspace : string) (buff : pmix_buffer_t pmix_value_t) : module_result :=
  let '(rc, jobs', evs) :=
    store_job_info_loop host jobs (packed buff) (unpack_end buff) in
  (unpack_loop_verdict rc, jobs', evs).

(** The [while (true)] of [client_recv_modex_complete]. *)
Fixpoint client_recv_modex_complete_loop (host : host_t)
    (jobs : list pmix_gds_shmem_job_t) (items : list pmix_kval_t)
    (end_rc : pmix_status_t) : module_result :=
  match items with
  | [] => (end_rc, jobs, [])
  | kval :: rest =>
      if PMIX_CHECK_KEY kval SHMEM_SEG_BLOB_KEY then
        match unpack_shmem_seg_blob_and_attach_if_necessary host jobs kval
        with
        | (PMIX_SUCCESS, jobs1, evs) =>
            let '(rc, jobs2, evs') :=
              client_recv_modex_complete_loop host jobs1 rest end_rc in
            (rc, jobs2, (evs ++ evs')%list)
        | (rc, jobs1, evs) => (rc, jobs1, evs)
        end
      else (PMIX_ERR_BAD_PARAM, jobs, [])
  end.

(** [client_recv_modex_complete]. *)
Definition client_recv_modex_complete (host : host_t)
    (jobs : list pmix_gds_shmem_job_t) (buff : pmix_buffer_t pmix_value_t)
  : module_result :=
  let '(rc, jobs', evs) :=
    client_recv_modex_complete_loop host jobs (packed buff) (unpack_end buff)
  in
  (unpack_loop_verdict rc, jobs', evs).

(* ================================================================== *)
(** ** The MODEX segment *)

(** The size estimate of [server_store_modex] before the floating-point
    factors, on [size_t]. *)
Definition modex_seg_size_raw (host : host_t) (buff_bytes_used npeers : Z)
  : Z :=
  let htsize := to_size_t (256 * npeers) in
  to_size_t (buff_bytes_used * npeers
             + sizeof_hash_table host
             + htsize * sizeof_hash_element host).

(** [server_store_modex]: also the header laid down, when a segment was
    made by this call. *)
Definition server_store_modex (host : host_t)
    (jobs : list pmix_gds_shmem_job_t) (ns : string)
    (buff : pmix_buffer_t pmix_value_t)
  : pmix_status_t * list pmix_gds_shmem_job_t
    * option pmix_gds_shmem_shared_modex_data_t * list event :=
  match pmix_gds_shmem_get_job_tracker host jobs ns false with
  | (PMIX_SUCCESS, Some job, jobs1) =>
      let attached :=
        pmix_gds_shmem_has_status job PMIX_GDS_SHMEM_MODEX_ID
                                  PMIX_GDS_SHMEM_ATTACHED in
      if negb attached then
        let npeers := to_size_t (nprocs job) in
        let htsize := to_size_t (256 * npeers) in
        let seg_size :=
          apply_fluff_and_multiplier host
            (modex_seg_size_raw host (bytes_used buff) npeers) in
        match shmem_segment_create_and_attach host job
                PMIX_GDS_SHMEM_MODEX_ID "modexdata" seg_size with
        | (PMIX_SUCCESS, job1, evs) =>
            match modex_smdata_construct host job1 htsize with
            | (PMIX_SUCCESS, job2, hdr, evs') =>
                (base_store_modex host ns buff, put_job job2 jobs1, Some hdr,
                 (evs ++ evs' ++ [Ev_store_modex ns])%list)
            | (rc, job2, hdr, evs') =>
                (rc, put_job job2 jobs1, Some hdr, (evs ++ evs')%list)
            end
        | (rc, job1, evs) => (rc, put_job job1 jobs1, None, evs)
        end
      else
        (base_store_modex host ns buff, jobs1, None, [Ev_store_modex ns])
  | (rc, _, jobs1) => (rc, jobs1, None, [])
  end.

(* ================================================================== *)
(** ** Releasing a tracker *)

(** One round of the loop of [job_destruct] over the roles. *)
Definition job_destruct_role (job : pmix_gds_shmem_job_t) (sid : Z)
  : pmix_gds_shmem_job_t * list event :=
  match pmix_gds_shmem_get_job_shmem_by_id job sid with
  | (PMIX_SUCCESS, Some s) =>
      let stats :=
        if pmix_gds_shmem_has_status job sid PMIX_GDS_SHMEM_RELEASE
        then [Ev_usage_stats sid] else [] in
      (pmix_gds_shmem_clearall_status job sid,
       (stats ++ [Ev_shmem_release (backing_path s)])%list)
  | _ => (job, [])
  end.

(** [job_destruct]: the roles are [JOB], then [MODEX]. *)
Definition job_destruct (job : pmix_gds_shmem_job_t)
  : pmix_gds_shmem_job_t * list event :=
  let '(job1, evs1) := job_destruct_role job PMIX_GDS_SHMEM_JOB_ID in
  let '(job2, evs2) := job_destruct_role job1 PMIX_GDS_SHMEM_MODEX_ID in
  (job2, (evs1 ++ evs2)%list).

(** The [PMIX_LIST_FOREACH] of [del_nspace]: the list without the first
    tracker of the namespace, and that tracker. *)
Fixpoint del_nspace_loop (nspace : string)
    (jobs : list pmix_gds_shmem_job_t)
  : list pmix_gds_shmem_job_t * option pmix_gds_shmem_job_t :=
  match jobs with
  | [] => ([], None)
  | ji :: rest =>
      if String.eqb nspace (nspace_id ji) then (rest, Some ji)
      else
        let '(rest', removed) := del_nspace_loop nspace rest in
        (ji :: rest', removed)
  end.

(** [del_nspace]: status, the job list afterwards, the tracker released (if
    any) and what its destructor did. *)
Definition del_nspace (jobs : list pmix_gds_shmem_job_t) (nspace : string)
  : pmix_status_t * list pmix_gds_shmem_job_t
    * option pmix_gds_shmem_job_t * list event :=
  match del_nspace_loop nspace jobs with
  | (jobs', Some ji) =>
      (PMIX_SUCCESS, jobs', Some ji, snd (job_destruct ji))
  | (jobs', None) => (PMIX_SUCCESS, jobs', None, [])
  end.

(* ================================================================== *)
(** ** Notions used to state the properties *)

(** The ids that are roles of a tracker. *)
Definition is_role (shmem_id : Z) : bool :=
  (shmem_id =? PMIX_GDS_SHMEM_JOB_ID) || (shmem_id =? PMIX_GDS_SHMEM_MODEX_ID).

(** No tracker of the list holds a RELEASE flag. *)
Definition no_release (jobs : list pmix_gds_shmem_job_t) : Prop :=
  Forall (fun job => forall id,
            Z.land (job_status job id) PMIX_GDS_SHMEM_RELEASE = 0) jobs.

(** What a fetched entry is expected to put into the hash table: the
    elements of a process-data array, nothing for any other array, and one
    entry for a value that is not an array. *)
Definition expected_entries (kvi : pmix_kval_t) : Z :=
  match snd kvi with
  | V_data_array darray_size =>
      if String.eqb (fst kvi) PMIX_PROC_DATA then darray_size else 0
  | _ => 1
  end.

Fixpoint sum_expected_entries (kvs : list pmix_kval_t) : Z :=
  match kvs with
  | [] => 0
  | kvi :: rest => expected_entries kvi + sum_expected_entries rest
  end.

(** The keys [unpack_shmem_connection_info] recognizes. *)
Definition conn_key_known (k : string) : bool :=
  String.eqb k SHMEM_SEG_NSID_KEY || String.eqb k SHMEM_SEG_SMID_KEY
  || String.eqb k SHMEM_SEG_PATH_KEY || String.eqb k SHMEM_SEG_SIZE_KEY
  || String.eqb k SHMEM_SEG_ADDR_KEY.

(** The keys [store_job_info] recognizes. *)
Definition reply_key_known (k : string) : bool :=
  String.eqb k SHMEM_SEG_BLOB_KEY || String.eqb k PMIX_SESSION_INFO_ARRAY
  || String.eqb k PMIX_NODE_INFO_ARRAY || String.eqb k PMIX_APP_INFO_ARRAY.

(** Strings made of digits of [base] only, as printf writes them. *)
Fixpoint digits_only (base : Z) (s : string) : Prop :=
  match s with
  | EmptyString => True
  | String c r =>
      (exists m, 0 <= m < base /\ c = digit_char m) /\ digits_only base r
  end.

(* ================================================================== *)
(** ** Collaborators to run the model on *)

(** A host where every system call succeeds and a mapping lands where it
    was asked for; used to evaluate the definitions on concrete inputs. *)
Definition example_host : host_t :=
  {| sysconf_page_size := 4096;
     vmem_find_hole := fun _ => (PMIX_SUCCESS, 139637976727552);
     segment_create := fun _ _ => PMIX_SUCCESS;
     segment_attach := fun _ req => (PMIX_SUCCESS, req);
     hash_table_capacity := fun n => (2 * n + 29) / 30 * 30 + 1;
     gds_fetch_kv := fun _ => (PMIX_ERR_NOT_FOUND, "");
     getenv_TMPDIR := None;
     PMIX_PATH_MAX := 4096;
     PACKAGE_NAME := "pmix";
     hostname := "node0";
     getpid := 4242;
     bfrops_pack_status := fun _ => PMIX_SUCCESS;
     packed_size_of := fun kv => Z.of_nat (String.length (fst kv)) + 16;
     sizeof_shared_job_data := 120;
     sizeof_shared_modex_data := 72;
     sizeof_tma := 56;
     sizeof_session := 80;
     sizeof_list := 80;
     sizeof_hash_table := 72;
     sizeof_hash_element := 32;
     sizeof_kval := 56;
     sizeof_value := 24;
     segment_size_multiplier := double_one;
     nspace_nprocs := fun _ => 4;
     base_store_modex := fun _ _ => PMIX_SUCCESS |}.

(** The same host, except that the kernel maps one page above the address
    asked for. *)
Definition mismatch_host : host_t :=
  {| sysconf_page_size := sysconf_page_size example_host;
     vmem_find_hole := vmem_find_hole example_host;
     segment_create := segment_create example_host;
     segment_attach := fun _ req => (PMIX_SUCCESS, req + 4096);
     hash_table_capacity := hash_table_capacity example_host;
     gds_fetch_kv := gds_fetch_kv example_host;
     getenv_TMPDIR := getenv_TMPDIR example_host;
     PMIX_PATH_MAX := PMIX_PATH_MAX example_host;
     PACKAGE_NAME := PACKAGE_NAME example_host;
     hostname := hostname example_host;
     getpid := getpid example_host;
     bfrops_pack_status := bfrops_pack_status example_host;
     packed_size_of := packed_size_of example_host;
     sizeof_shared_job_data := sizeof_shared_job_data example_host;
     sizeof_shared_modex_data := sizeof_shared_modex_data example_host;
     sizeof_tma := sizeof_tma example_host;
     sizeof_session := sizeof_session example_host;
     sizeof_list := sizeof_list example_host;
     sizeof_hash_table := sizeof_hash_table example_host;
     sizeof_hash_element := sizeof_hash_element example_host;
     sizeof_kval := sizeof_kval example_host;
     sizeof_value := sizeof_value example_host;
     segment_size_multiplier := segment_size_multiplier example_host;
     nspace_nprocs := nspace_nprocs example_host;
     base_store_modex := base_store_modex example_host |}.

(** A tracker as [pmix_gds_shmem_get_job_tracker] makes it. *)
Definition example_job : pmix_gds_shmem_job_t := job_construct "nsA" 4.

(* ================================================================== *)
(** ** Further entry points of the module *)

(** The keys [store_job_info] skips: the server has stored these arrays
    into the segment. *)
Definition info_array_key (k : string) : bool :=
  String.eqb k PMIX_SESSION_INFO_ARRAY || String.eqb k PMIX_NODE_INFO_ARRAY
  || String.eqb k PMIX_APP_INFO_ARRAY.

(** [server_mark_modex_complete]: for each namespace of [nslist] the blobs
    of its JOB and MODEX segments are packed into the reply. *)
Fixpoint server_mark_modex_complete (host : host_t)
    (jobs : list pmix_gds_shmem_job_t) (nslist : list string)
    (reply : pmix_buffer_t pmix_value_t)
  : pmix_status_t * pmix_buffer_t pmix_value_t :=
  match nslist with
  | [] => (PMIX_SUCCESS, reply)
  | nsi :: rest =>
      match pmix_gds_shmem_get_job_tracker host jobs nsi false with
      | (PMIX_SUCCESS, Some job, _) =>
          match pack_shmem_seg_blob host job PMIX_GDS_SHMEM_JOB_ID reply with
          | (PMIX_SUCCESS, reply1) =>
              match pack_shmem_seg_blob host job PMIX_GDS_SHMEM_MODEX_ID
                                        reply1 with
              | (PMIX_SUCCESS, reply2) =>
                  server_mark_modex_complete host jobs rest reply2
              | (rc, reply2) => (rc, reply2)
              end
          | (rc, reply1) => (rc, reply1)
          end
      | (rc, _, _) => (rc, reply)
      end
  end.

(** The roles of the trackers of [nslist] that are READY_FOR_USE, in the
    order their blobs are packed. *)
Fixpoint ready_roles (jobs : list pmix_gds_shmem_job_t)
    (nslist : list string) : list (pmix_gds_shmem_job_t * Z) :=
  match nslist with
  | [] => []
  | nsi :: rest =>
      match find_job nsi jobs with
      | Some job =>
          ((if pmix_gds_shmem_has_status job PMIX_GDS_SHMEM_JOB_ID
                 PMIX_GDS_SHMEM_READY_FOR_USE
            then [(job, PMIX_GDS_SHMEM_JOB_ID)] else [])
           ++ (if pmix_gds_shmem_has_status job PMIX_GDS_SHMEM_MODEX_ID
                    PMIX_GDS_SHMEM_READY_FOR_USE
               then [(job, PMIX_GDS_SHMEM_MODEX_ID)] else [])
           ++ ready_roles jobs rest)%list
      | None => []
      end
  end.

(** [PMIX_GDS_MODULE] of pmix_common.h. *)
Definition PMIX_GDS_MODULE : string := "pmix.gds.mod".

Definition max_priority : Z := 100.

(** The loop of [assign_module] over the options of a module list: whether
    one of them is this module's name. *)
Fixpoint options_name_shmem (options : list string) : bool :=
  match options with
  | [] => false
  | o :: rest =>
      if String.eqb o PMIX_GDS_SHMEM_NAME then true
      else options_name_shmem rest
  end.

(** The loop of [assign_module] over [info]: whether a module list was
    given, and the priority so far.  Only the first [PMIX_GDS_MODULE] entry
    is looked at.  [default_priority] is [PMIX_GDS_SHMEM_DEFAULT_PRIORITY]
    of gds_shmem.h and [argv_split] is [PMIx_Argv_split] with the delimiter
    [','], of src/util/pmix_argv.c; an entry is read through
    [value.data.string]. *)
Fixpoint assign_module_loop (argv_split : string -> list string)
    (default_priority : Z) (info : list (string * string)) : bool * Z :=
  match info with
  | [] => (false, default_priority)
  | i :: rest =>
      if PMIX_CHECK_KEY i PMIX_GDS_MODULE then
        (true,
         if options_name_shmem (argv_split (snd i)) then max_priority
         else default_priority)
      else assign_module_loop argv_split default_priority rest
  end.

(** [assign_module]: the status and [*priority].  [disable] is the
    compile-time switch [PMIX_GDS_SHMEM_DISABLE == 1]. *)
Definition assign_module (argv_split : string -> list string)
    (default_priority : Z) (disable : bool) (info : list (string * string))
  : pmix_status_t * Z :=
  let '(specified, priority) :=
    assign_module_loop argv_split default_priority info in
  if disable then (PMIX_SUCCESS, 0)
  else if specified && negb (priority =? max_priority)
  then (PMIX_SUCCESS, 0)
  else (PMIX_SUCCESS, priority).

(** The first [PMIX_GDS_MODULE] entry of [info], if there is one. *)
Fixpoint first_gds_module (info : list (string * string)) : option string :=
  match info with
  | [] => None
  | i :: rest =>
      if String.eqb (fst i) PMIX_GDS_MODULE then Some (snd i)
      else first_gds_module rest
  end.

(** A host like [base] with other system calls: the hole finder, the
    creation of a backing file and the mapping. *)
Definition host_with_syscalls (base : host_t)
    (find_hole : Z -> pmix_status_t * Z)
    (create : string -> Z -> pmix_status_t)
    (attach : pmix_shmem_t -> Z -> pmix_status_t * Z) : host_t :=
  {| sysconf_page_size := sysconf_page_size base;
     vmem_find_hole := find_hole;
     segment_create := create;
     segment_attach := attach;
     hash_table_capacity := hash_table_capacity base;
     gds_fetch_kv := gds_fetch_kv base;
     getenv_TMPDIR := getenv_TMPDIR base;
     PMIX_PATH_MAX := PMIX_PATH_MAX base;
     PACKAGE_NAME := PACKAGE_NAME base;
     hostname := hostname base;
     getpid := getpid base;
     bfrops_pack_status := bfrops_pack_status base;
     packed_size_of := packed_size_of base;
     sizeof_shared_job_data := sizeof_shared_job_data base;
     sizeof_shared_modex_data := sizeof_shared_modex_data base;
     sizeof_tma := sizeof_tma base;
     sizeof_session := sizeof_session base;
     sizeof_list := sizeof_list base;
     sizeof_hash_table := sizeof_hash_table base;
     sizeof_hash_element := sizeof_hash_element base;
     sizeof_kval := sizeof_kval base;
     sizeof_value := sizeof_value base;
     segment_size_multiplier := segment_size_multiplier base;
     nspace_nprocs := nspace_nprocs base;
     base_store_modex := base_store_modex base |}.

(** A host without a hole of virtual memory to offer. *)
Definition no_hole_host : host_t :=
  host_with_syscalls example_host
    (fun _ => (PMIX_ERR_NOT_FOUND, 0))
    (segment_create example_host) (segment_attach example_host).

(** A host whose [mmap] fails. *)
Definition no_mmap_host : host_t :=
  host_with_syscalls example_host
    (vmem_find_hole example_host) (segment_create example_host)
    (fun _ _ => (PMIX_ERROR, 0)).

(** A server-side tracker whose JOB segment is published. *)
Definition published_job : pmix_gds_shmem_job_t :=
  mk_job "nsA" 4 7 (mk_shmem 8192 139637976727552 "/tmp/seg") 139637976727552
         0 new_shmem NULL.

(** The blob [pack_shmem_seg_blob] packs for a role of a tracker. *)
Definition seg_blob_of (host : host_t) (jr : pmix_gds_shmem_job_t * Z)
  : pmix_kval_t :=
  (SHMEM_SEG_BLOB_KEY,
   V_byte_object
     (snd (pack_shmem_connection_info host (fst jr) (snd jr) empty_buffer))).

(** The sum of the packed sizes of the entries of a list. *)
Fixpoint sum_packed_sizes (host : host_t) (kvs : list pmix_kval_t) : Z :=
  match kvs with
  | [] => 0
  | kvi :: rest => packed_size_of host kvi + sum_packed_sizes host rest
  end.

(* ================================================================== *)
(** * Properties *)

(** ** Arithmetic of the arena and of page padding *)

Lemma to_size_t_range (z : Z) : 0 <= to_size_t z < 2 ^ 64.
Proof. unfold to_size_t, SIZE_WIDTH. apply Z.mod_pos_bound. lia. Qed.

Lemma to_size_t_small (z : Z) : 0 <= z < 2 ^ 64 -> to_size_t z = z.
Proof. intros H. unfold to_size_t, SIZE_WIDTH. apply Z.mod_small. exact H. Qed.

Lemma mask8_value : to_uintptr_t (Z.lnot 7) = Z.shiftl (Z.ones 61) 3.
Proof. reflexivity. Qed.

Lemma testbit_below_2p64 (x n : Z) :
  0 <= x < 2 ^ 64 -> 64 <= n -> Z.testbit x n = false.
Proof.
  intros Hx Hn.
  rewrite <- (Z.mod_small x (2 ^ 64)) by exact Hx.
  apply Z.mod_pow2_bits_high. lia.
Qed.

(** Clearing the three low bits of a 64-bit value. *)
Lemma land_mask8 (x : Z) :
  0 <= x < 2 ^ 64 -> Z.land x (to_uintptr_t (Z.lnot 7)) = 8 * (x / 8).
Proof.
  intros Hx. rewrite mask8_value.
  replace (8 * (x / 8)) with (Z.shiftl (Z.shiftr x 3) 3)
    by (rewrite Z.shiftl_mul_pow2, Z.shiftr_div_pow2 by lia;
        change (2 ^ 3) with 8; lia).
  apply Z.bits_inj'. intros n Hn.
  rewrite Z.land_spec, !Z.shiftl_spec by exact Hn.
  destruct (Z_lt_le_dec n 3) as [Hlt | Hge].
  - rewrite (Z.testbit_neg_r (Z.ones 61) (n - 3)),
      (Z.testbit_neg_r (Z.shiftr x 3) (n - 3)) by lia.
    apply andb_false_r.
  - rewrite Z.shiftr_spec by lia.
    replace (n - 3 + 3) with n by lia.
    destruct (Z_lt_le_dec n 64) as [Hlt | Hge64].
    + rewrite Z.ones_spec_low by lia. apply andb_true_r.
    + rewrite (testbit_below_2p64 x n Hx Hge64). reflexivity.
Qed.

Lemma addr_align_mod8 (base sz : Z) : addr_align base sz mod 8 = 0.
Proof.
  unfold addr_align. rewrite land_mask8 by apply to_size_t_range.
  rewrite Z.mul_comm. apply Z.mod_mul. lia.
Qed.

Lemma addr_align_align8 (base sz : Z) :
  addr_align base sz = align8 (to_uintptr_t (base + sz)).
Proof.
  unfold addr_align, align8, to_uintptr_t, SIZE_WIDTH.
  rewrite Z.add_mod_idemp_l by lia. reflexivity.
Qed.

Lemma tma_malloc_seq_aligned (sizes : list Z) :
  forall tma, data_ptr tma mod 8 = 0 ->
  Forall (fun a => a mod 8 = 0) (fst (tma_malloc_seq tma sizes)).
Proof.
  induction sizes as [| n rest IH]; intros tma H; simpl.
  - constructor.
  - specialize (IH (mk_tma (addr_align (data_ptr tma) n))
                   (addr_align_mod8 _ _)).
    destruct (tma_malloc_seq (mk_tma (addr_align (data_ptr tma) n)) rest)
      as [al tma2] eqn:E.
    simpl in *. constructor; assumption.
Qed.

(** C4: [tma_malloc] hands out the cursor and moves it to
    [align8(cursor + n)]; hence the second of two successive allocations is
    at [align8(a1 + n1)], and every address handed out by a run of
    allocations is a multiple of 8 whenever the initial cursor is. *)
Theorem tma_malloc_bump (tma : pmix_tma_t) (n1 n2 : Z) (sizes : list Z) :
  let a1 := fst (tma_malloc tma n1) in
  let tma1 := snd (tma_malloc tma n1) in
  let a2 := fst (tma_malloc tma1 n2) in
  a1 = data_ptr tma
  /\ data_ptr tma1 = align8 (to_uintptr_t (data_ptr tma + n1))
  /\ a2 = align8 (to_uintptr_t (a1 + n1))
  /\ (data_ptr tma mod 8 = 0 ->
      Forall (fun a => a mod 8 = 0) (fst (tma_malloc_seq tma sizes))).
Proof.
  simpl. repeat split.
  - apply addr_align_align8.
  - apply addr_align_align8.
  - apply tma_malloc_seq_aligned.
Qed.

Lemma tma_malloc_bump_witness :
  data_ptr (mk_tma 4096) mod 8 = 0
  /\ fst (tma_malloc_seq (mk_tma 4096) [13; 1; 24]) = [4096; 4112; 4120]
  /\ Forall (fun a => a mod 8 = 0)
            (fst (tma_malloc_seq (mk_tma 4096) [13; 1; 24])).
Proof.
  split; [reflexivity |].
  split; [reflexivity |].
  apply (tma_malloc_bump (mk_tma 4096) 13 1 [13; 1; 24]). reflexivity.
Defined.

(** C9, as stated, fails when the module is built with [NDEBUG]: the
    assertion is compiled out and the call returns. *)
Lemma tma_realloc_returns_under_ndebug :
  tma_realloc true (mk_tma 4096) 4096 64 <> Aborted.
Proof. discriminate. Qed.

(** C9 (amended): with assertions enabled [tma_realloc] aborts for every
    input; with assertions compiled out it returns NULL; in neither case does
    it return a reallocated pointer. *)
Theorem tma_realloc_unsupported
    (ndebug : bool) (tma : pmix_tma_t) (ptr sz : Z) :
  tma_realloc false tma ptr sz = Aborted
  /\ tma_realloc true tma ptr sz = Returned NULL
  /\ match tma_realloc ndebug tma ptr sz with
     | Returned p => p = NULL
     | Aborted => True
     end.
Proof.
  repeat split. destruct ndebug; simpl; [reflexivity | exact I].
Qed.

(** The safety margin on sample sizes: the product with 2.5, without its
    fraction. *)
Example times_fluff_samples :
  times_fluff 3 = 7 /\ times_fluff 33240 = 83100 /\ times_fluff 0 = 0.
Proof. repeat split. Qed.

(* ================================================================== *)
(** ** Floating-point products, arithmetically *)

(** The functions of [SpecFloat] the model uses (the conversion of an
    integer, the product, rounding to nearest even) against integer
    arithmetic. *)






































(** The padding is what is missing to the next multiple of a power-of-two
    page size. *)
Lemma pad_amount_to_page_mod (k s : Z) :
  0 <= k < 64 -> 0 <= s < 2 ^ 64 ->
  pad_amount_to_page (2 ^ k) s = (- s) mod 2 ^ k.
Proof.
  intros Hk Hs.
  assert (Hp : 0 < 2 ^ k) by (apply Z.pow_pos_nonneg; lia).
  assert (Hp64 : 2 ^ k < 2 ^ 64) by (apply Z.pow_lt_mono_r; lia).
  unfold pad_amount_to_page, get_page_size.
  destruct (2 ^ k =? -1) eqn:E; [apply Z.eqb_eq in E; lia |].
  rewrite (to_size_t_small (2 ^ k)) by lia.
  rewrite (to_size_t_small (2 ^ k - 1)) by lia.
  replace (2 ^ k - 1) with (Z.ones k) by (rewrite Z.ones_equiv; lia).
  rewrite Z.land_ones by lia.
  unfold to_size_t, SIZE_WIDTH.
  replace (Z.lnot s mod 2 ^ 64 + 2 ^ k + 1)
    with (Z.lnot s mod 2 ^ 64 + (2 ^ k + 1)) by lia.
  rewrite Z.add_mod_idemp_l by lia.
  rewrite Z.mod_mod_divide.
  - unfold Z.lnot. replace (Z.pred (- s) + (2 ^ k + 1)) with (- s + 1 * 2 ^ k)
      by lia.
    apply Z.mod_add. lia.
  - exists (2 ^ (64 - k)). rewrite <- Z.pow_add_r by lia. f_equal. lia.
Qed.

Lemma round_up_to_multiple_pad (s P : Z) :
  0 < P -> s + (- s) mod P = round_up_to_multiple s P.
Proof.
  intros HP. unfold round_up_to_multiple.
  pose proof (Z.div_mod (- s) P ltac:(lia)) as D1.
  pose proof (Z.mod_pos_bound (- s) P HP) as B1.
  pose proof (Z.div_mod (s + P - 1) P ltac:(lia)) as D2.
  pose proof (Z.mod_pos_bound (s + P - 1) P HP) as B2.
  assert (E : (s + P - 1) / P = - ((- s) / P)) by nia.
  rewrite E. nia.
Qed.

Lemma real_segsize_round_up (k s : Z) :
  0 <= k < 64 -> 0 <= s < 2 ^ 64 ->
  round_up_to_multiple s (2 ^ k) < 2 ^ 64 ->
  real_segsize (2 ^ k) s = s + pad_amount_to_page (2 ^ k) s
  /\ real_segsize (2 ^ k) s = round_up_to_multiple s (2 ^ k).
Proof.
  intros Hk Hs Hfit.
  assert (Hp : 0 < 2 ^ k) by (apply Z.pow_pos_nonneg; lia).
  unfold real_segsize. rewrite pad_amount_to_page_mod by assumption.
  pose proof (round_up_to_multiple_pad s (2 ^ k) Hp) as R.
  pose proof (Z.mod_pos_bound (- s) (2 ^ k) Hp) as B.
  rewrite to_size_t_small by lia. split; [reflexivity | exact R].
Qed.

Lemma round_up_to_multiple_exact (P : Z) :
  0 < P -> round_up_to_multiple P P = P.
Proof.
  intros HP. unfold round_up_to_multiple.
  replace (P + P - 1) with ((P - 1) + 1 * P) by lia.
  rewrite Z.div_add by lia. rewrite Z.div_small by lia. lia.
Qed.

Lemma round_up_to_multiple_one_past (P : Z) :
  0 < P -> round_up_to_multiple (P + 1) P = 2 * P.
Proof.
  intros HP. unfold round_up_to_multiple.
  replace (P + 1 + P - 1) with (0 + 2 * P) by lia.
  rewrite Z.div_add by lia. rewrite Z.div_small by lia. lia.
Qed.

(* ================================================================== *)
(** ** Roles, flags and segments of a tracker *)

Ltac break_match :=
  match goal with
  | |- context [match ?x with _ => _ end] => destruct x eqn:?
  | H : context [match ?x with _ => _ end] |- _ => destruct x eqn:?
  end.

Ltac inv_pair :=
  repeat match goal with
  | H : (_, _) = (_, _) |- _ => injection H as ?; subst
  end.

Lemma get_job_shmem_by_id_role job id rc s :
  pmix_gds_shmem_get_job_shmem_by_id job id = (rc, Some s) ->
  rc = PMIX_SUCCESS /\ is_role id = true.
Proof.
  unfold pmix_gds_shmem_get_job_shmem_by_id, is_role.
  destruct (id =? PMIX_GDS_SHMEM_JOB_ID);
    [| destruct (id =? PMIX_GDS_SHMEM_MODEX_ID)];
    intros H; inversion H; auto.
Qed.

Lemma get_job_shmem_by_id_success job id o :
  pmix_gds_shmem_get_job_shmem_by_id job id = (PMIX_SUCCESS, o) ->
  exists s, o = Some s /\ is_role id = true.
Proof.
  unfold pmix_gds_shmem_get_job_shmem_by_id, is_role.
  destruct (id =? PMIX_GDS_SHMEM_JOB_ID);
    [| destruct (id =? PMIX_GDS_SHMEM_MODEX_ID)];
    intros H; inversion H; eauto.
Qed.

Lemma get_put_job_shmem job id s :
  is_role id = true ->
  pmix_gds_shmem_get_job_shmem_by_id (put_job_shmem job id s) id
  = (PMIX_SUCCESS, Some s).
Proof.
  unfold pmix_gds_shmem_get_job_shmem_by_id, put_job_shmem, is_role.
  destruct (id =? PMIX_GDS_SHMEM_JOB_ID) eqn:E1;
    [| destruct (id =? PMIX_GDS_SHMEM_MODEX_ID) eqn:E2];
    simpl; intros H; try discriminate; reflexivity.
Qed.

Lemma job_status_put_job_shmem job id s id' :
  job_status (put_job_shmem job id s) id' = job_status job id'.
Proof.
  unfold job_status, put_job_shmem.
  repeat break_match; reflexivity.
Qed.

Lemma get_job_shmem_set_status job id flag id' :
  pmix_gds_shmem_get_job_shmem_by_id
    (pmix_gds_shmem_set_status job id flag) id'
  = pmix_gds_shmem_get_job_shmem_by_id job id'.
Proof.
  unfold pmix_gds_shmem_get_job_shmem_by_id, pmix_gds_shmem_set_status.
  repeat break_match; reflexivity.
Qed.

Lemma job_status_set_status_same job id flag :
  is_role id = true ->
  job_status (pmix_gds_shmem_set_status job id flag) id
  = Z.lor (job_status job id) flag.
Proof.
  unfold job_status, pmix_gds_shmem_set_status, is_role.
  destruct (id =? PMIX_GDS_SHMEM_JOB_ID) eqn:E1;
    [| destruct (id =? PMIX_GDS_SHMEM_MODEX_ID) eqn:E2];
    simpl; intros H; try discriminate; reflexivity.
Qed.

Lemma job_status_set_status_other job id flag id' :
  id' <> id ->
  job_status (pmix_gds_shmem_set_status job id flag) id' = job_status job id'.
Proof.
  intros Hne. unfold job_status, pmix_gds_shmem_set_status.
  destruct (id =? PMIX_GDS_SHMEM_JOB_ID) eqn:E1;
    [| destruct (id =? PMIX_GDS_SHMEM_MODEX_ID) eqn:E2]; simpl;
    try reflexivity.
  - apply Z.eqb_eq in E1. subst id.
    destruct (id' =? PMIX_GDS_SHMEM_JOB_ID) eqn:E3; [| reflexivity].
    apply Z.eqb_eq in E3. contradiction.
  - apply Z.eqb_eq in E2. subst id.
    destruct (id' =? PMIX_GDS_SHMEM_JOB_ID) eqn:E3; [reflexivity |].
    destruct (id' =? PMIX_GDS_SHMEM_MODEX_ID) eqn:E4; [| reflexivity].
    apply Z.eqb_eq in E4. contradiction.
Qed.

Lemma job_status_not_role job id : is_role id = false -> job_status job id = 0.
Proof.
  unfold job_status, is_role.
  destruct (id =? PMIX_GDS_SHMEM_JOB_ID);
    [| destruct (id =? PMIX_GDS_SHMEM_MODEX_ID)];
    simpl; intros H; try discriminate; reflexivity.
Qed.

Lemma job_status_set_smdata job p id :
  job_status (set_smdata job p) id = job_status job id.
Proof. reflexivity. Qed.

Lemma job_status_set_smmodex job p id :
  job_status (set_smmodex job p) id = job_status job id.
Proof. reflexivity. Qed.

(** Setting a flag other than RELEASE leaves the RELEASE bit as it was. *)
Lemma release_bit_after_set_status job id flag id' :
  Z.land flag PMIX_GDS_SHMEM_RELEASE = 0 ->
  Z.land (job_status (pmix_gds_shmem_set_status job id flag) id')
         PMIX_GDS_SHMEM_RELEASE
  = Z.land (job_status job id') PMIX_GDS_SHMEM_RELEASE.
Proof.
  intros Hflag.
  destruct (Z.eq_dec id' id) as [-> | Hne].
  - destruct (is_role id) eqn:R.
    + rewrite job_status_set_status_same by exact R.
      rewrite Z.land_lor_distr_l, Hflag. apply Z.lor_0_r.
    + rewrite !job_status_not_role by exact R. reflexivity.
  - rewrite job_status_set_status_other by exact Hne. reflexivity.
Qed.

Lemma has_status_set_status job id flag :
  is_role id = true -> 0 < flag ->
  pmix_gds_shmem_has_status (pmix_gds_shmem_set_status job id flag) id flag
  = true.
Proof.
  intros R Hf. unfold pmix_gds_shmem_has_status.
  rewrite job_status_set_status_same by exact R.
  rewrite Z.land_lor_distr_l, Z.land_diag.
  destruct (Z.lor (Z.land (job_status job id) flag) flag =? 0) eqn:E;
    [| reflexivity].
  apply Z.eqb_eq in E. apply Z.lor_eq_0_iff in E. lia.
Qed.

(* ------------------------------------------------------------------ *)
(** *** [shmem_attach] *)

(** The three ways [shmem_attach] can go for a role with segment [s]. *)
Lemma shmem_attach_role host job id req s :
  pmix_gds_shmem_get_job_shmem_by_id job id = (PMIX_SUCCESS, Some s) ->
  match segment_attach host s req with
  | (PMIX_SUCCESS, m) =>
      let s' := mk_shmem (size s) (to_uintptr_t m) (backing_path s) in
      if to_uintptr_t m =? req then
        shmem_attach host job id req
        = (PMIX_SUCCESS,
           pmix_gds_shmem_set_status (put_job_shmem job id s') id
                                     PMIX_GDS_SHMEM_ATTACHED,
           [Ev_segment_attach (backing_path s) req])
      else
        shmem_attach host job id req
        = (PMIX_ERROR, put_job_shmem job id s',
           [Ev_segment_attach (backing_path s) req;
            Ev_show_help "shmem-segment-attach:address-mismatch";
            Ev_segment_detach (backing_path s)])
  | (rc, _) => shmem_attach host job id req = (rc, job, [])
  end.
Proof.
  intros Hget. unfold shmem_attach, pmix_shmem_segment_attach.
  rewrite Hget.
  destruct (segment_attach host s req) as [rc m].
  destruct rc; try reflexivity.
  simpl. destruct (to_uintptr_t m =? req); reflexivity.
Qed.

Lemma shmem_attach_not_role host job id req :
  is_role id = false ->
  shmem_attach host job id req = (PMIX_ERROR, job, []).
Proof.
  unfold shmem_attach, pmix_gds_shmem_get_job_shmem_by_id, is_role.
  destruct (id =? PMIX_GDS_SHMEM_JOB_ID);
    [| destruct (id =? PMIX_GDS_SHMEM_MODEX_ID)];
    simpl; intros H; try discriminate; reflexivity.
Qed.

Lemma get_job_shmem_by_id_total job id :
  (exists s, pmix_gds_shmem_get_job_shmem_by_id job id
             = (PMIX_SUCCESS, Some s) /\ is_role id = true)
  \/ (pmix_gds_shmem_get_job_shmem_by_id job id = (PMIX_ERROR, None)
      /\ is_role id = false).
Proof.
  unfold pmix_gds_shmem_get_job_shmem_by_id, is_role.
  destruct (id =? PMIX_GDS_SHMEM_JOB_ID);
    [| destruct (id =? PMIX_GDS_SHMEM_MODEX_ID)]; simpl; eauto.
Qed.

(** [shmem_attach] never touches a RELEASE bit and never creates a file. *)
Lemma shmem_attach_release host job id req id' :
  Z.land (job_status (snd (fst (shmem_attach host job id req))) id')
         PMIX_GDS_SHMEM_RELEASE
  = Z.land (job_status job id') PMIX_GDS_SHMEM_RELEASE.
Proof.
  destruct (get_job_shmem_by_id_total job id) as [(s & Hs & R) | (Hs & R)].
  - pose proof (shmem_attach_role host job id req s Hs) as H.
    destruct (segment_attach host s req) as [rc m].
    destruct rc; try (rewrite H; reflexivity).
    simpl in H. destruct (to_uintptr_t m =? req); rewrite H; simpl.
    + rewrite release_bit_after_set_status by reflexivity.
      rewrite job_status_put_job_shmem. reflexivity.
    + rewrite job_status_put_job_shmem. reflexivity.
  - rewrite shmem_attach_not_role by exact R. reflexivity.
Qed.

Lemma shmem_attach_no_create host job id req path sz :
  ~ In (Ev_segment_create path sz) (snd (shmem_attach host job id req)).
Proof.
  destruct (get_job_shmem_by_id_total job id) as [(s & Hs & R) | (Hs & R)].
  - pose proof (shmem_attach_role host job id req s Hs) as H.
    destruct (segment_attach host s req) as [rc m].
    destruct rc; try (rewrite H; simpl; tauto).
    simpl in H. destruct (to_uintptr_t m =? req); rewrite H; simpl;
      intuition discriminate.
  - rewrite shmem_attach_not_role by exact R. simpl. tauto.
Qed.

(** C8: when the kernel maps the file elsewhere than asked, [shmem_attach]
    fails, reports the address mismatch, detaches the segment at once and
    leaves the flags as they were; when the mapping lands at the requested
    address, it sets ATTACHED and returns success. *)
Theorem shmem_attach_address_check
    (host : host_t) (job : pmix_gds_shmem_job_t) (shmem_id req_addr : Z)
    (s : pmix_shmem_t) (mmap_addr : Z) :
  pmix_gds_shmem_get_job_shmem_by_id job shmem_id = (PMIX_SUCCESS, Some s) ->
  segment_attach host s req_addr = (PMIX_SUCCESS, mmap_addr) ->
  let rc := fst (fst (shmem_attach host job shmem_id req_addr)) in
  let job' := snd (fst (shmem_attach host job shmem_id req_addr)) in
  let evs := snd (shmem_attach host job shmem_id req_addr) in
  (to_uintptr_t mmap_addr <> req_addr ->
     rc = PMIX_ERROR
     /\ evs = [Ev_segment_attach (backing_path s) req_addr;
               Ev_show_help "shmem-segment-attach:address-mismatch";
               Ev_segment_detach (backing_path s)]
     /\ job_status job' shmem_id = job_status job shmem_id)
  /\ (to_uintptr_t mmap_addr = req_addr ->
     rc = PMIX_SUCCESS
     /\ pmix_gds_shmem_has_status job' shmem_id PMIX_GDS_SHMEM_ATTACHED = true
     /\ evs = [Ev_segment_attach (backing_path s) req_addr]).
Proof.
  intros Hget Hatt.
  pose proof (shmem_attach_role host job shmem_id req_addr s Hget) as H.
  rewrite Hatt in H. simpl in H.
  destruct (get_job_shmem_by_id_role _ _ _ _ Hget) as [_ R].
  split; intros Haddr.
  - destruct (to_uintptr_t mmap_addr =? req_addr) eqn:E;
      [apply Z.eqb_eq in E; contradiction |].
    rewrite H. simpl. repeat split.
    apply job_status_put_job_shmem.
  - rewrite <- Z.eqb_eq in Haddr. rewrite Haddr in H. rewrite H. simpl.
    repeat split. apply has_status_set_status; [exact R | reflexivity].
Qed.

Lemma shmem_attach_address_check_witness :
  fst (fst (shmem_attach mismatch_host
              (set_shmem example_job (mk_shmem 8192 0 "/tmp/seg"))
              PMIX_GDS_SHMEM_JOB_ID 1048576)) = PMIX_ERROR
  /\ fst (fst (shmem_attach example_host
              (set_shmem example_job (mk_shmem 8192 0 "/tmp/seg"))
              PMIX_GDS_SHMEM_JOB_ID 1048576)) = PMIX_SUCCESS.
Proof.
  split.
  - apply (shmem_attach_address_check mismatch_host
             (set_shmem example_job (mk_shmem 8192 0 "/tmp/seg"))
             PMIX_GDS_SHMEM_JOB_ID 1048576
             (mk_shmem 8192 0 "/tmp/seg") (1048576 + 4096));
      [reflexivity | reflexivity | vm_compute; discriminate].
  - apply (shmem_attach_address_check example_host
             (set_shmem example_job (mk_shmem 8192 0 "/tmp/seg"))
             PMIX_GDS_SHMEM_JOB_ID 1048576
             (mk_shmem 8192 0 "/tmp/seg") 1048576);
      [reflexivity | reflexivity | reflexivity].
Defined.

(* ------------------------------------------------------------------ *)
(** *** [shmem_segment_create_and_attach] *)


(** Either nothing was created and the tracker is untouched, or the backing
    file was created with the padded size and the outcome is that of
    [shmem_attach], with RELEASE set on success only. *)
Lemma create_and_attach_cases host job id name sz :
  let R := shmem_segment_create_and_attach host job id name sz in
  let real := real_segsize (sysconf_page_size host) sz in
  (fst (fst R) <> PMIX_SUCCESS /\ snd R = [] /\ snd (fst R) = job)
  \/ (exists path s base,
        pmix_gds_shmem_get_job_shmem_by_id job id = (PMIX_SUCCESS, Some s)
        /\ segment_create host path real = PMIX_SUCCESS
        /\ let job1 :=
             put_job_shmem job id (mk_shmem real (base_address s) path) in
           let A := shmem_attach host job1 id (to_uintptr_t base) in
           snd R = Ev_segment_create path real :: snd A
           /\ ((fst (fst A) = PMIX_SUCCESS
                /\ fst (fst R) = PMIX_SUCCESS
                /\ snd (fst R)
                   = pmix_gds_shmem_set_status (snd (fst A)) id
                                               PMIX_GDS_SHMEM_RELEASE)
               \/ (fst (fst A) <> PMIX_SUCCESS
                   /\ fst (fst R) = fst (fst A)
                   /\ snd (fst R) = snd (fst A)))).
Proof.
  unfold shmem_segment_create_and_attach.
  destruct (vmem_find_hole host (real_segsize (sysconf_page_size host) sz))
    as [rc0 base].
  destruct rc0; try (left; simpl; repeat split; discriminate).
  destruct (get_shmem_backing_path host job name) as [path |];
    [| left; simpl; repeat split; discriminate].
  destruct (get_job_shmem_by_id_total job id) as [(s & Hs & R) | (Hs & R)];
    rewrite Hs; [| left; simpl; repeat split; discriminate].
  unfold pmix_shmem_segment_create.
  destruct (segment_create host path
              (real_segsize (sysconf_page_size host) sz)) eqn:Hc;
    try (left; simpl; repeat split; discriminate).
  right. exists path, s, base. split; [reflexivity |]. split; [exact Hc |].
  cbv zeta.
  destruct (shmem_attach host
              (put_job_shmem job id
                 (mk_shmem (real_segsize (sysconf_page_size host) sz)
                    (base_address s) path)) id (to_uintptr_t base))
    as [[rcA jobA] evA].
  simpl. split; [destruct rcA; reflexivity |].
  destruct rcA; simpl;
    try (right; repeat split; discriminate);
    left; repeat split.
Qed.

Lemma shmem_attach_success_segment host job id req s :
  pmix_gds_shmem_get_job_shmem_by_id job id = (PMIX_SUCCESS, Some s) ->
  fst (fst (shmem_attach host job id req)) = PMIX_SUCCESS ->
  exists seg,
    pmix_gds_shmem_get_job_shmem_by_id
      (snd (fst (shmem_attach host job id req))) id
    = (PMIX_SUCCESS, Some seg)
    /\ size seg = size s /\ backing_path seg = backing_path s
    /\ base_address seg = req
    /\ pmix_gds_shmem_has_status (snd (fst (shmem_attach host job id req)))
         id PMIX_GDS_SHMEM_ATTACHED = true.
Proof.
  intros Hget Hrc.
  pose proof (shmem_attach_role host job id req s Hget) as H.
  destruct (get_job_shmem_by_id_role _ _ _ _ Hget) as [_ R].
  destruct (segment_attach host s req) as [rc m].
  destruct rc; try (rewrite H in Hrc; discriminate).
  simpl in H. destruct (to_uintptr_t m =? req) eqn:E;
    [| rewrite H in Hrc; discriminate].
  apply Z.eqb_eq in E. rewrite H. simpl.
  exists (mk_shmem (size s) (to_uintptr_t m) (backing_path s)).
  rewrite get_job_shmem_set_status, get_put_job_shmem by exact R.
  repeat split; try assumption.
  apply has_status_set_status; [exact R | reflexivity].
Qed.

(** Every file [shmem_segment_create_and_attach] creates has the padded
    size. *)
Lemma create_and_attach_created_size host job id name sz path csz :
  In (Ev_segment_create path csz)
     (snd (shmem_segment_create_and_attach host job id name sz)) ->
  csz = real_segsize (sysconf_page_size host) sz.
Proof.
  intros Hin.
  destruct (create_and_attach_cases host job id name sz)
    as [(_ & Hev & _) | (p & s & base & Hs & Hc & Hev & _)].
  - rewrite Hev in Hin. destruct Hin.
  - rewrite Hev in Hin. destruct Hin as [E | Hin].
    + injection E as _ E. symmetry. exact E.
    + exfalso. revert Hin. apply shmem_attach_no_create.
Qed.

(** On success the segment of the role has the padded size, and the role is
    ATTACHED and flagged RELEASE. *)
Lemma create_and_attach_success host job id name sz :
  fst (fst (shmem_segment_create_and_attach host job id name sz))
  = PMIX_SUCCESS ->
  let job' := snd (fst (shmem_segment_create_and_attach host job id name sz))
  in
  exists seg,
    pmix_gds_shmem_get_job_shmem_by_id job' id = (PMIX_SUCCESS, Some seg)
    /\ size seg = real_segsize (sysconf_page_size host) sz
    /\ pmix_gds_shmem_has_status job' id PMIX_GDS_SHMEM_RELEASE = true
    /\ pmix_gds_shmem_has_status job' id PMIX_GDS_SHMEM_ATTACHED = true
    /\ is_role id = true.
Proof.
  intros Hrc. cbv zeta.
  destruct (create_and_attach_cases host job id name sz)
    as [(Hne & _) | (p & s & base & Hs & Hc & Hev & Hcase)];
    [contradiction |].
  destruct (get_job_shmem_by_id_role _ _ _ _ Hs) as [_ R].
  destruct Hcase as [(HA & _ & Hjob) | (HA & HR & _)];
    [| rewrite HR in Hrc; contradiction].
  rewrite Hjob.
  destruct (shmem_attach_success_segment host _ id (to_uintptr_t base) _
              (get_put_job_shmem job id _ R) HA)
    as (seg & Hseg & Hsz & _ & _ & Hatt).
  exists seg. rewrite get_job_shmem_set_status.
  split; [exact Hseg |]. split; [exact Hsz |].
  split; [apply has_status_set_status; [exact R | reflexivity] |].
  split; [| exact R].
  unfold pmix_gds_shmem_has_status in *.
  rewrite job_status_set_status_same by exact R.
  rewrite Z.land_lor_distr_l. change (Z.land PMIX_GDS_SHMEM_RELEASE
    PMIX_GDS_SHMEM_ATTACHED) with 0. rewrite Z.lor_0_r. exact Hatt.
Qed.

(** On failure no RELEASE bit changes, whether or not a file was created. *)
Lemma create_and_attach_failure host job id name sz id' :
  fst (fst (shmem_segment_create_and_attach host job id name sz))
  <> PMIX_SUCCESS ->
  Z.land (job_status
            (snd (fst (shmem_segment_create_and_attach host job id name sz)))
            id') PMIX_GDS_SHMEM_RELEASE
  = Z.land (job_status job id') PMIX_GDS_SHMEM_RELEASE.
Proof.
  intros Hrc.
  destruct (create_and_attach_cases host job id name sz)
    as [(_ & _ & Hjob) | (p & s & base & Hs & Hc & Hev & Hcase)].
  - rewrite Hjob. reflexivity.
  - destruct Hcase as [(_ & HR & _) | (_ & _ & Hjob)]; [contradiction |].
    rewrite Hjob, shmem_attach_release, job_status_put_job_shmem.
    reflexivity.
Qed.

(** C5, as stated, fails for a size in the last page of [size_t]: the sum
    wraps, and a segment of size 0 is created. *)
Lemma real_segsize_wraps :
  snd (shmem_segment_create_and_attach example_host example_job
         PMIX_GDS_SHMEM_JOB_ID "jobdata" (2 ^ 64 - 1))
  = [Ev_segment_create "/tmp/pmix-gds-shmem.node0-nsA.jobdata.4242" 0;
     Ev_segment_attach "/tmp/pmix-gds-shmem.node0-nsA.jobdata.4242"
                       139637976727552]
  /\ real_segsize (2 ^ 12) (2 ^ 64 - 1) = 0
  /\ round_up_to_multiple (2 ^ 64 - 1) (2 ^ 12) = 2 ^ 64
  /\ real_segsize (2 ^ 12) (2 ^ 64 - 1)
     <> round_up_to_multiple (2 ^ 64 - 1) (2 ^ 12).
Proof. repeat split. vm_compute. discriminate. Qed.

(** C5 (amended): for a page size [P = 2^k] and a requested size [s] whose
    rounding up to a multiple of [P] still fits [size_t], the real size of
    the segment created is [s + pad_amount_to_page(s)], which is [s] rounded
    up to the next multiple of [P]; a request of [P] gives one page and a
    request of [P + 1] gives two. *)
Theorem segment_real_size_rounds_up
    (host : host_t) (job : pmix_gds_shmem_job_t) (shmem_id : Z)
    (segment_name : string) (k s : Z) :
  0 <= k < 64 ->
  sysconf_page_size host = 2 ^ k ->
  0 <= s < 2 ^ 64 ->
  round_up_to_multiple s (2 ^ k) < 2 ^ 64 ->
  let R := shmem_segment_create_and_attach host job shmem_id segment_name s in
  real_segsize (2 ^ k) s = s + pad_amount_to_page (2 ^ k) s
  /\ real_segsize (2 ^ k) s = round_up_to_multiple s (2 ^ k)
  /\ (forall path sz, In (Ev_segment_create path sz) (snd R) ->
        sz = round_up_to_multiple s (2 ^ k))
  /\ (fst (fst R) = PMIX_SUCCESS ->
        exists seg,
          pmix_gds_shmem_get_job_shmem_by_id (snd (fst R)) shmem_id
          = (PMIX_SUCCESS, Some seg)
          /\ size seg = round_up_to_multiple s (2 ^ k))
  /\ real_segsize (2 ^ k) (2 ^ k) = 2 ^ k
  /\ (k < 63 -> real_segsize (2 ^ k) (2 ^ k + 1) = 2 * 2 ^ k).
Proof.
  intros Hk Hpage Hs Hfit. cbv zeta.
  assert (Hp : 0 < 2 ^ k) by (apply Z.pow_pos_nonneg; lia).
  assert (Hp64 : 2 ^ k < 2 ^ 64) by (apply Z.pow_lt_mono_r; lia).
  destruct (real_segsize_round_up k s Hk Hs Hfit) as [E1 E2].
  split; [exact E1 |]. split; [exact E2 |].
  split; [| split; [| split]].
  - intros path sz Hin.
    apply create_and_attach_created_size in Hin.
    rewrite Hin, Hpage. exact E2.
  - intros Hrc.
    destruct (create_and_attach_success host job shmem_id segment_name s Hrc)
      as (seg & Hseg & Hsz & _).
    exists seg. split; [exact Hseg |]. rewrite Hsz, Hpage. exact E2.
  - destruct (real_segsize_round_up k (2 ^ k) Hk) as [_ E]; try lia.
    + rewrite round_up_to_multiple_exact by exact Hp. lia.
    + rewrite E. apply round_up_to_multiple_exact. exact Hp.
  - intros Hk63.
    assert (H2 : 2 * 2 ^ k < 2 ^ 64).
    { replace (2 * 2 ^ k) with (2 ^ (k + 1))
        by (rewrite Z.pow_add_r by lia; lia).
      apply Z.pow_lt_mono_r; lia. }
    destruct (real_segsize_round_up k (2 ^ k + 1) Hk) as [_ E]; try lia.
    + rewrite round_up_to_multiple_one_past by exact Hp. exact H2.
    + rewrite E. apply round_up_to_multiple_one_past. exact Hp.
Qed.

Lemma segment_real_size_rounds_up_witness :
  real_segsize (2 ^ 12) 4097 = 8192
  /\ real_segsize (2 ^ 12) 4097 = round_up_to_multiple 4097 (2 ^ 12).
Proof.
  split; [reflexivity |].
  apply (segment_real_size_rounds_up example_host example_job
           PMIX_GDS_SHMEM_JOB_ID "jobdata" 12 4097);
    first [lia | reflexivity | (split; [lia | reflexivity])].
Defined.

(* ------------------------------------------------------------------ *)
(** *** The client side: attach and initialize *)

Lemma has_status_release_eq job job' id :
  Z.land (job_status job' id) PMIX_GDS_SHMEM_RELEASE
  = Z.land (job_status job id) PMIX_GDS_SHMEM_RELEASE ->
  pmix_gds_shmem_has_status job' id PMIX_GDS_SHMEM_RELEASE
  = pmix_gds_shmem_has_status job id PMIX_GDS_SHMEM_RELEASE.
Proof. unfold pmix_gds_shmem_has_status. intros ->. reflexivity. Qed.

Lemma init_client_side_sm_data_release job id id' :
  Z.land (job_status (snd (init_client_side_sm_data job id)) id')
         PMIX_GDS_SHMEM_RELEASE
  = Z.land (job_status job id') PMIX_GDS_SHMEM_RELEASE.
Proof.
  unfold init_client_side_sm_data.
  destruct (id =? PMIX_GDS_SHMEM_JOB_ID);
    [| destruct (id =? PMIX_GDS_SHMEM_MODEX_ID)]; simpl;
    try rewrite release_bit_after_set_status by reflexivity; reflexivity.
Qed.

Lemma init_client_side_sm_data_role job id :
  is_role id = true ->
  fst (init_client_side_sm_data job id) = PMIX_SUCCESS
  /\ job_status (snd (init_client_side_sm_data job id)) id
     = Z.lor (job_status job id) PMIX_GDS_SHMEM_READY_FOR_USE.
Proof.
  intros R. unfold init_client_side_sm_data.
  unfold is_role in R.
  destruct (id =? PMIX_GDS_SHMEM_JOB_ID) eqn:E1;
    [| destruct (id =? PMIX_GDS_SHMEM_MODEX_ID) eqn:E2];
    try discriminate; simpl; (split; [reflexivity |]);
    rewrite job_status_set_status_same
      by (unfold is_role; rewrite ?E1, ?E2; reflexivity);
    reflexivity.
Qed.

Lemma attach_and_init_release host job usb id' :
  Z.land (job_status
            (snd (fst (shmem_segment_attach_and_init host job usb))) id')
         PMIX_GDS_SHMEM_RELEASE
  = Z.land (job_status job id') PMIX_GDS_SHMEM_RELEASE.
Proof.
  unfold shmem_segment_attach_and_init.
  destruct (get_job_shmem_by_id_total job (smid usb))
    as [(s & Hs & R) | (Hs & R)]; rewrite Hs; [| reflexivity].
  match goal with
  | |- context [shmem_attach host ?j ?i ?r] =>
      pose proof (shmem_attach_release host j i r id') as HA;
      destruct (shmem_attach host j i r) as [[rcA jobA] evA]
  end.
  simpl in HA. rewrite job_status_put_job_shmem in HA.
  destruct rcA; simpl; try exact HA.
  pose proof (init_client_side_sm_data_release jobA (smid usb) id') as HI.
  destruct (init_client_side_sm_data jobA (smid usb)) as [rcI jobI].
  simpl in *. congruence.
Qed.

Lemma attach_and_init_success host job usb :
  fst (fst (shmem_segment_attach_and_init host job usb)) = PMIX_SUCCESS ->
  job_status (snd (fst (shmem_segment_attach_and_init host job usb)))
             (smid usb)
  = Z.lor (Z.lor (job_status job (smid usb)) PMIX_GDS_SHMEM_ATTACHED)
          PMIX_GDS_SHMEM_READY_FOR_USE.
Proof.
  unfold shmem_segment_attach_and_init.
  destruct (get_job_shmem_by_id_total job (smid usb))
    as [(s & Hs & R) | (Hs & R)]; rewrite Hs; [| discriminate].
  match goal with
  | |- context [shmem_attach host ?j ?i ?r] =>
      pose proof (shmem_attach_role host j i r _
                    (get_put_job_shmem job i _ R)) as HA;
      set (A := shmem_attach host j i r) in *
  end.
  destruct (segment_attach host _ _) as [rc m].
  destruct rc; try (rewrite HA; simpl; discriminate).
  simpl in HA.
  destruct (to_uintptr_t m =? to_uintptr_t (seg_addr usb));
    rewrite HA; simpl; [| discriminate].
  match goal with
  | |- context [init_client_side_sm_data ?j ?i] =>
      destruct (init_client_side_sm_data_role j i R) as [HI1 HI2];
      destruct (init_client_side_sm_data j i) as [rcI jobI]
  end.
  simpl in *. intros _. rewrite HI2.
  rewrite job_status_set_status_same by exact R.
  rewrite !job_status_put_job_shmem. reflexivity.
Qed.

Lemma find_job_In nspace jobs job :
  find_job nspace jobs = Some job -> In job jobs.
Proof.
  induction jobs as [| ti rest IH]; simpl; [discriminate |].
  destruct (String.eqb nspace (nspace_id ti)).
  - intros H. injection H as ->. left. reflexivity.
  - intros H. right. apply IH. exact H.
Qed.

Lemma put_job_Forall (P : pmix_gds_shmem_job_t -> Prop) job jobs :
  P job -> Forall P jobs -> Forall P (put_job job jobs).
Proof.
  intros Hj. induction 1 as [| ti rest Ht Hrest IH]; simpl.
  - constructor.
  - destruct (String.eqb (nspace_id job) (nspace_id ti));
      constructor; assumption.
Qed.

Lemma get_job_tracker_no_release host jobs nspace create rc o jobs1 :
  pmix_gds_shmem_get_job_tracker host jobs nspace create = (rc, o, jobs1) ->
  no_release jobs ->
  no_release jobs1
  /\ forall job, o = Some job ->
       forall id, Z.land (job_status job id) PMIX_GDS_SHMEM_RELEASE = 0.
Proof.
  unfold pmix_gds_shmem_get_job_tracker, no_release. intros H Hn.
  destruct (find_job nspace jobs) as [job |] eqn:F.
  - inv_pair. split; [exact Hn |]. intros j Hj. injection Hj as <-.
    apply find_job_In in F. rewrite Forall_forall in Hn. apply Hn. exact F.
  - destruct create; inv_pair.
    + split.
      * apply Forall_app. split; [exact Hn |]. constructor; [| constructor].
        intros id. unfold job_status. simpl. repeat break_match; reflexivity.
      * intros j Hj. injection Hj as <-. intros id.
        unfold job_status. simpl. repeat break_match; reflexivity.
    + split; [exact Hn |]. intros j Hj. discriminate.
Qed.

Lemma unpack_and_attach_no_release host jobs kvbo :
  no_release jobs ->
  no_release
    (snd (fst (unpack_shmem_seg_blob_and_attach_if_necessary host jobs kvbo))).
Proof.
  intros Hn. unfold unpack_shmem_seg_blob_and_attach_if_necessary.
  destruct (unpack_shmem_connection_info kvbo unpacked_seg_blob_construct)
    as [rc usb].
  destruct rc; try exact Hn.
  destruct (pmix_gds_shmem_get_job_tracker host jobs (c_str (nsid usb)) true)
    as [[rc o] jobs1] eqn:G.
  destruct (get_job_tracker_no_release _ _ _ _ _ _ _ G Hn) as [Hn1 Hj].
  destruct rc; try exact Hn1.
  destruct o as [job |]; [| exact Hn1].
  destruct (pmix_gds_shmem_has_status job (smid usb) PMIX_GDS_SHMEM_ATTACHED);
    [exact Hn1 |].
  pose proof (attach_and_init_release host job usb) as HR.
  destruct (shmem_segment_attach_and_init host job usb) as [[rcA jobA] evA].
  simpl in *. apply put_job_Forall; [| exact Hn1].
  intros id. rewrite HR. apply (Hj job eq_refl).
Qed.

Lemma store_job_info_loop_no_release host items end_rc :
  forall jobs, no_release jobs ->
  no_release (snd (fst (store_job_info_loop host jobs items end_rc))).
Proof.
  induction items as [| kval rest IH]; intros jobs Hn; simpl; [exact Hn |].
  destruct (PMIX_CHECK_KEY kval SHMEM_SEG_BLOB_KEY).
  - pose proof (unpack_and_attach_no_release host jobs kval Hn) as HU.
    destruct (unpack_shmem_seg_blob_and_attach_if_necessary host jobs kval)
      as [[rc jobs1] evs].
    simpl in HU. destruct rc; try exact HU.
    specialize (IH jobs1 HU).
    destruct (store_job_info_loop host jobs1 rest end_rc)
      as [[rc2 jobs2] evs2].
    exact IH.
  - destruct (PMIX_CHECK_KEY kval PMIX_SESSION_INFO_ARRAY
              || PMIX_CHECK_KEY kval PMIX_NODE_INFO_ARRAY
              || PMIX_CHECK_KEY kval PMIX_APP_INFO_ARRAY).
    + apply IH. exact Hn.
    + exact Hn.
Qed.

(** C7, as stated, fails when the backing file is created and the attach
    that follows does not land: the file exists and RELEASE is not set. *)
Lemma release_not_latched_on_failed_attach :
  In (Ev_segment_create "/tmp/pmix-gds-shmem.node0-nsA.jobdata.4242" 8192)
     (snd (shmem_segment_create_and_attach mismatch_host example_job
             PMIX_GDS_SHMEM_JOB_ID "jobdata" 4097))
  /\ pmix_gds_shmem_has_status
       (snd (fst (shmem_segment_create_and_attach mismatch_host example_job
                    PMIX_GDS_SHMEM_JOB_ID "jobdata" 4097)))
       PMIX_GDS_SHMEM_JOB_ID PMIX_GDS_SHMEM_RELEASE = false.
Proof. split; [left; reflexivity | reflexivity]. Qed.

(** C7 (amended): on the creating server RELEASE is latched when
    create-and-attach as a whole succeeds, and is left as it was when it
    fails; the attaching client never changes a RELEASE bit, on success it
    adds ATTACHED and READY_FOR_USE to the role, and a job list without
    RELEASE flags stays so through [store_job_info]. *)
Theorem release_flag_is_the_creators
    (host : host_t) (job : pmix_gds_shmem_job_t) (shmem_id : Z)
    (segment_name : string) (segment_size : Z)
    (usb : pmix_gds_shmem_unpacked_seg_blob_t)
    (jobs : list pmix_gds_shmem_job_t) (nspace : string)
    (buff : pmix_buffer_t pmix_value_t) :
  let R := shmem_segment_create_and_attach host job shmem_id segment_name
             segment_size in
  let C := shmem_segment_attach_and_init host job usb in
  (fst (fst R) = PMIX_SUCCESS ->
     pmix_gds_shmem_has_status (snd (fst R)) shmem_id PMIX_GDS_SHMEM_RELEASE
     = true)
  /\ (fst (fst R) <> PMIX_SUCCESS ->
      forall id,
        pmix_gds_shmem_has_status (snd (fst R)) id PMIX_GDS_SHMEM_RELEASE
        = pmix_gds_shmem_has_status job id PMIX_GDS_SHMEM_RELEASE)
  /\ (forall id,
        pmix_gds_shmem_has_status (snd (fst C)) id PMIX_GDS_SHMEM_RELEASE
        = pmix_gds_shmem_has_status job id PMIX_GDS_SHMEM_RELEASE)
  /\ (fst (fst C) = PMIX_SUCCESS ->
      job_status (snd (fst C)) (smid usb)
      = Z.lor (Z.lor (job_status job (smid usb)) PMIX_GDS_SHMEM_ATTACHED)
              PMIX_GDS_SHMEM_READY_FOR_USE)
  /\ (no_release jobs ->
      no_release (snd (fst (store_job_info host jobs nspace buff)))).
Proof.
  cbv zeta. split; [| split; [| split; [| split]]].
  - intros Hrc.
    destruct (create_and_attach_success host job shmem_id segment_name
                segment_size Hrc) as (seg & _ & _ & Hrel & _).
    exact Hrel.
  - intros Hrc id. apply has_status_release_eq.
    apply create_and_attach_failure. exact Hrc.
  - intros id. apply has_status_release_eq. apply attach_and_init_release.
  - apply attach_and_init_success.
  - intros Hn. unfold store_job_info.
    pose proof (store_job_info_loop_no_release host (packed buff)
                  (unpack_end buff) jobs Hn) as H.
    destruct (store_job_info_loop host jobs (packed buff) (unpack_end buff))
      as [[rc jobs'] evs].
    exact H.
Qed.

Lemma release_flag_is_the_creators_witness :
  pmix_gds_shmem_has_status
    (snd (fst (shmem_segment_create_and_attach example_host example_job
                 PMIX_GDS_SHMEM_JOB_ID "jobdata" 4097)))
    PMIX_GDS_SHMEM_JOB_ID PMIX_GDS_SHMEM_RELEASE = true.
Proof.
  apply (release_flag_is_the_creators example_host example_job
           PMIX_GDS_SHMEM_JOB_ID "jobdata" 4097
           unpacked_seg_blob_construct [] "nsA" empty_buffer).
  reflexivity.
Defined.

(* ================================================================== *)
(** ** Namespace deletion *)

Lemma del_nspace_loop_no_match nspace jobs :
  Forall (fun job => nspace_id job <> nspace) jobs ->
  del_nspace_loop nspace jobs = (jobs, None).
Proof.
  induction 1 as [| ji rest Hji _ IH]; simpl; [reflexivity |].
  destruct (String.eqb nspace (nspace_id ji)) eqn:E.
  - apply String.eqb_eq in E. congruence.
  - rewrite IH. reflexivity.
Qed.

Lemma del_nspace_loop_first_match nspace l1 ji l2 :
  Forall (fun job => nspace_id job <> nspace) l1 ->
  nspace_id ji = nspace ->
  del_nspace_loop nspace (l1 ++ ji :: l2)%list = ((l1 ++ l2)%list, Some ji).
Proof.
  intros H1 Hji. induction H1 as [| j rest Hj _ IH]; simpl.
  - rewrite <- Hji, String.eqb_refl. reflexivity.
  - destruct (String.eqb nspace (nspace_id j)) eqn:E.
    + apply String.eqb_eq in E. congruence.
    + rewrite IH. reflexivity.
Qed.

(** C10: [del_nspace] returns success for every namespace; when no tracker
    of the job list matches, the list is unchanged; otherwise exactly the
    first matching tracker is taken off the list and released. *)
Theorem del_nspace_removes_first_match
    (jobs : list pmix_gds_shmem_job_t) (nspace : string) :
  let rc := fst (fst (fst (del_nspace jobs nspace))) in
  let jobs' := snd (fst (fst (del_nspace jobs nspace))) in
  let released := snd (fst (del_nspace jobs nspace)) in
  let destructed := snd (del_nspace jobs nspace) in
  rc = PMIX_SUCCESS
  /\ (Forall (fun job => nspace_id job <> nspace) jobs ->
      jobs' = jobs /\ released = None /\ destructed = [])
  /\ (forall l1 ji l2,
        jobs = (l1 ++ ji :: l2)%list ->
        Forall (fun job => nspace_id job <> nspace) l1 ->
        nspace_id ji = nspace ->
        jobs' = (l1 ++ l2)%list /\ released = Some ji
        /\ destructed = snd (job_destruct ji)).
Proof.
  cbv zeta. unfold del_nspace. split; [| split].
  - destruct (del_nspace_loop nspace jobs) as [jobs' [ji |]]; reflexivity.
  - intros H. rewrite del_nspace_loop_no_match by exact H.
    simpl. repeat split.
  - intros l1 ji l2 -> H1 Hji.
    rewrite del_nspace_loop_first_match by assumption.
    simpl. repeat split.
Qed.

Lemma del_nspace_removes_first_match_witness :
  snd (fst (fst (del_nspace
                   [job_construct "nsA" 4; job_construct "nsB" 2;
                    job_construct "nsB" 8] "nsB")))
  = [job_construct "nsA" 4; job_construct "nsB" 8]
  /\ snd (fst (fst (del_nspace [job_construct "nsA" 4] "nsC")))
     = [job_construct "nsA" 4].
Proof.
  split.
  - destruct (del_nspace_removes_first_match
                [job_construct "nsA" 4; job_construct "nsB" 2;
                 job_construct "nsB" 8] "nsB") as (_ & _ & H).
    apply (H [job_construct "nsA" 4] (job_construct "nsB" 2)
             [job_construct "nsB" 8]);
      [reflexivity | | reflexivity].
    constructor; [simpl; discriminate | constructor].
  - destruct (del_nspace_removes_first_match [job_construct "nsA" 4] "nsC")
      as (_ & H & _).
    apply H. constructor; [simpl; discriminate | constructor].
Defined.

(* ================================================================== *)
(** ** The sizing estimator *)

Lemma to_size_t_add_idemp (a b : Z) :
  to_size_t (to_size_t a + b) = to_size_t (a + b).
Proof. unfold to_size_t, SIZE_WIDTH. apply Z.add_mod_idemp_l. lia. Qed.

Lemma to_size_t_idemp (a : Z) : to_size_t (to_size_t a) = to_size_t a.
Proof. unfold to_size_t, SIZE_WIDTH. apply Z.mod_mod. lia. Qed.

Lemma nhtentries_add_expected (a : Z) (kvi : pmix_kval_t) :
  nhtentries_add (to_size_t a) kvi = to_size_t (a + expected_entries kvi).
Proof.
  unfold nhtentries_add, expected_entries, PMIX_CHECK_KEY.
  destruct (snd kvi); try apply to_size_t_add_idemp.
  destruct (String.eqb (fst kvi) PMIX_PROC_DATA).
  - apply to_size_t_add_idemp.
  - rewrite Z.add_0_r. reflexivity.
Qed.

Lemma fold_nhtentries_add (kvs : list pmix_kval_t) :
  forall a, fold_left nhtentries_add kvs (to_size_t a)
            = to_size_t (a + sum_expected_entries kvs).
Proof.
  induction kvs as [| kvi rest IH]; intros a; simpl.
  - rewrite Z.add_0_r. reflexivity.
  - rewrite nhtentries_add_expected, IH. f_equal. lia.
Qed.

Lemma get_local_job_data_stats_loop_count host kvs :
  forall n data n' data',
    get_local_job_data_stats_loop host kvs n data
    = (PMIX_SUCCESS, n', data') ->
    n' = fold_left nhtentries_add kvs n.
Proof.
  induction kvs as [| kvi rest IH]; intros n data n' data'; simpl.
  - intros H. inv_pair. reflexivity.
  - destruct (bfrops_pack host (fun v => v) data kvi) as [rc d].
    destruct rc; try discriminate. apply IH.
Qed.

Lemma job_smdata_construct_hashtab host job htsize :
  let r := job_smdata_construct host job htsize in
  fst (fst (fst r)) = PMIX_SUCCESS
  /\ snd r = [Ev_hash_table_init (ht_object (local_hashtab (snd (fst r))))
                                 htsize]
  /\ ht_capacity (local_hashtab (snd (fst r)))
     = hash_table_capacity host htsize.
Proof. cbv zeta. repeat split. Qed.

(** C1, as stated, fails for an array whose key is not the process-data
    key: it is counted as nothing, not as one entry. *)
Lemma other_array_counts_nothing :
  count_nhtentries [(PMIX_NODE_INFO_ARRAY, V_data_array 3)] = 0
  /\ count_nhtentries [(PMIX_NODE_INFO_ARRAY, V_data_array 3)] <> 1.
Proof. split; [reflexivity | discriminate]. Qed.

(** C1 (amended): the estimator counts, modulo [2^64], the length of every
    process-data array, nothing for any other array and one for every value
    that is not an array; when the statistics are obtained, the recorded
    hash-table size is the collaborator's capacity for that count; and when
    the JOB segment is prepared, the shared local hash table is initialized
    with exactly the recorded size. *)
Theorem estimator_counts_hash_entries
    (host : host_t) (kvs : list pmix_kval_t)
    (stats : pmix_gds_shmem_local_job_stats_t)
    (job : pmix_gds_shmem_job_t) :
  count_nhtentries kvs = to_size_t (sum_expected_entries kvs)
  /\ (get_local_job_data_stats host kvs = (PMIX_SUCCESS, stats) ->
      hash_table_size stats
      = hash_table_capacity host (count_nhtentries kvs)
      /\ let P := prepare_shmem_store_for_local_job_data host job stats in
         (fst (fst (fst P)) = PMIX_SUCCESS ->
          exists hdr,
            snd (fst P) = Some hdr
            /\ In (Ev_hash_table_init (ht_object (local_hashtab hdr))
                                      (hash_table_size stats)) (snd P)
            /\ ht_capacity (local_hashtab hdr)
               = hash_table_capacity host (hash_table_size stats))).
Proof.
  split.
  - unfold count_nhtentries.
    change 0 with (to_size_t 0) at 1. apply fold_nhtentries_add.
  - intros Hstats. split.
    + unfold get_local_job_data_stats in Hstats.
      destruct (get_local_job_data_stats_loop host kvs 0 empty_buffer)
        as [[rc n] data] eqn:L.
      destruct rc; try discriminate. inv_pair. simpl.
      apply get_local_job_data_stats_loop_count in L. subst n. reflexivity.
    + cbv zeta. unfold prepare_shmem_store_for_local_job_data.
      destruct (shmem_segment_create_and_attach host job
                  PMIX_GDS_SHMEM_JOB_ID "jobdata" _) as [[rc job1] evs].
      destruct rc; try discriminate.
      destruct (job_smdata_construct_hashtab host job1
                  (hash_table_size stats)) as (H1 & H2 & H3).
      destruct (job_smdata_construct host job1 (hash_table_size stats))
        as [[[rc2 job2] hdr] evs'].
      simpl in *. intros _. exists hdr. split; [reflexivity |].
      split; [| exact H3].
      apply in_or_app. right. rewrite H2. left. reflexivity.
Qed.

Lemma estimator_counts_hash_entries_witness :
  hash_table_size
    (snd (get_local_job_data_stats example_host
            [(PMIX_PROC_DATA, V_data_array 4);
             (PMIX_NODE_INFO_ARRAY, V_data_array 3);
             ("pmix.jobid", V_string "job-17")]))
  = hash_table_capacity example_host 5.
Proof.
  apply (estimator_counts_hash_entries example_host
           [(PMIX_PROC_DATA, V_data_array 4);
            (PMIX_NODE_INFO_ARRAY, V_data_array 3);
            ("pmix.jobid", V_string "job-17")]
           (snd (get_local_job_data_stats example_host
                   [(PMIX_PROC_DATA, V_data_array 4);
                    (PMIX_NODE_INFO_ARRAY, V_data_array 3);
                    ("pmix.jobid", V_string "job-17")]))
           example_job).
  reflexivity.
Defined.

(* ================================================================== *)
(** ** Unpacking on the client *)

Lemma unpack_loop_verdict_success rc :
  unpack_loop_verdict rc = PMIX_SUCCESS
  <-> rc = PMIX_ERR_UNPACK_READ_PAST_END_OF_BUFFER.
Proof. destruct rc; simpl; split; intros H; congruence. Qed.

Lemma unpack_loop_verdict_values rc :
  unpack_loop_verdict rc = PMIX_SUCCESS
  \/ unpack_loop_verdict rc = PMIX_ERR_UNPACK_FAILURE.
Proof. destruct rc; simpl; auto. Qed.

Lemma strtost_status str base :
  fst (strtost str base) = PMIX_SUCCESS \/ strtost str base = (PMIX_ERROR, 0).
Proof.
  unfold strtost. destruct (strtoll str base) as [[val rest] erange].
  destruct (_ || _); simpl; auto.
Qed.

(** The status the loop over a connection-info blob is left with: the
    codec's, or an error of the loop's own. *)
Lemma unpack_conn_loop_status items end_rc :
  forall usb,
    let rc := fst (unpack_shmem_connection_info_loop items end_rc usb) in
    (rc = end_rc /\ Forall (fun kv => conn_key_known (fst kv) = true) items)
    \/ rc = PMIX_ERROR \/ rc = PMIX_ERR_BAD_PARAM.
Proof.
  induction items as [| kv rest IH]; intros usb; cbv zeta.
  - left. split; [reflexivity | constructor].
  - assert (K : conn_key_known (fst kv) = true -> forall u,
      (fst (unpack_shmem_connection_info_loop rest end_rc u) = end_rc /\
       Forall (fun kv => conn_key_known (fst kv) = true) (kv :: rest))
      \/ fst (unpack_shmem_connection_info_loop rest end_rc u) = PMIX_ERROR
      \/ fst (unpack_shmem_connection_info_loop rest end_rc u)
         = PMIX_ERR_BAD_PARAM).
    { intros Hk u. destruct (IH u) as [[H1 H2] | H]; [| tauto].
      left. split; [exact H1 |]. constructor; assumption. }
    simpl. unfold PMIX_CHECK_KEY. unfold conn_key_known in K.
    destruct (String.eqb (fst kv) SHMEM_SEG_NSID_KEY) eqn:E1.
    { apply K. reflexivity. }
    destruct (String.eqb (fst kv) SHMEM_SEG_SMID_KEY) eqn:E2.
    { destruct (strtost_status (snd kv) 10) as [S | S].
      - destruct (strtost (snd kv) 10) as [rc v]. simpl in S. subst rc.
        apply K. reflexivity.
      - rewrite S. simpl. auto. }
    destruct (String.eqb (fst kv) SHMEM_SEG_PATH_KEY) eqn:E3.
    { apply K. reflexivity. }
    destruct (String.eqb (fst kv) SHMEM_SEG_SIZE_KEY) eqn:E4.
    { destruct (strtost_status (snd kv) 16) as [S | S].
      - destruct (strtost (snd kv) 16) as [rc v]. simpl in S. subst rc.
        apply K. reflexivity.
      - rewrite S. simpl. auto. }
    destruct (String.eqb (fst kv) SHMEM_SEG_ADDR_KEY) eqn:E5.
    { destruct (strtost_status (snd kv) 16) as [S | S].
      - destruct (strtost (snd kv) 16) as [rc v]. simpl in S. subst rc.
        apply K. reflexivity.
      - rewrite S. simpl. auto. }
    simpl. auto.
Qed.

Lemma unpack_conn_loop_unknown_key items end_rc usb :
  Exists (fun kv => conn_key_known (fst kv) = false) items ->
  fst (unpack_shmem_connection_info_loop items end_rc usb)
  <> PMIX_ERR_UNPACK_READ_PAST_END_OF_BUFFER.
Proof.
  intros Hex.
  destruct (unpack_conn_loop_status items PMIX_SUCCESS usb)
    as [[_ Hall] | H].
  - exfalso. rewrite Exists_exists in Hex. destruct Hex as (kv & Hin & Hk).
    rewrite Forall_forall in Hall. specialize (Hall kv Hin). congruence.
  - destruct (unpack_conn_loop_status items end_rc usb)
      as [[_ Hall] | [H' | H']]; try congruence.
    exfalso. rewrite Exists_exists in Hex. destruct Hex as (kv & Hin & Hk).
    rewrite Forall_forall in Hall. specialize (Hall kv Hin). congruence.
Qed.

(** Once the loop of [store_job_info] got through a prefix of the buffer,
    it goes on with the rest. *)
Lemma store_job_info_loop_app host pre rest end_rc :
  forall jobs,
    fst (fst (store_job_info_loop host jobs pre PMIX_SUCCESS))
    = PMIX_SUCCESS ->
    fst (fst (store_job_info_loop host jobs (pre ++ rest)%list end_rc))
    = fst (fst (store_job_info_loop host
                  (snd (fst (store_job_info_loop host jobs pre PMIX_SUCCESS)))
                  rest end_rc)).
Proof.
  induction pre as [| kval pre IH]; intros jobs Hpre; simpl in *.
  - reflexivity.
  - destruct (PMIX_CHECK_KEY kval SHMEM_SEG_BLOB_KEY).
    + destruct (unpack_shmem_seg_blob_and_attach_if_necessary host jobs kval)
        as [[rc jobs1] evs].
      destruct rc; try discriminate.
      specialize (IH jobs1).
      destruct (store_job_info_loop host jobs1 pre PMIX_SUCCESS)
        as [[rc1 jobs2] evs1].
      destruct (store_job_info_loop host jobs1 (pre ++ rest)%list end_rc)
        as [[rc2 jobs3] evs2].
      simpl in *. apply IH. exact Hpre.
    + destruct (PMIX_CHECK_KEY kval PMIX_SESSION_INFO_ARRAY
                || PMIX_CHECK_KEY kval PMIX_NODE_INFO_ARRAY
                || PMIX_CHECK_KEY kval PMIX_APP_INFO_ARRAY).
      * apply IH. exact Hpre.
      * discriminate.
Qed.

Lemma store_job_info_loop_unknown_key host jobs kv post end_rc :
  reply_key_known (fst kv) = false ->
  store_job_info_loop host jobs (kv :: post) end_rc
  = (PMIX_ERR_BAD_PARAM, jobs, []).
Proof.
  unfold reply_key_known. intros H. simpl. unfold PMIX_CHECK_KEY.
  destruct (String.eqb (fst kv) SHMEM_SEG_BLOB_KEY); [discriminate |].
  simpl in H. rewrite H. reflexivity.
Qed.

(** Once the loop over a blob got through a prefix of its entries, it goes
    on with the rest, from the fields filled in so far. *)
Lemma unpack_conn_loop_app pre rest end_rc :
  forall usb,
    fst (unpack_shmem_connection_info_loop pre PMIX_SUCCESS usb)
    = PMIX_SUCCESS ->
    unpack_shmem_connection_info_loop (pre ++ rest)%list end_rc usb
    = unpack_shmem_connection_info_loop rest end_rc
        (snd (unpack_shmem_connection_info_loop pre PMIX_SUCCESS usb)).
Proof.
  induction pre as [| kv pre IH]; intros usb Hpre; [reflexivity |].
  cbn [app unpack_shmem_connection_info_loop] in *.
  unfold PMIX_CHECK_KEY in *.
  destruct (String.eqb (fst kv) SHMEM_SEG_NSID_KEY); [apply IH; exact Hpre |].
  destruct (String.eqb (fst kv) SHMEM_SEG_SMID_KEY).
  { destruct (strtost (snd kv) 10) as [rc v].
    destruct rc; try discriminate Hpre. apply IH. exact Hpre. }
  destruct (String.eqb (fst kv) SHMEM_SEG_PATH_KEY); [apply IH; exact Hpre |].
  destruct (String.eqb (fst kv) SHMEM_SEG_SIZE_KEY).
  { destruct (strtost (snd kv) 16) as [rc v].
    destruct rc; try discriminate Hpre. apply IH. exact Hpre. }
  destruct (String.eqb (fst kv) SHMEM_SEG_ADDR_KEY).
  { destruct (strtost (snd kv) 16) as [rc v].
    destruct rc; try discriminate Hpre. apply IH. exact Hpre. }
  discriminate Hpre.
Qed.

Lemma unpack_conn_loop_unknown_first kv post end_rc usb :
  conn_key_known (fst kv) = false ->
  unpack_shmem_connection_info_loop (kv :: post) end_rc usb
  = (PMIX_ERR_BAD_PARAM, usb).
Proof.
  unfold conn_key_known. intros H.
  cbn [unpack_shmem_connection_info_loop]. unfold PMIX_CHECK_KEY.
  destruct (String.eqb (fst kv) SHMEM_SEG_NSID_KEY); [discriminate H |].
  destruct (String.eqb (fst kv) SHMEM_SEG_SMID_KEY); [discriminate H |].
  destruct (String.eqb (fst kv) SHMEM_SEG_PATH_KEY); [discriminate H |].
  destruct (String.eqb (fst kv) SHMEM_SEG_SIZE_KEY); [discriminate H |].
  destruct (String.eqb (fst kv) SHMEM_SEG_ADDR_KEY); [discriminate H |].
  reflexivity.
Qed.

(** C2, as stated, fails: an unknown key makes both operations return the
    unpack-failure status, not the bad-parameter status. *)
Lemma unknown_key_returns_unpack_failure :
  fst (unpack_shmem_connection_info
         (SHMEM_SEG_BLOB_KEY,
          V_byte_object
            (mk_buffer 8 [("FOO", "bar")]
                       PMIX_ERR_UNPACK_READ_PAST_END_OF_BUFFER))
         unpacked_seg_blob_construct)
  = PMIX_ERR_UNPACK_FAILURE
  /\ fst (fst (store_job_info example_host [] "nsA"
                 (mk_buffer 8 [("FOO", V_string "bar")]
                            PMIX_ERR_UNPACK_READ_PAST_END_OF_BUFFER)))
     = PMIX_ERR_UNPACK_FAILURE
  /\ PMIX_ERR_UNPACK_FAILURE <> PMIX_ERR_BAD_PARAM.
Proof. repeat split. discriminate. Qed.

(** C2 (amended): when the loop over a connection-info blob or over a reply
    buffer comes upon a key it does not recognize, it is left with the
    bad-parameter status and the operation returns the unpack-failure
    status; a blob that holds such a key anywhere fails; either operation
    returns success exactly when its unpack loop ends with the
    read-past-end-of-buffer status, which for a blob can only be the
    codec's; neither ever returns the bad-parameter status. *)
Theorem unknown_key_fails_unpack
    (host : host_t) (jobs : list pmix_gds_shmem_job_t) (nspace : string)
    (buff : pmix_buffer_t pmix_value_t)
    (key : string) (bo : pmix_buffer_t string)
    (usb : pmix_gds_shmem_unpacked_seg_blob_t) :
  let blob := unpack_shmem_connection_info (key, V_byte_object bo) usb in
  let blob_loop :=
    unpack_shmem_connection_info_loop (packed bo) (unpack_end bo) usb in
  let reply := store_job_info host jobs nspace buff in
  let reply_loop :=
    store_job_info_loop host jobs (packed buff) (unpack_end buff) in
  (Exists (fun kv => conn_key_known (fst kv) = false) (packed bo) ->
     fst blob = PMIX_ERR_UNPACK_FAILURE)
  /\ (forall pre kv post,
        packed bo = (pre ++ kv :: post)%list ->
        fst (unpack_shmem_connection_info_loop pre PMIX_SUCCESS usb)
        = PMIX_SUCCESS ->
        conn_key_known (fst kv) = false ->
        fst blob_loop = PMIX_ERR_BAD_PARAM
        /\ fst blob = PMIX_ERR_UNPACK_FAILURE)
  /\ (forall pre kv post,
        packed buff = (pre ++ kv :: post)%list ->
        fst (fst (store_job_info_loop host jobs pre PMIX_SUCCESS))
        = PMIX_SUCCESS ->
        reply_key_known (fst kv) = false ->
        fst (fst reply_loop) = PMIX_ERR_BAD_PARAM
        /\ fst (fst reply) = PMIX_ERR_UNPACK_FAILURE)
  /\ (fst blob = PMIX_SUCCESS
      <-> fst blob_loop = PMIX_ERR_UNPACK_READ_PAST_END_OF_BUFFER)
  /\ (fst (fst reply) = PMIX_SUCCESS
      <-> fst (fst reply_loop) = PMIX_ERR_UNPACK_READ_PAST_END_OF_BUFFER)
  /\ (fst blob_loop = PMIX_ERR_UNPACK_READ_PAST_END_OF_BUFFER ->
      unpack_end bo = PMIX_ERR_UNPACK_READ_PAST_END_OF_BUFFER)
  /\ fst blob <> PMIX_ERR_BAD_PARAM
  /\ fst (fst reply) <> PMIX_ERR_BAD_PARAM.
Proof.
  cbv zeta. unfold unpack_shmem_connection_info, store_job_info. simpl.
  pose proof (unpack_conn_loop_unknown_key (packed bo) (unpack_end bo) usb)
    as Hunk.
  pose proof (unpack_conn_loop_status (packed bo) (unpack_end bo) usb) as Hst.
  assert (Hbad : forall pre kv post,
             packed bo = (pre ++ kv :: post)%list ->
             fst (unpack_shmem_connection_info_loop pre PMIX_SUCCESS usb)
             = PMIX_SUCCESS ->
             conn_key_known (fst kv) = false ->
             fst (unpack_shmem_connection_info_loop (packed bo)
                    (unpack_end bo) usb)
             = PMIX_ERR_BAD_PARAM).
  { intros pre kv post Hp Hpre Hk.
    rewrite Hp, (unpack_conn_loop_app pre (kv :: post) _ usb Hpre).
    rewrite (unpack_conn_loop_unknown_first kv post _ _ Hk). reflexivity. }
  destruct (unpack_shmem_connection_info_loop (packed bo) (unpack_end bo) usb)
    as [rcb usb'].
  destruct (store_job_info_loop host jobs (packed buff) (unpack_end buff))
    as [[rcr jobs'] evs] eqn:L.
  simpl in *.
  split; [| split; [| split; [| split; [| split; [| split; [| split]]]]]].
  - intros Hex. specialize (Hunk Hex).
    destruct rcb; simpl; congruence.
  - intros pre kv post Hp Hpre Hk.
    assert (E : rcb = PMIX_ERR_BAD_PARAM)
      by exact (Hbad pre kv post Hp Hpre Hk).
    subst rcb. split; reflexivity.
  - intros pre kv post Hp Hpre Hk.
    assert (E : rcr = PMIX_ERR_BAD_PARAM).
    { pose proof (store_job_info_loop_app host pre (kv :: post)
                    (unpack_end buff) jobs Hpre) as A.
      pose proof (store_job_info_loop_unknown_key host
                    (snd (fst (store_job_info_loop host jobs pre
                                 PMIX_SUCCESS)))
                    kv post (unpack_end buff) Hk) as U.
      unfold pmix_kval_t in *.
      rewrite <- Hp, L, U in A. exact A. }
    subst rcr. split; reflexivity.
  - apply unpack_loop_verdict_success.
  - apply unpack_loop_verdict_success.
  - intros E. destruct Hst as [[H _] | [H | H]]; congruence.
  - destruct (unpack_loop_verdict_values rcb) as [H | H]; rewrite H;
      discriminate.
  - destruct (unpack_loop_verdict_values rcr) as [H | H]; rewrite H;
      discriminate.
Qed.

Lemma unknown_key_fails_unpack_witness :
  let bo := mk_buffer 40 [(SHMEM_SEG_NSID_KEY, "nsA"); ("FOO", "bar")]
                      PMIX_ERR_UNPACK_READ_PAST_END_OF_BUFFER in
  fst (unpack_shmem_connection_info_loop (packed bo) (unpack_end bo)
         unpacked_seg_blob_construct)
  = PMIX_ERR_BAD_PARAM
  /\ fst (unpack_shmem_connection_info
            (SHMEM_SEG_BLOB_KEY, V_byte_object bo)
            unpacked_seg_blob_construct)
     = PMIX_ERR_UNPACK_FAILURE.
Proof.
  cbv zeta.
  destruct (unknown_key_fails_unpack example_host [] "nsA" empty_buffer
              SHMEM_SEG_BLOB_KEY
              (mk_buffer 40 [(SHMEM_SEG_NSID_KEY, "nsA"); ("FOO", "bar")]
                         PMIX_ERR_UNPACK_READ_PAST_END_OF_BUFFER)
              unpacked_seg_blob_construct) as (_ & H & _).
  apply (H [(SHMEM_SEG_NSID_KEY, "nsA")] ("FOO", "bar") []);
    reflexivity.
Defined.

(* ================================================================== *)
(** ** Printing and reading back numbers *)

Lemma digit_enum (P : Z -> Prop) :
  Forall P [0; 1; 2; 3; 4; 5; 6; 7; 8; 9; 10; 11; 12; 13; 14; 15] ->
  forall m, 0 <= m < 16 -> P m.
Proof.
  intros H m Hm. rewrite Forall_forall in H. apply H. simpl. lia.
Qed.

Lemma digit_char_facts (m : Z) :
  0 <= m < 16 ->
  digit_value (digit_char m) = Some m
  /\ isspace (digit_char m) = false
  /\ Ascii.eqb (digit_char m) "-" = false
  /\ Ascii.eqb (digit_char m) "+" = false
  /\ Ascii.eqb (digit_char m) "x" = false
  /\ Ascii.eqb (digit_char m) "X" = false.
Proof.
  revert m. apply digit_enum. repeat constructor.
Qed.

Lemma fmt_digits_nonempty fuel base :
  forall n c r, exists c' r',
    fmt_digits fuel base n (String c r) = String c' r'.
Proof.
  induction fuel as [| fuel IH]; intros n c r; simpl.
  - eauto.
  - destruct (n / base =? 0); [eauto | apply IH].
Qed.

Lemma fmt_digits_digits_only fuel base :
  0 < base ->
  forall n str, digits_only base str ->
                digits_only base (fmt_digits fuel base n str).
Proof.
  intros Hb. induction fuel as [| fuel IH]; intros n str Hstr; simpl.
  - exact Hstr.
  - assert (Hd : digits_only base (String (digit_char (n mod base)) str)).
    { simpl. split; [| exact Hstr]. exists (n mod base).
      split; [apply Z.mod_pos_bound; exact Hb | reflexivity]. }
    destruct (n / base =? 0); [exact Hd | apply IH; exact Hd].
Qed.

(** Reading back what [fmt_digits] wrote in front of [str]. *)
Lemma scan_digits_fmt_digits base :
  2 <= base <= 16 ->
  forall fuel n str,
    0 <= n < base ^ Z.of_nat fuel ->
    exists d, 0 <= d /\ forall a,
      scan_digits base a (fmt_digits fuel base n str)
      = scan_digits base (a * base ^ d + n) str.
Proof.
  intros Hb. induction fuel as [| fuel IH]; intros n str Hn.
  - simpl in *. exists 0. split; [lia |]. intros a. f_equal. lia.
  - assert (Hm : 0 <= n mod base < base) by (apply Z.mod_pos_bound; lia).
    destruct (digit_char_facts (n mod base) ltac:(lia)) as (Hv & _).
    assert (Hstep : forall a,
      scan_digits base a (String (digit_char (n mod base)) str)
      = scan_digits base (a * base + n mod base) str).
    { intros a. simpl. rewrite Hv.
      destruct (n mod base <? base) eqn:E; [reflexivity |].
      apply Z.ltb_ge in E. lia. }
    simpl fmt_digits. destruct (n / base =? 0) eqn:E.
    + apply Z.eqb_eq in E. exists 1. split; [lia |]. intros a.
      rewrite Hstep. f_equal.
      pose proof (Z.div_mod n base ltac:(lia)). lia.
    + apply Z.eqb_neq in E.
      assert (Hq : 0 <= n / base < base ^ Z.of_nat fuel).
      { split; [apply Z.div_pos; lia |].
        apply Z.div_lt_upper_bound; [lia |].
        replace (base * base ^ Z.of_nat fuel)
          with (base ^ Z.of_nat (S fuel)); [lia |].
        rewrite Nat2Z.inj_succ, Z.pow_succ_r by lia. reflexivity. }
      destruct (IH (n / base) (String (digit_char (n mod base)) str) Hq)
        as (d & Hd & Hscan).
      exists (d + 1). split; [lia |]. intros a.
      rewrite Hscan, Hstep. f_equal.
      rewrite Z.pow_add_r, Z.pow_1_r by lia.
      pose proof (Z.div_mod n base ltac:(lia)). lia.
Qed.

(** On a string of digits [strtoll] reads no space, no sign and no prefix. *)
Lemma strtoll_digits_only base c r :
  2 <= base <= 16 ->
  digits_only base (String c r) ->
  strtoll (String c r) base
  = let '(mag, rest) := scan_digits base 0 (String c r) in
    if mag >? LLONG_MAX then (LLONG_MAX, rest, true)
    else if mag <? LLONG_MIN then (LLONG_MIN, rest, true)
    else (mag, rest, false).
Proof.
  intros Hb [(m & Hm & ->) Hr].
  destruct (digit_char_facts m ltac:(lia)) as (Hv & Hsp & Hmi & Hpl & _).
  unfold strtoll.
  assert (E1 : skip_spaces (String (digit_char m) r) = String (digit_char m) r)
    by (simpl; rewrite Hsp; reflexivity).
  rewrite E1.
  assert (E2 : scan_sign (String (digit_char m) r)
               = (false, String (digit_char m) r))
    by (unfold scan_sign; rewrite Hmi, Hpl; reflexivity).
  rewrite E2.
  assert (E3 : scan_hex_prefix base (String (digit_char m) r)
               = String (digit_char m) r).
  { unfold scan_hex_prefix. destruct r as [| x [| c2 r2]]; try reflexivity.
    destruct Hr as [(m' & Hm' & ->) _].
    destruct (digit_char_facts m' ltac:(lia)) as (_ & _ & _ & _ & Hx & HX).
    rewrite Hx, HX. simpl. rewrite andb_false_r. reflexivity. }
  rewrite E3.
  assert (E4 : starts_with_digit base (String (digit_char m) r) = true).
  { unfold starts_with_digit, is_digit_in. rewrite Hv.
    apply Z.ltb_lt. lia. }
  rewrite E4. reflexivity.
Qed.

Lemma strtost_fmt_digits base n :
  2 <= base <= 16 -> 0 <= n <= LLONG_MAX ->
  strtost (fmt_digits 64 base n "") base = (PMIX_SUCCESS, n).
Proof.
  intros Hb Hn.
  assert (Hfuel : 0 <= n < base ^ Z.of_nat 64).
  { split; [lia |].
    apply Z.le_lt_trans with LLONG_MAX; [lia |].
    apply Z.lt_le_trans with (2 ^ Z.of_nat 64); [reflexivity |].
    apply Z.pow_le_mono_l. lia. }
  destruct (scan_digits_fmt_digits base Hb 64 n "" Hfuel) as (d & _ & Hscan).
  assert (Hdig : digits_only base (fmt_digits 64 base n ""))
    by (apply fmt_digits_digits_only; [lia | exact I]).
  assert (Hne : exists c r, fmt_digits 64 base n "" = String c r).
  { change (fmt_digits 64 base n "")
      with (let acc' := String (digit_char (n mod base)) "" in
            if n / base =? 0 then acc'
            else fmt_digits 63 base (n / base) acc').
    cbv zeta. destruct (n / base =? 0); [eauto |].
    apply fmt_digits_nonempty. }
  destruct Hne as (c & r & Hcr).
  unfold strtost. rewrite Hcr in Hdig |- *.
  rewrite strtoll_digits_only by assumption.
  rewrite <- Hcr, Hscan. simpl scan_digits.
  replace (0 * base ^ d + n) with n by lia.
  cbv beta iota.
  destruct (n >? LLONG_MAX) eqn:E1; [apply Z.gtb_lt in E1; lia |].
  destruct (n <? LLONG_MIN) eqn:E2;
    [apply Z.ltb_lt in E2; unfold LLONG_MIN, LLONG_MAX in *; lia |].
  cbv beta iota. cbn [andb orb negb String.eqb].
  rewrite to_size_t_small; [reflexivity |].
  unfold LLONG_MAX in Hn. lia.
Qed.

Lemma strtost_fmt_zx v :
  0 <= v < 2 ^ 63 -> strtost (fmt_zx v) 16 = (PMIX_SUCCESS, v).
Proof.
  intros Hv. unfold fmt_zx. rewrite to_size_t_small by lia.
  apply strtost_fmt_digits; [lia | unfold LLONG_MAX; lia].
Qed.

Lemma strtost_fmt_zd v :
  0 <= v < 2 ^ 63 -> strtost (fmt_zd v) 10 = (PMIX_SUCCESS, v).
Proof.
  intros Hv. unfold fmt_zd. rewrite to_size_t_small by lia.
  destruct (v <? 2 ^ 63) eqn:E; [| apply Z.ltb_ge in E; lia].
  apply strtost_fmt_digits; [lia | unfold LLONG_MAX; lia].
Qed.

(* ================================================================== *)
(** ** Packing a connection-info blob and unpacking it again *)

Lemma bfrops_pack_all_success {V} host (inj : V -> pmix_value_t) kvs :
  forall buffer buffer',
    bfrops_pack_all host inj buffer kvs = (PMIX_SUCCESS, buffer') ->
    packed buffer' = (packed buffer ++ kvs)%list
    /\ unpack_end buffer' = unpack_end buffer.
Proof.
  induction kvs as [| kv rest IH]; intros buffer buffer'; simpl.
  - intros H. inv_pair. rewrite app_nil_r. split; reflexivity.
  - unfold bfrops_pack.
    destruct (bfrops_pack_status host (fst kv)); try discriminate.
    intros H. apply IH in H. simpl in H. destruct H as [H1 H2].
    rewrite H1, H2, <- app_assoc. split; reflexivity.
Qed.

Lemma unpack_loop_nsid v rest e usb :
  unpack_shmem_connection_info_loop ((SHMEM_SEG_NSID_KEY, v) :: rest) e usb
  = unpack_shmem_connection_info_loop rest e (set_nsid usb (Some v)).
Proof. reflexivity. Qed.

Lemma unpack_loop_smid v rest e usb :
  unpack_shmem_connection_info_loop ((SHMEM_SEG_SMID_KEY, v) :: rest) e usb
  = match strtost v 10 with
    | (PMIX_SUCCESS, st_shmem_id) =>
        unpack_shmem_connection_info_loop rest e
          (set_smid usb (to_shmem_id st_shmem_id))
    | (rc, _) => (rc, usb)
    end.
Proof. reflexivity. Qed.

Lemma unpack_loop_path v rest e usb :
  unpack_shmem_connection_info_loop ((SHMEM_SEG_PATH_KEY, v) :: rest) e usb
  = unpack_shmem_connection_info_loop rest e (set_seg_path usb (Some v)).
Proof. reflexivity. Qed.

Lemma unpack_loop_size v rest e usb :
  unpack_shmem_connection_info_loop ((SHMEM_SEG_SIZE_KEY, v) :: rest) e usb
  = match strtost v 16 with
    | (PMIX_SUCCESS, x) =>
        unpack_shmem_connection_info_loop rest e (set_seg_size usb x)
    | (rc, x) => (rc, set_seg_size usb x)
    end.
Proof. reflexivity. Qed.

Lemma unpack_loop_addr v rest e usb :
  unpack_shmem_connection_info_loop ((SHMEM_SEG_ADDR_KEY, v) :: rest) e usb
  = match strtost v 16 with
    | (PMIX_SUCCESS, x) =>
        unpack_shmem_connection_info_loop rest e (set_seg_addr usb x)
    | (rc, x) => (rc, set_seg_addr usb x)
    end.
Proof. reflexivity. Qed.

Lemma is_role_cases id :
  is_role id = true ->
  id = PMIX_GDS_SHMEM_JOB_ID \/ id = PMIX_GDS_SHMEM_MODEX_ID.
Proof.
  unfold is_role. intros H. apply orb_true_iff in H.
  destruct H as [H | H]; apply Z.eqb_eq in H; auto.
Qed.

(** C3, as stated, fails for a segment whose size (or base address) is
    [2^63] or more: [strtost] reads the hexadecimal text through [strtoll],
    which is out of range there, and unpacking fails. *)
Lemma huge_size_does_not_round_trip :
  fst (pack_shmem_connection_info example_host
         (set_shmem example_job (mk_shmem (2 ^ 63) 4096 "/tmp/seg"))
         PMIX_GDS_SHMEM_JOB_ID empty_buffer) = PMIX_SUCCESS
  /\ packed (snd (pack_shmem_connection_info example_host
         (set_shmem example_job (mk_shmem (2 ^ 63) 4096 "/tmp/seg"))
         PMIX_GDS_SHMEM_JOB_ID empty_buffer))
     = [(SHMEM_SEG_NSID_KEY, "nsA"); (SHMEM_SEG_SMID_KEY, "0");
        (SHMEM_SEG_PATH_KEY, "/tmp/seg");
        (SHMEM_SEG_SIZE_KEY, "8000000000000000");
        (SHMEM_SEG_ADDR_KEY, "1000")]
  /\ fst (unpack_shmem_connection_info
            (SHMEM_SEG_BLOB_KEY,
             V_byte_object
               (snd (pack_shmem_connection_info example_host
                       (set_shmem example_job
                          (mk_shmem (2 ^ 63) 4096 "/tmp/seg"))
                       PMIX_GDS_SHMEM_JOB_ID empty_buffer)))
            unpacked_seg_blob_construct)
     = PMIX_ERR_UNPACK_FAILURE.
Proof. repeat split; vm_compute; reflexivity. Qed.

(** C3 (amended): for every segment of a tracker whose size and base
    address are below [2^63], packing its five connection-info fields and
    then unpacking the blob succeeds and yields the same five values. *)
Theorem connection_info_round_trip
    (host : host_t) (job : pmix_gds_shmem_job_t) (shmem_id : Z)
    (s : pmix_shmem_t) (buff : pmix_buffer_t string) :
  pmix_gds_shmem_get_job_shmem_by_id job shmem_id = (PMIX_SUCCESS, Some s) ->
  0 <= size s < 2 ^ 63 ->
  0 <= base_address s < 2 ^ 63 ->
  pack_shmem_connection_info host job shmem_id empty_buffer
  = (PMIX_SUCCESS, buff) ->
  unpack_shmem_connection_info (SHMEM_SEG_BLOB_KEY, V_byte_object buff)
                               unpacked_seg_blob_construct
  = (PMIX_SUCCESS,
     mk_usb (Some (nspace_id job)) shmem_id (Some (backing_path s))
            (size s) (base_address s)).
Proof.
  intros Hget Hsize Haddr Hpack.
  destruct (get_job_shmem_by_id_role _ _ _ _ Hget) as [_ R].
  unfold pack_shmem_connection_info in Hpack. rewrite Hget in Hpack.
  apply bfrops_pack_all_success in Hpack. destruct Hpack as [Hp He].
  simpl in Hp, He.
  unfold unpack_shmem_connection_info. cbn [snd]. rewrite Hp, He.
  unfold connection_info.
  rewrite unpack_loop_nsid, unpack_loop_smid.
  assert (Hid : 0 <= shmem_id < 2 ^ 63 /\ to_shmem_id shmem_id = shmem_id).
  { destruct (is_role_cases shmem_id R) as [-> | ->]; split;
      try reflexivity; unfold PMIX_GDS_SHMEM_JOB_ID, PMIX_GDS_SHMEM_MODEX_ID;
      lia. }
  destruct Hid as [Hid1 Hid2].
  rewrite (to_size_t_small shmem_id) by lia.
  rewrite strtost_fmt_zd by exact Hid1. rewrite Hid2.
  rewrite unpack_loop_path, unpack_loop_size.
  rewrite strtost_fmt_zx by exact Hsize.
  rewrite unpack_loop_addr.
  rewrite strtost_fmt_zx by exact Haddr.
  reflexivity.
Qed.

Lemma connection_info_round_trip_witness :
  unpack_shmem_connection_info
    (SHMEM_SEG_BLOB_KEY,
     V_byte_object
       (snd (pack_shmem_connection_info example_host
               (set_modex_shmem example_job
                  (mk_shmem 86016 139637976727552 "/tmp/seg"))
               PMIX_GDS_SHMEM_MODEX_ID empty_buffer)))
    unpacked_seg_blob_construct
  = (PMIX_SUCCESS,
     mk_usb (Some "nsA") PMIX_GDS_SHMEM_MODEX_ID (Some "/tmp/seg")
            86016 139637976727552).
Proof.
  apply (connection_info_round_trip example_host
           (set_modex_shmem example_job
              (mk_shmem 86016 139637976727552 "/tmp/seg"))
           PMIX_GDS_SHMEM_MODEX_ID
           (mk_shmem 86016 139637976727552 "/tmp/seg"));
    first [reflexivity | (simpl; lia)].
Defined.

(* ================================================================== *)
(** ** The MODEX segment is created once *)

Lemma find_job_nspace nspace jobs job :
  find_job nspace jobs = Some job -> nspace_id job = nspace.
Proof.
  induction jobs as [| ti rest IH]; simpl; [discriminate |].
  destruct (String.eqb nspace (nspace_id ti)) eqn:E.
  - intros H. injection H as <-. apply String.eqb_eq in E. auto.
  - exact IH.
Qed.

Lemma find_job_put_job nspace jobs job job' :
  find_job nspace jobs = Some job ->
  nspace_id job' = nspace ->
  find_job nspace (put_job job' jobs) = Some job'.
Proof.
  intros Hf Hn. subst nspace.
  induction jobs as [| ti rest IH]; simpl in *; [discriminate |].
  destruct (String.eqb (nspace_id job') (nspace_id ti)) eqn:E.
  - simpl. rewrite String.eqb_refl. reflexivity.
  - simpl. rewrite E. apply IH. exact Hf.
Qed.

Lemma nspace_id_put_job_shmem job id s :
  nspace_id (put_job_shmem job id s) = nspace_id job.
Proof. unfold put_job_shmem. repeat break_match; reflexivity. Qed.

Lemma nspace_id_set_status job id flag :
  nspace_id (pmix_gds_shmem_set_status job id flag) = nspace_id job.
Proof. unfold pmix_gds_shmem_set_status. repeat break_match; reflexivity. Qed.

Lemma nspace_id_shmem_attach host job id req :
  nspace_id (snd (fst (shmem_attach host job id req))) = nspace_id job.
Proof.
  destruct (get_job_shmem_by_id_total job id) as [(s & Hs & R) | (Hs & R)].
  - pose proof (shmem_attach_role host job id req s Hs) as H.
    destruct (segment_attach host s req) as [rc m].
    destruct rc; try (rewrite H; reflexivity).
    simpl in H. destruct (to_uintptr_t m =? req); rewrite H; simpl;
      rewrite ?nspace_id_set_status, nspace_id_put_job_shmem; reflexivity.
  - rewrite shmem_attach_not_role by exact R. reflexivity.
Qed.





Lemma get_job_tracker_found host jobs nspace create job :
  find_job nspace jobs = Some job ->
  pmix_gds_shmem_get_job_tracker host jobs nspace create
  = (PMIX_SUCCESS, Some job, jobs).
Proof.
  intros H. unfold pmix_gds_shmem_get_job_tracker. rewrite H. reflexivity.
Qed.



(* ================================================================== *)
(** ** The size estimate, numerically *)











(* ================================================================== *)
(** * Further properties *)

(** ** Reading numbers *)

Lemma fmt_digits_64_head base n :
  exists c r, fmt_digits 64 base n "" = String c r.
Proof.
  change (fmt_digits 64 base n "")
    with (let acc' := String (digit_char (n mod base)) "" in
          if n / base =? 0 then acc'
          else fmt_digits 63 base (n / base) acc').
  cbv zeta. destruct (n / base =? 0); [eauto |].
  apply fmt_digits_nonempty.
Qed.

(** What [strtoll] makes of the digits of [n]. *)
Lemma strtoll_fmt_digits base n :
  2 <= base <= 16 -> 0 <= n < 2 ^ 64 ->
  strtoll (fmt_digits 64 base n "") base
  = if n >? LLONG_MAX then (LLONG_MAX, "", true) else (n, "", false).
Proof.
  intros Hb Hn.
  assert (Hfuel : 0 <= n < base ^ Z.of_nat 64).
  { split; [lia |].
    apply Z.lt_le_trans with (2 ^ Z.of_nat 64); [exact (proj2 Hn) |].
    apply Z.pow_le_mono_l. lia. }
  destruct (scan_digits_fmt_digits base Hb 64 n "" Hfuel) as (d & _ & Hscan).
  assert (Hdig : digits_only base (fmt_digits 64 base n ""))
    by (apply fmt_digits_digits_only; [lia | exact I]).
  destruct (fmt_digits_64_head base n) as (c & r & Hcr).
  rewrite Hcr in Hdig |- *.
  rewrite strtoll_digits_only by assumption.
  rewrite <- Hcr, Hscan. simpl scan_digits.
  replace (0 * base ^ d + n) with n by lia.
  cbv beta iota.
  destruct (n >? LLONG_MAX) eqn:E1; [reflexivity |].
  destruct (n <? LLONG_MIN) eqn:E2; [| reflexivity].
  apply Z.ltb_lt in E2. unfold LLONG_MIN in E2. lia.
Qed.

(** X1: over the whole range of [size_t], [strtost] reads back the
    hexadecimal text of a value exactly when the value is below [2^63];
    from [2^63] on it fails and stores 0. *)
Theorem strtost_reads_hex_below_2p63 (v : Z) :
  0 <= v < 2 ^ 64 ->
  strtost (fmt_zx v) 16
  = if v <? 2 ^ 63 then (PMIX_SUCCESS, v) else (PMIX_ERROR, 0).
Proof.
  intros Hv. unfold strtost, fmt_zx.
  rewrite to_size_t_small by exact Hv.
  rewrite strtoll_fmt_digits by (try lia; exact Hv).
  destruct (v <? 2 ^ 63) eqn:E.
  - apply Z.ltb_lt in E.
    destruct (v >? LLONG_MAX) eqn:E1;
      [apply Z.gtb_lt in E1; unfold LLONG_MAX in E1; lia |].
    cbv beta iota. cbn [andb orb negb String.eqb].
    rewrite to_size_t_small by exact Hv. reflexivity.
  - apply Z.ltb_ge in E.
    destruct (v >? LLONG_MAX) eqn:E1.
    + reflexivity.
    + rewrite Z.gtb_ltb in E1. apply Z.ltb_ge in E1.
      unfold LLONG_MAX in E1. lia.
Qed.

Lemma strtost_reads_hex_below_2p63_witness :
  strtost (fmt_zx (2 ^ 63 - 1)) 16 = (PMIX_SUCCESS, 2 ^ 63 - 1)
  /\ strtost (fmt_zx (2 ^ 64 - 1)) 16 = (PMIX_ERROR, 0).
Proof.
  split.
  - apply (strtost_reads_hex_below_2p63 (2 ^ 63 - 1)). lia.
  - apply (strtost_reads_hex_below_2p63 (2 ^ 64 - 1)). lia.
Defined.

Lemma strtoll_minus s base :
  strtoll (String "-" s) base
  = let s3 := scan_hex_prefix base s in
    if starts_with_digit base s3 then
      let '(mag, rest) := scan_digits base 0 s3 in
      if - mag >? LLONG_MAX then (LLONG_MAX, rest, true)
      else if - mag <? LLONG_MIN then (LLONG_MIN, rest, true)
      else (- mag, rest, false)
    else (0, String "-" s, false).
Proof. reflexivity. Qed.

(** X2: [strtost] accepts a minus sign: the decimal text of [-n], for [n]
    up to [2^63], is read as the [size_t] value [2^64 - n]. *)
Theorem strtost_wraps_negative (n : Z) :
  0 < n <= 2 ^ 63 ->
  strtost (String "-" (fmt_digits 64 10 n "")) 10
  = (PMIX_SUCCESS, 2 ^ 64 - n).
Proof.
  intros Hn.
  assert (Hb : 2 <= 10 <= 16) by lia.
  assert (Hfuel : 0 <= n < 10 ^ Z.of_nat 64).
  { split; [lia |].
    apply Z.le_lt_trans with (2 ^ 63); [lia | reflexivity]. }
  destruct (scan_digits_fmt_digits 10 Hb 64 n "" Hfuel) as (d & _ & Hscan).
  assert (Hdig : digits_only 10 (fmt_digits 64 10 n ""))
    by (apply fmt_digits_digits_only; [lia | exact I]).
  destruct (fmt_digits_64_head 10 n) as (c & r & Hcr).
  assert (Hstart : starts_with_digit 10 (String c r) = true).
  { rewrite Hcr in Hdig. destruct Hdig as [(m & Hm & ->) _].
    destruct (digit_char_facts m ltac:(lia)) as (Hv & _).
    unfold starts_with_digit, is_digit_in. rewrite Hv.
    apply Z.ltb_lt. lia. }
  assert (Hpre : scan_hex_prefix 10 (fmt_digits 64 10 n "")
                 = fmt_digits 64 10 n "").
  { rewrite Hcr. unfold scan_hex_prefix.
    destruct r as [| x [| c2 r2]]; reflexivity. }
  unfold strtost. rewrite strtoll_minus. cbv zeta.
  rewrite Hpre.
  rewrite Hcr at 1. rewrite Hstart. rewrite Hscan. simpl scan_digits.
  replace (0 * 10 ^ d + n) with n by lia. cbv beta iota.
  destruct (- n >? LLONG_MAX) eqn:E1;
    [apply Z.gtb_lt in E1; unfold LLONG_MAX in E1; lia |].
  destruct (- n <? LLONG_MIN) eqn:E2;
    [apply Z.ltb_lt in E2; unfold LLONG_MIN in E2; lia |].
  cbv beta iota. cbn [andb orb negb String.eqb].
  f_equal. unfold to_size_t, SIZE_WIDTH.
  replace (- n) with ((2 ^ 64 - n) + (-1) * 2 ^ 64) by lia.
  rewrite Z.mod_add by lia. apply Z.mod_small. lia.
Qed.

Lemma strtost_wraps_negative_witness :
  strtost "-1" 10 = (PMIX_SUCCESS, 2 ^ 64 - 1).
Proof. apply (strtost_wraps_negative 1). lia. Defined.

(* ================================================================== *)
(** ** Reservations of the arena *)

(** Without wrap-around, aligning moves forward by less than 8. *)
Lemma addr_align_bounds (base sz : Z) :
  0 <= base + sz -> base + sz + 7 < 2 ^ 64 ->
  base + sz <= addr_align base sz < base + sz + 8.
Proof.
  intros H0 H1. unfold addr_align.
  rewrite land_mask8 by apply to_size_t_range.
  unfold to_uintptr_t, SIZE_WIDTH. rewrite Z.mod_small by lia.
  pose proof (Z.div_mod (base + sz + 7) 8 ltac:(lia)) as D.
  pose proof (Z.mod_pos_bound (base + sz + 7) 8 ltac:(lia)) as B.
  lia.
Qed.

(** X3: when the cursor does not wrap around, each of the four allocators
    returns the old cursor and leaves the new cursor 8-aligned, at or after
    the end of the bytes reserved and less than 8 bytes past it; so what is
    allocated next cannot overlap. *)
Theorem tma_allocators_reserve
    (tma : pmix_tma_t) (n nmemb sz : Z) (s : string) :
  0 <= data_ptr tma ->
  (0 <= n -> data_ptr tma + n + 7 < 2 ^ 64 ->
   fst (tma_malloc tma n) = data_ptr tma
   /\ data_ptr tma + n <= data_ptr (snd (tma_malloc tma n))
      < data_ptr tma + n + 8
   /\ data_ptr (snd (tma_malloc tma n)) mod 8 = 0
   /\ snd (tma_memmove tma n) = snd (tma_malloc tma n)
   /\ fst (tma_memmove tma n) = data_ptr tma)
  /\ (0 <= nmemb * sz -> data_ptr tma + nmemb * sz + 7 < 2 ^ 64 ->
      fst (tma_calloc tma nmemb sz) = data_ptr tma
      /\ data_ptr tma + nmemb * sz
         <= data_ptr (snd (tma_calloc tma nmemb sz))
         < data_ptr tma + nmemb * sz + 8
      /\ data_ptr (snd (tma_calloc tma nmemb sz)) mod 8 = 0)
  /\ (data_ptr tma + Z.of_nat (String.length s) + 8 < 2 ^ 64 ->
      fst (tma_strdup tma s) = data_ptr tma
      /\ data_ptr tma + Z.of_nat (String.length s) + 1
         <= data_ptr (snd (tma_strdup tma s))
         < data_ptr tma + Z.of_nat (String.length s) + 9
      /\ data_ptr (snd (tma_strdup tma s)) mod 8 = 0).
Proof.
  intros Hc. split; [| split].
  - intros Hn Hfit. simpl.
    split; [reflexivity |].
    split; [apply addr_align_bounds; lia |].
    split; [apply addr_align_mod8 |]. split; reflexivity.
  - intros Hn Hfit. simpl.
    rewrite to_size_t_small by lia.
    split; [reflexivity |].
    split; [apply addr_align_bounds; lia | apply addr_align_mod8].
  - intros Hfit. simpl.
    rewrite to_size_t_small by lia.
    split; [reflexivity |].
    split; [| apply addr_align_mod8].
    pose proof (addr_align_bounds (data_ptr tma)
                  (Z.of_nat (String.length s) + 1)
                  ltac:(lia) ltac:(lia)).
    lia.
Qed.

Lemma tma_allocators_reserve_witness :
  data_ptr (snd (tma_calloc (mk_tma 4096) 3 5)) = 4112
  /\ 4096 + 3 * 5 <= data_ptr (snd (tma_calloc (mk_tma 4096) 3 5))
     < 4096 + 3 * 5 + 8.
Proof.
  split; [reflexivity |].
  apply (tma_allocators_reserve (mk_tma 4096) 0 3 5 "");
    simpl; lia.
Defined.

(** X4: [tma_calloc] multiplies in [size_t] without a check.  When the
    product of count and element size does not fit, the cursor is returned
    all the same, as for a request of the product modulo [2^64], and the
    cursor stops short of the end of the bytes asked for. *)
Theorem tma_calloc_overflow_is_silent (tma : pmix_tma_t) (nmemb sz : Z) :
  0 <= data_ptr tma ->
  2 ^ 64 <= nmemb * sz ->
  fst (tma_calloc tma nmemb sz) = data_ptr tma
  /\ tma_calloc tma nmemb sz = tma_malloc tma ((nmemb * sz) mod 2 ^ 64)
  /\ data_ptr (snd (tma_calloc tma nmemb sz)) < data_ptr tma + nmemb * sz.
Proof.
  intros Hc Hp. split; [reflexivity |]. split; [reflexivity |].
  unfold tma_calloc. cbn [snd data_ptr]. unfold addr_align.
  rewrite land_mask8 by apply to_size_t_range.
  match goal with
  | |- 8 * (?x / 8) < _ =>
      pose proof (to_size_t_range (data_ptr tma + to_size_t (nmemb * sz) + 7))
        as R;
      change x with (to_size_t (data_ptr tma + to_size_t (nmemb * sz) + 7));
      pose proof (Z.mul_div_le
                    (to_size_t (data_ptr tma + to_size_t (nmemb * sz) + 7))
                    8 ltac:(lia))
  end.
  lia.
Qed.

Lemma tma_calloc_overflow_is_silent_witness :
  data_ptr (snd (tma_calloc (mk_tma 4096) (2 ^ 32) (2 ^ 32 + 1)))
  < 4096 + 2 ^ 32 * (2 ^ 32 + 1).
Proof.
  destruct (tma_calloc_overflow_is_silent (mk_tma 4096) (2 ^ 32)
              (2 ^ 32 + 1)) as (_ & _ & H); [simpl; lia | lia |].
  exact H.
Defined.

(* ================================================================== *)
(** ** Padding to pages *)

(** X5: for a page size [2^k] the padding is less than a page, it is 0
    exactly for a size that is a multiple of the page size, and the padded
    size is a multiple of the page size. *)
Theorem pad_amount_to_page_bounds (k s : Z) :
  0 <= k < 64 -> 0 <= s < 2 ^ 64 ->
  0 <= pad_amount_to_page (2 ^ k) s < 2 ^ k
  /\ (pad_amount_to_page (2 ^ k) s = 0 <-> s mod 2 ^ k = 0)
  /\ (s + pad_amount_to_page (2 ^ k) s) mod 2 ^ k = 0.
Proof.
  intros Hk Hs.
  assert (Hp : 0 < 2 ^ k) by (apply Z.pow_pos_nonneg; lia).
  rewrite pad_amount_to_page_mod by assumption.
  pose proof (Z.mod_pos_bound (- s) (2 ^ k) Hp) as B.
  split; [exact B |]. split.
  - split; intros H.
    + apply Z.mod_divide in H; [| lia].
      apply Z.mod_divide; [lia |].
      destruct H as [q Hq]. exists (- q). lia.
    + apply Z.mod_divide in H; [| lia].
      apply Z.mod_divide; [lia |].
      destruct H as [q Hq]. exists (- q). lia.
  - rewrite round_up_to_multiple_pad by exact Hp.
    unfold round_up_to_multiple. apply Z.mod_mul. lia.
Qed.

Lemma pad_amount_to_page_bounds_witness :
  0 <= pad_amount_to_page (2 ^ 12) 8192 < 2 ^ 12
  /\ pad_amount_to_page (2 ^ 12) 8192 = 0.
Proof.
  destruct (pad_amount_to_page_bounds 12 8192) as (B & E & _);
    [lia | lia |].
  split; [exact B | apply E; reflexivity].
Defined.

(** X6: when [sysconf] fails, [get_page_size] is 0 and every request is
    padded to the real size 0. *)
Theorem page_size_failure_gives_size_zero (s : Z) :
  0 <= s < 2 ^ 64 ->
  get_page_size (-1) = 0 /\ real_segsize (-1) s = 0.
Proof.
  intros Hs. split; [reflexivity |].
  unfold real_segsize, pad_amount_to_page. change (get_page_size (-1)) with 0.
  change (to_size_t (0 - 1)) with (Z.ones 64).
  rewrite Z.land_ones by lia.
  change (2 ^ 64) with (2 ^ SIZE_WIDTH).
  fold (to_size_t (to_size_t (to_size_t (Z.lnot s) + 0 + 1))).
  rewrite to_size_t_idemp.
  unfold to_size_t, SIZE_WIDTH.
  replace (Z.lnot s mod 2 ^ 64 + 0 + 1) with (Z.lnot s mod 2 ^ 64 + 1) by lia.
  rewrite Z.add_mod_idemp_l, Z.add_mod_idemp_r by lia.
  unfold Z.lnot. replace (s + (Z.pred (- s) + 1)) with 0 by lia.
  reflexivity.
Qed.

Lemma page_size_failure_gives_size_zero_witness :
  real_segsize (-1) 4097 = 0.
Proof. apply (page_size_failure_gives_size_zero 4097). lia. Defined.

(* ================================================================== *)
(** ** The backing path *)

(** X7: the base directory.  A failed fetch of [PMIX_NSDIR] ends the search
    of the key store ([PMIX_TMPDIR] is not asked for) and the environment's
    [TMPDIR], else ["/tmp"], is used; a fetched directory is used only when
    it is shorter than [PMIX_PATH_MAX], and an over-long [PMIX_NSDIR] makes
    way for [PMIX_TMPDIR]. *)
Theorem fetch_base_tmpdir_priority
    (host : host_t) (job : pmix_gds_shmem_job_t) :
  let fallback :=
    match getenv_TMPDIR host with Some t => t | None => "/tmp" end in
  (fst (gds_fetch_kv host PMIX_NSDIR) <> PMIX_SUCCESS ->
     fetch_base_tmpdir host job = fallback)
  /\ (forall d,
        gds_fetch_kv host PMIX_NSDIR = (PMIX_SUCCESS, d) ->
        Z.of_nat (String.length d) < PMIX_PATH_MAX host ->
        fetch_base_tmpdir host job = d)
  /\ (forall d t,
        gds_fetch_kv host PMIX_NSDIR = (PMIX_SUCCESS, d) ->
        PMIX_PATH_MAX host <= Z.of_nat (String.length d) ->
        gds_fetch_kv host PMIX_TMPDIR = (PMIX_SUCCESS, t) ->
        fetch_base_tmpdir host job
        = if Z.of_nat (String.length t) >=? PMIX_PATH_MAX host
          then fallback else t)
  /\ (fetch_base_tmpdir host job = fallback
      \/ Z.of_nat (String.length (fetch_base_tmpdir host job))
         < PMIX_PATH_MAX host).
Proof.
  cbv zeta. unfold fetch_base_tmpdir. simpl.
  split; [| split; [| split]].
  - intros H. destruct (gds_fetch_kv host PMIX_NSDIR) as [rc v].
    simpl in H. destruct rc; try reflexivity. congruence.
  - intros d H Hlen. rewrite H.
    destruct (Z.of_nat (String.length d) >=? PMIX_PATH_MAX host) eqn:E;
      [| reflexivity].
    rewrite Z.geb_leb in E. apply Z.leb_le in E. lia.
  - intros d t H Hlen Ht. rewrite H, Ht.
    destruct (Z.of_nat (String.length d) >=? PMIX_PATH_MAX host) eqn:E.
    + destruct (Z.of_nat (String.length t) >=? PMIX_PATH_MAX host);
        reflexivity.
    + rewrite Z.geb_leb in E. apply Z.leb_gt in E. lia.
  - destruct (gds_fetch_kv host PMIX_NSDIR) as [rc v].
    destruct rc; try (left; reflexivity).
    destruct (Z.of_nat (String.length v) >=? PMIX_PATH_MAX host) eqn:E.
    + destruct (gds_fetch_kv host PMIX_TMPDIR) as [rc2 v2].
      destruct rc2; try (left; reflexivity).
      destruct (Z.of_nat (String.length v2) >=? PMIX_PATH_MAX host) eqn:E2;
        [left; reflexivity |].
      right. rewrite Z.geb_leb in E2. apply Z.leb_gt in E2. exact E2.
    + right. rewrite Z.geb_leb in E. apply Z.leb_gt in E. exact E.
Qed.

Lemma fetch_base_tmpdir_priority_witness :
  fetch_base_tmpdir example_host example_job = "/tmp".
Proof.
  destruct (fetch_base_tmpdir_priority example_host example_job) as (H & _).
  apply H. simpl. discriminate.
Defined.

Lemma append_cancel_l (p a b : string) : p ++ a = p ++ b -> a = b.
Proof.
  induction p as [| c p IH]; simpl; intros H; [exact H |].
  injection H as H. apply IH. exact H.
Qed.

Lemma string_cons_cancel (c : ascii) (a b : string) :
  String c a = String c b -> a = b.
Proof. intros H. injection H as H. exact H. Qed.

(** X8: a backing path handed out is shorter than [PMIX_PATH_MAX], and the
    paths of the job segment and of the modex segment of one tracker
    differ. *)
Theorem backing_paths_bounded_and_distinct
    (host : host_t) (job : pmix_gds_shmem_job_t) (id p1 p2 : string) :
  (get_shmem_backing_path host job id = Some p1 ->
     Z.of_nat (String.length p1) < PMIX_PATH_MAX host)
  /\ (get_shmem_backing_path host job "jobdata" = Some p1 ->
      get_shmem_backing_path host job "modexdata" = Some p2 ->
      p1 <> p2).
Proof.
  unfold get_shmem_backing_path. split.
  - destruct (_ >=? _) eqn:E; [discriminate |].
    intros H. injection H as <-.
    rewrite Z.geb_leb in E. apply Z.leb_gt in E. exact E.
  - destruct (_ >=? _); [discriminate |].
    destruct (_ >=? _); [discriminate |].
    intros H1 H2 Heq. injection H1 as <-. injection H2 as <-.
    simpl in Heq.
    repeat first [ apply string_cons_cancel in Heq
                 | apply append_cancel_l in Heq ].
    discriminate.
Qed.

Lemma backing_paths_bounded_and_distinct_witness :
  "/tmp/pmix-gds-shmem.node0-nsA.jobdata.4242"
  <> "/tmp/pmix-gds-shmem.node0-nsA.modexdata.4242".
Proof.
  apply (backing_paths_bounded_and_distinct example_host example_job
           "jobdata"); reflexivity.
Defined.

(* ================================================================== *)
(** ** Creating a segment: what a failure leaves behind *)

(** X9: when no hole of virtual memory is found, or when the backing path
    does not fit, [shmem_segment_create_and_attach] creates no file, maps
    nothing and leaves the tracker as it was; it returns the status of the
    hole finder, respectively [PMIX_ERROR]. *)
Theorem create_and_attach_fails_early
    (host : host_t) (job : pmix_gds_shmem_job_t) (shmem_id : Z)
    (segment_name : string) (segment_size : Z) :
  let real := real_segsize (sysconf_page_size host) segment_size in
  (fst (vmem_find_hole host real) <> PMIX_SUCCESS ->
     shmem_segment_create_and_attach host job shmem_id segment_name
                                     segment_size
     = (fst (vmem_find_hole host real), job, []))
  /\ (fst (vmem_find_hole host real) = PMIX_SUCCESS ->
      get_shmem_backing_path host job segment_name = None ->
      shmem_segment_create_and_attach host job shmem_id segment_name
                                      segment_size
      = (PMIX_ERROR, job, []))
  /\ (fst (vmem_find_hole host real) = PMIX_SUCCESS ->
      forall path,
        get_shmem_backing_path host job segment_name = Some path ->
        is_role shmem_id = true ->
        segment_create host path real <> PMIX_SUCCESS ->
        shmem_segment_create_and_attach host job shmem_id segment_name
                                        segment_size
        = (segment_create host path real, job, [])).
Proof.
  cbv zeta. unfold shmem_segment_create_and_attach.
  destruct (vmem_find_hole host
              (real_segsize (sysconf_page_size host) segment_size))
    as [rc0 base].
  simpl. split; [| split].
  - intros H. destruct rc0; try reflexivity. congruence.
  - intros -> Hp. rewrite Hp. reflexivity.
  - intros -> path Hp R Hc. rewrite Hp.
    destruct (get_job_shmem_by_id_total job shmem_id)
      as [(s & Hs & _) | (_ & R')]; [| congruence].
    rewrite Hs. unfold pmix_shmem_segment_create.
    destruct (segment_create host path
                (real_segsize (sysconf_page_size host) segment_size));
      try reflexivity.
    congruence.
Qed.

Lemma create_and_attach_fails_early_witness :
  shmem_segment_create_and_attach no_hole_host example_job
    PMIX_GDS_SHMEM_JOB_ID "jobdata" 4097
  = (PMIX_ERR_NOT_FOUND, example_job, []).
Proof.
  destruct (create_and_attach_fails_early no_hole_host example_job
              PMIX_GDS_SHMEM_JOB_ID "jobdata" 4097) as (H & _).
  apply H. simpl. discriminate.
Defined.

(* ================================================================== *)
(** ** The client side *)

Lemma substring_all (s : string) (n : nat) :
  (String.length s <= n)%nat -> String.substring 0 n s = s.
Proof.
  revert n. induction s as [| c s IH]; intros n Hn.
  - destruct n; reflexivity.
  - destruct n as [| n]; simpl in Hn; [lia |].
    simpl. rewrite IH by lia. reflexivity.
Qed.

(** X10: when [shmem_segment_attach_and_init] succeeds, the role is a role of
    the tracker, its segment holds the transmitted size, the transmitted
    address and the transmitted path cut to the path buffer, the header
    pointer of the role is that address, and exactly one mapping was made;
    when it fails, no flag and no header pointer of the tracker changes. *)
Theorem client_attach_installs_segment
    (host : host_t) (job : pmix_gds_shmem_job_t)
    (usb : pmix_gds_shmem_unpacked_seg_blob_t) :
  let R := shmem_segment_attach_and_init host job usb in
  let job' := snd (fst R) in
  let addr := to_uintptr_t (seg_addr usb) in
  let path := pmix_string_copy (c_str (seg_path usb)) (PMIX_PATH_MAX host) in
  (fst (fst R) = PMIX_SUCCESS ->
     is_role (smid usb) = true
     /\ pmix_gds_shmem_get_job_shmem_by_id job' (smid usb)
        = (PMIX_SUCCESS, Some (mk_shmem (seg_size usb) addr path))
     /\ (smid usb = PMIX_GDS_SHMEM_JOB_ID -> smdata job' = addr)
     /\ (smid usb = PMIX_GDS_SHMEM_MODEX_ID -> smmodex job' = addr)
     /\ snd R = [Ev_segment_attach path addr])
  /\ (fst (fst R) <> PMIX_SUCCESS ->
      (forall id, job_status job' id = job_status job id)
      /\ smdata job' = smdata job /\ smmodex job' = smmodex job).
Proof.
  cbv zeta. destruct usb as [ns sid sp ssz sad]. cbn [smid seg_size seg_addr
    seg_path].
  unfold shmem_segment_attach_and_init. cbn [smid seg_size seg_addr seg_path].
  destruct (get_job_shmem_by_id_total job sid) as [(s & Hs & R) | (Hs & R)];
    rewrite Hs.
  2: { split; [discriminate |]. intros _. repeat split. }
  set (s1 := mk_shmem ssz (base_address s)
               (pmix_string_copy (c_str sp) (PMIX_PATH_MAX host))).
  set (req := to_uintptr_t sad).
  pose proof (shmem_attach_role host (put_job_shmem job sid s1) sid req s1
                (get_put_job_shmem job sid s1 R)) as HA.
  destruct (segment_attach host s1 req) as [rc m].
  destruct rc;
    try (rewrite HA; simpl; split; [discriminate |]; intros _;
         split; [intros id; rewrite !job_status_put_job_shmem; reflexivity |];
         unfold put_job_shmem; repeat break_match; split; reflexivity).
  simpl in HA. destruct (to_uintptr_t m =? req) eqn:E; rewrite HA.
  - apply Z.eqb_eq in E. cbn [fst snd].
    destruct (is_role_cases sid R) as [-> | ->]; simpl;
      (split; [| intros F; congruence]); intros _;
      rewrite E; repeat split; intros F; discriminate.
  - cbn [fst snd]. split; [discriminate |]. intros _.
    split; [intros id; rewrite !job_status_put_job_shmem; reflexivity |].
    unfold put_job_shmem; repeat break_match; split; reflexivity.
Qed.

Lemma client_attach_installs_segment_witness :
  snd (fst (shmem_segment_attach_and_init example_host example_job
              (mk_usb (Some "nsA") PMIX_GDS_SHMEM_JOB_ID (Some "/tmp/seg")
                      8192 1048576)))
  = mk_job "nsA" 4 3 (mk_shmem 8192 1048576 "/tmp/seg") 1048576
           0 new_shmem NULL
  /\ smdata (snd (fst (shmem_segment_attach_and_init no_mmap_host example_job
              (mk_usb (Some "nsA") PMIX_GDS_SHMEM_JOB_ID (Some "/tmp/seg")
                      8192 1048576))))
     = smdata example_job.
Proof.
  split; [reflexivity |].
  destruct (client_attach_installs_segment no_mmap_host example_job
              (mk_usb (Some "nsA") PMIX_GDS_SHMEM_JOB_ID (Some "/tmp/seg")
                      8192 1048576)) as (_ & H).
  apply H. simpl. discriminate.
Defined.

Lemma find_job_app_new nspace jobs job :
  find_job nspace jobs = None -> nspace_id job = nspace ->
  find_job nspace (jobs ++ [job])%list = Some job.
Proof.
  intros Hf Hn. induction jobs as [| ti rest IH]; simpl in *.
  - rewrite Hn, String.eqb_refl. reflexivity.
  - destruct (String.eqb nspace (nspace_id ti)); [discriminate |].
    apply IH. exact Hf.
Qed.

(** Asked to create, the tracker lookup always ends with the tracker of the
    namespace in the list. *)
Lemma get_job_tracker_create host jobs nspace :
  exists job jobs1,
    pmix_gds_shmem_get_job_tracker host jobs nspace true
    = (PMIX_SUCCESS, Some job, jobs1)
    /\ find_job nspace jobs1 = Some job
    /\ ((find_job nspace jobs = Some job /\ jobs1 = jobs)
        \/ (find_job nspace jobs = None
            /\ job = job_construct nspace (nspace_nprocs host nspace)
            /\ jobs1 = (jobs ++ [job])%list)).
Proof.
  unfold pmix_gds_shmem_get_job_tracker.
  destruct (find_job nspace jobs) as [job |] eqn:F.
  - exists job, jobs. auto.
  - eexists. eexists. split; [reflexivity |]. split.
    + apply find_job_app_new; [exact F | reflexivity].
    + right. auto.
Qed.

Lemma nspace_id_init_client_side_sm_data job id :
  nspace_id (snd (init_client_side_sm_data job id)) = nspace_id job.
Proof.
  unfold init_client_side_sm_data.
  repeat break_match; simpl; rewrite ?nspace_id_set_status; reflexivity.
Qed.

Lemma nspace_id_attach_and_init host job usb :
  nspace_id (snd (fst (shmem_segment_attach_and_init host job usb)))
  = nspace_id job.
Proof.
  unfold shmem_segment_attach_and_init.
  destruct (get_job_shmem_by_id_total job (smid usb))
    as [(s & Hs & R) | (Hs & R)]; rewrite Hs; [| reflexivity].
  match goal with
  | |- context [shmem_attach host ?j ?i ?r] =>
      pose proof (nspace_id_shmem_attach host j i r) as HA;
      destruct (shmem_attach host j i r) as [[rcA jobA] evA]
  end.
  simpl in HA. rewrite nspace_id_put_job_shmem in HA.
  destruct rcA; simpl; try exact HA.
  pose proof (nspace_id_init_client_side_sm_data jobA (smid usb)) as HI.
  destruct (init_client_side_sm_data jobA (smid usb)) as [rcI jobI].
  simpl in *. congruence.
Qed.

Lemma attached_after_lor (x : Z) :
  negb (Z.land (Z.lor (Z.lor x PMIX_GDS_SHMEM_ATTACHED)
                      PMIX_GDS_SHMEM_READY_FOR_USE)
               PMIX_GDS_SHMEM_ATTACHED =? 0) = true.
Proof.
  rewrite !Z.land_lor_distr_l.
  change (Z.land PMIX_GDS_SHMEM_ATTACHED PMIX_GDS_SHMEM_ATTACHED) with 1.
  change (Z.land PMIX_GDS_SHMEM_READY_FOR_USE PMIX_GDS_SHMEM_ATTACHED) with 0.
  rewrite Z.lor_0_r.
  destruct (Z.lor (Z.land x PMIX_GDS_SHMEM_ATTACHED) 1 =? 0) eqn:E;
    [| reflexivity].
  apply Z.eqb_eq in E. apply Z.lor_eq_0_iff in E. lia.
Qed.

(** X11: a blob delivered a second time is ignored: after a successful
    [unpack_shmem_seg_blob_and_attach_if_necessary], the same blob again
    returns success, changes no tracker and maps nothing. *)
Theorem second_delivery_is_ignored
    (host : host_t) (jobs : list pmix_gds_shmem_job_t) (kvbo : pmix_kval_t) :
  let R1 := unpack_shmem_seg_blob_and_attach_if_necessary host jobs kvbo in
  fst (fst R1) = PMIX_SUCCESS ->
  unpack_shmem_seg_blob_and_attach_if_necessary host (snd (fst R1)) kvbo
  = (PMIX_SUCCESS, snd (fst R1), []).
Proof.
  cbv zeta. unfold unpack_shmem_seg_blob_and_attach_if_necessary.
  destruct (unpack_shmem_connection_info kvbo unpacked_seg_blob_construct)
    as [rc usb].
  destruct rc; try discriminate.
  destruct (get_job_tracker_create host jobs (c_str (nsid usb)))
    as (job & jobs1 & HG & HF & _).
  rewrite HG.
  destruct (pmix_gds_shmem_has_status job (smid usb) PMIX_GDS_SHMEM_ATTACHED)
    eqn:HA.
  - intros _. cbn [fst snd].
    rewrite (get_job_tracker_found host jobs1 _ true job HF), HA.
    reflexivity.
  - pose proof (attach_and_init_success host job usb) as HS.
    pose proof (nspace_id_attach_and_init host job usb) as HN.
    destruct (shmem_segment_attach_and_init host job usb)
      as [[rcA jobA] evA].
    cbn [fst snd] in *. intros ->. specialize (HS eq_refl).
    assert (HF' : find_job (c_str (nsid usb)) (put_job jobA jobs1)
                  = Some jobA).
    { apply (find_job_put_job _ jobs1 job); [exact HF |].
      rewrite HN. apply (find_job_nspace _ jobs1 job HF). }
    rewrite (get_job_tracker_found host _ _ true jobA HF').
    unfold pmix_gds_shmem_has_status. rewrite HS, attached_after_lor.
    reflexivity.
Qed.

Lemma second_delivery_is_ignored_witness :
  unpack_shmem_seg_blob_and_attach_if_necessary example_host
    [mk_job "nsA" 4 3 (mk_shmem 8192 1048576 "/tmp/seg") 1048576
            0 new_shmem NULL]
    (SHMEM_SEG_BLOB_KEY,
     V_byte_object
       (mk_buffer 120
          [(SHMEM_SEG_NSID_KEY, "nsA"); (SHMEM_SEG_SMID_KEY, "0");
           (SHMEM_SEG_PATH_KEY, "/tmp/seg"); (SHMEM_SEG_SIZE_KEY, "2000");
           (SHMEM_SEG_ADDR_KEY, "100000")]
          PMIX_ERR_UNPACK_READ_PAST_END_OF_BUFFER))
  = (PMIX_SUCCESS,
     [mk_job "nsA" 4 3 (mk_shmem 8192 1048576 "/tmp/seg") 1048576
             0 new_shmem NULL], []).
Proof.
  apply (second_delivery_is_ignored example_host []
           (SHMEM_SEG_BLOB_KEY,
            V_byte_object
              (mk_buffer 120
                 [(SHMEM_SEG_NSID_KEY, "nsA"); (SHMEM_SEG_SMID_KEY, "0");
                  (SHMEM_SEG_PATH_KEY, "/tmp/seg");
                  (SHMEM_SEG_SIZE_KEY, "2000");
                  (SHMEM_SEG_ADDR_KEY, "100000")]
                 PMIX_ERR_UNPACK_READ_PAST_END_OF_BUFFER))).
  reflexivity.
Defined.

Lemma put_job_app_new job job' jobs :
  find_job (nspace_id job') jobs = None ->
  nspace_id job = nspace_id job' ->
  put_job job' (jobs ++ [job])%list = (jobs ++ [job'])%list.
Proof.
  intros Hf Hn. induction jobs as [| ti rest IH]; simpl in *.
  - rewrite Hn, String.eqb_refl. reflexivity.
  - destruct (String.eqb (nspace_id job') (nspace_id ti)); [discriminate |].
    rewrite IH by exact Hf. reflexivity.
Qed.

(** Unpacking the five entries of a segment, in the order they are
    packed. *)
Lemma unpack_loop_connection_info job id s :
  is_role id = true ->
  0 <= size s < 2 ^ 63 -> 0 <= base_address s < 2 ^ 63 ->
  unpack_shmem_connection_info_loop (connection_info job id s)
    PMIX_ERR_UNPACK_READ_PAST_END_OF_BUFFER unpacked_seg_blob_construct
  = (PMIX_ERR_UNPACK_READ_PAST_END_OF_BUFFER,
     mk_usb (Some (nspace_id job)) id (Some (backing_path s))
            (size s) (base_address s)).
Proof.
  intros R Hsize Haddr. unfold connection_info.
  rewrite unpack_loop_nsid, unpack_loop_smid.
  assert (Hid : 0 <= id < 2 ^ 63 /\ to_shmem_id id = id).
  { destruct (is_role_cases id R) as [-> | ->]; split;
      try reflexivity; unfold PMIX_GDS_SHMEM_JOB_ID, PMIX_GDS_SHMEM_MODEX_ID;
      lia. }
  destruct Hid as [Hid1 Hid2].
  rewrite (to_size_t_small id) by lia.
  rewrite strtost_fmt_zd by exact Hid1. rewrite Hid2.
  rewrite unpack_loop_path, unpack_loop_size.
  rewrite strtost_fmt_zx by exact Hsize.
  rewrite unpack_loop_addr.
  rewrite strtost_fmt_zx by exact Haddr.
  reflexivity.
Qed.

(** X12: publish and attach, end to end.  When the server packs the blob of
    a segment that is READY_FOR_USE (size and address below [2^63], path
    fitting the client's path buffer) and the client's kernel maps the file
    at the address asked for, [store_job_info] on the reply succeeds with a
    single mapping, and the client's new tracker for the namespace holds a
    segment with the server's size, base address and path, ATTACHED and
    READY_FOR_USE. *)
Theorem published_segment_attaches_identically
    (server client : host_t) (job : pmix_gds_shmem_job_t) (shmem_id : Z)
    (s : pmix_shmem_t) (reply : pmix_buffer_t pmix_value_t)
    (cjobs : list pmix_gds_shmem_job_t) :
  pmix_gds_shmem_get_job_shmem_by_id job shmem_id = (PMIX_SUCCESS, Some s) ->
  pmix_gds_shmem_has_status job shmem_id PMIX_GDS_SHMEM_READY_FOR_USE
  = true ->
  0 <= size s < 2 ^ 63 ->
  0 <= base_address s < 2 ^ 63 ->
  Z.of_nat (String.length (backing_path s)) < PMIX_PATH_MAX client ->
  pack_shmem_seg_blob server job shmem_id empty_buffer
  = (PMIX_SUCCESS, reply) ->
  find_job (nspace_id job) cjobs = None ->
  segment_attach client (mk_shmem (size s) NULL (backing_path s))
                 (base_address s)
  = (PMIX_SUCCESS, base_address s) ->
  let R := store_job_info client cjobs (nspace_id job) reply in
  fst (fst R) = PMIX_SUCCESS
  /\ snd R = [Ev_segment_attach (backing_path s) (base_address s)]
  /\ exists cjob,
       snd (fst R) = (cjobs ++ [cjob])%list
       /\ nspace_id cjob = nspace_id job
       /\ pmix_gds_shmem_get_job_shmem_by_id cjob shmem_id
          = (PMIX_SUCCESS, Some s)
       /\ job_status cjob shmem_id
          = Z.lor PMIX_GDS_SHMEM_ATTACHED PMIX_GDS_SHMEM_READY_FOR_USE.
Proof.
  intros Hget Hready Hsize Haddr Hpath Hpack Hfind Hatt.
  destruct (get_job_shmem_by_id_role _ _ _ _ Hget) as [_ R].
  (* the reply *)
  unfold pack_shmem_seg_blob in Hpack. rewrite Hready in Hpack.
  cbn [negb] in Hpack.
  destruct (pack_shmem_connection_info server job shmem_id empty_buffer)
    as [rcp buff] eqn:HP.
  assert (rcp = PMIX_SUCCESS) as ->
    by (destruct rcp; try reflexivity; inversion Hpack).
  unfold bfrops_pack in Hpack. cbn [fst snd] in Hpack.
  destruct (bfrops_pack_status server SHMEM_SEG_BLOB_KEY);
    try discriminate.
  injection Hpack as <-.
  (* the blob *)
  unfold pack_shmem_connection_info in HP. rewrite Hget in HP.
  apply bfrops_pack_all_success in HP. destruct HP as [Hp He].
  simpl in Hp, He.
  assert (HU : unpack_shmem_connection_info
                 (SHMEM_SEG_BLOB_KEY, V_byte_object buff)
                 unpacked_seg_blob_construct
               = (PMIX_SUCCESS,
                  mk_usb (Some (nspace_id job)) shmem_id
                         (Some (backing_path s)) (size s) (base_address s))).
  { unfold unpack_shmem_connection_info. cbn [snd]. rewrite Hp, He.
    rewrite unpack_loop_connection_info by assumption. reflexivity. }
  (* the client *)
  assert (Hcopy : pmix_string_copy (backing_path s) (PMIX_PATH_MAX client)
                  = backing_path s).
  { unfold pmix_string_copy. apply substring_all. lia. }
  assert (Hbase : to_uintptr_t (base_address s) = base_address s)
    by (apply to_size_t_small; lia).
  cbv zeta. unfold store_job_info. cbn [packed unpack_end app].
  cbn [store_job_info_loop].
  change (PMIX_CHECK_KEY (SHMEM_SEG_BLOB_KEY, V_byte_object buff)
            SHMEM_SEG_BLOB_KEY) with true. cbv iota.
  unfold unpack_shmem_seg_blob_and_attach_if_necessary. rewrite HU.
  cbn [nsid c_str smid].
  unfold pmix_gds_shmem_get_job_tracker. rewrite Hfind.
  set (cjob0 := job_construct (nspace_id job)
                  (nspace_nprocs client (nspace_id job))).
  destruct s as [ssz sbase spath]. cbn [size base_address backing_path] in *.
  assert (HA0 : pmix_gds_shmem_has_status cjob0 shmem_id
                  PMIX_GDS_SHMEM_ATTACHED = false)
    by (destruct (is_role_cases shmem_id R) as [-> | ->]; reflexivity).
  rewrite HA0.
  assert (HG0 : pmix_gds_shmem_get_job_shmem_by_id cjob0 shmem_id
                = (PMIX_SUCCESS, Some new_shmem))
    by (destruct (is_role_cases shmem_id R) as [-> | ->]; reflexivity).
  unfold shmem_segment_attach_and_init.
  cbn [smid seg_size seg_addr seg_path c_str]. rewrite HG0, Hcopy, Hbase.
  set (s1 := mk_shmem ssz (base_address new_shmem) spath).
  pose proof (shmem_attach_role client (put_job_shmem cjob0 shmem_id s1)
                shmem_id sbase s1 (get_put_job_shmem cjob0 shmem_id s1 R))
    as HA.
  change (segment_attach client s1 sbase)
    with (segment_attach client (mk_shmem ssz NULL spath) sbase) in HA.
  rewrite Hatt in HA. cbv zeta in HA. rewrite Hbase, Z.eqb_refl in HA.
  rewrite HA. subst s1 cjob0.
  destruct (is_role_cases shmem_id R) as [-> | ->].
  - cbn -[put_job app].
    split; [reflexivity |]. split; [reflexivity |].
    eexists. split; [apply put_job_app_new; [exact Hfind | reflexivity] |].
    repeat split.
  - cbn -[put_job app].
    split; [reflexivity |]. split; [reflexivity |].
    eexists. split; [apply put_job_app_new; [exact Hfind | reflexivity] |].
    repeat split.
Qed.

Lemma published_segment_attaches_identically_witness :
  fst (fst (store_job_info example_host [] "nsA"
              (snd (pack_shmem_seg_blob example_host published_job
                      PMIX_GDS_SHMEM_JOB_ID empty_buffer))))
  = PMIX_SUCCESS.
Proof.
  apply (published_segment_attaches_identically example_host example_host
           published_job PMIX_GDS_SHMEM_JOB_ID
           (mk_shmem 8192 139637976727552 "/tmp/seg")
           (snd (pack_shmem_seg_blob example_host published_job
                   PMIX_GDS_SHMEM_JOB_ID empty_buffer)) []);
    first [reflexivity | (simpl; lia)].
Defined.

(* ================================================================== *)
(** ** Publishing blobs *)

(** What a successful [pack_shmem_seg_blob] adds to the reply. *)
Lemma pack_shmem_seg_blob_success host job id reply reply' :
  pack_shmem_seg_blob host job id reply = (PMIX_SUCCESS, reply') ->
  packed reply'
  = (packed reply
     ++ (if pmix_gds_shmem_has_status job id PMIX_GDS_SHMEM_READY_FOR_USE
         then [seg_blob_of host (job, id)] else []))%list
  /\ unpack_end reply' = unpack_end reply.
Proof.
  unfold pack_shmem_seg_blob, seg_blob_of. cbn [fst snd].
  destruct (pmix_gds_shmem_has_status job id PMIX_GDS_SHMEM_READY_FOR_USE).
  - cbn [negb].
    destruct (pack_shmem_connection_info host job id empty_buffer)
      as [rc buff].
    destruct rc; try discriminate.
    unfold bfrops_pack. cbn [fst snd].
    destruct (bfrops_pack_status host SHMEM_SEG_BLOB_KEY); try discriminate.
    intros H. injection H as <-. split; reflexivity.
  - cbn [negb]. intros H. injection H as <-.
    rewrite app_nil_r. split; reflexivity.
Qed.

Lemma pack_shmem_seg_blob_accepting host job id reply :
  (forall k, bfrops_pack_status host k = PMIX_SUCCESS) ->
  is_role id = true ->
  fst (pack_shmem_seg_blob host job id reply) = PMIX_SUCCESS.
Proof.
  intros Hacc R. unfold pack_shmem_seg_blob.
  destruct (pmix_gds_shmem_has_status job id PMIX_GDS_SHMEM_READY_FOR_USE);
    [| reflexivity].
  cbn [negb]. unfold pack_shmem_connection_info.
  destruct (get_job_shmem_by_id_total job id) as [(s & Hs & _) | (_ & R')];
    [| congruence].
  rewrite Hs. unfold connection_info. cbn [bfrops_pack_all].
  unfold bfrops_pack. cbn [fst snd]. rewrite !Hacc. reflexivity.
Qed.

(** X13: [server_mark_modex_complete].  A namespace without a tracker makes
    it fail; when it succeeds, the reply has gained exactly the blobs of the
    roles that are READY_FOR_USE, JOB before MODEX for each namespace in
    turn, and nothing for a role that is not ready; and it succeeds when
    every namespace has a tracker and the codec accepts every pair. *)
Theorem mark_modex_complete_packs_ready_roles
    (host : host_t) (jobs : list pmix_gds_shmem_job_t)
    (nslist : list string) (reply : pmix_buffer_t pmix_value_t) :
  let R := server_mark_modex_complete host jobs nslist reply in
  (Exists (fun ns => find_job ns jobs = None) nslist ->
     fst R <> PMIX_SUCCESS)
  /\ (fst R = PMIX_SUCCESS ->
      packed (snd R)
      = (packed reply ++ map (seg_blob_of host) (ready_roles jobs nslist))%list
      /\ unpack_end (snd R) = unpack_end reply)
  /\ (Forall (fun ns => find_job ns jobs <> None) nslist ->
      (forall k, bfrops_pack_status host k = PMIX_SUCCESS) ->
      fst R = PMIX_SUCCESS).
Proof.
  cbv zeta. revert reply.
  induction nslist as [| nsi rest IH]; intros reply.
  - simpl. split; [intros H; inversion H |].
    split; [intros _; rewrite app_nil_r; split; reflexivity |].
    intros _ _. reflexivity.
  - cbn [server_mark_modex_complete ready_roles].
    unfold pmix_gds_shmem_get_job_tracker.
    destruct (find_job nsi jobs) as [job |] eqn:F.
    2: { cbn [fst snd]. split; [intros _; discriminate |].
         split; [discriminate |].
         intros H. inversion H; subst. congruence. }
    pose proof (pack_shmem_seg_blob_success host job PMIX_GDS_SHMEM_JOB_ID
                  reply) as P1.
    pose proof (pack_shmem_seg_blob_accepting host job PMIX_GDS_SHMEM_JOB_ID
                  reply) as A1.
    destruct (pack_shmem_seg_blob host job PMIX_GDS_SHMEM_JOB_ID reply)
      as [rc1 reply1].
    destruct rc1;
      try (cbn [fst snd]; split; [intros _; discriminate |];
           split; [discriminate |];
           intros _ Hacc; specialize (A1 Hacc eq_refl); discriminate A1).
    destruct (P1 reply1 eq_refl) as [P1a P1b].
    pose proof (pack_shmem_seg_blob_success host job PMIX_GDS_SHMEM_MODEX_ID
                  reply1) as P2.
    pose proof (pack_shmem_seg_blob_accepting host job
                  PMIX_GDS_SHMEM_MODEX_ID reply1) as A2.
    destruct (pack_shmem_seg_blob host job PMIX_GDS_SHMEM_MODEX_ID reply1)
      as [rc2 reply2].
    destruct rc2;
      try (cbn [fst snd]; split; [intros _; discriminate |];
           split; [discriminate |];
           intros _ Hacc; specialize (A2 Hacc eq_refl); discriminate A2).
    destruct (P2 reply2 eq_refl) as [P2a P2b].
    destruct (IH reply2) as (I1 & I2 & I3).
    split; [| split].
    + intros H. inversion H; subst; [congruence |]. apply I1. assumption.
    + intros Hrc. destruct (I2 Hrc) as [E1 E2].
      rewrite E1, E2, P2a, P2b, P1a, P1b.
      split; [| reflexivity].
      destruct (pmix_gds_shmem_has_status job PMIX_GDS_SHMEM_JOB_ID
                  PMIX_GDS_SHMEM_READY_FOR_USE);
        destruct (pmix_gds_shmem_has_status job PMIX_GDS_SHMEM_MODEX_ID
                    PMIX_GDS_SHMEM_READY_FOR_USE);
        cbn [map app]; rewrite <- ?app_assoc, ?app_nil_r; reflexivity.
    + intros H Hacc. inversion H; subst. apply I3; assumption.
Qed.

Lemma mark_modex_complete_packs_ready_roles_witness :
  List.length (packed (snd (server_mark_modex_complete example_host
                              [published_job] ["nsA"] empty_buffer)))
  = 1%nat
  /\ fst (server_mark_modex_complete example_host [published_job]
            ["nsA"; "nsB"] empty_buffer) <> PMIX_SUCCESS.
Proof.
  destruct (mark_modex_complete_packs_ready_roles example_host
              [published_job] ["nsA"] empty_buffer) as (_ & H & _).
  destruct (H eq_refl) as [E _].
  split; [rewrite E; reflexivity |].
  destruct (mark_modex_complete_packs_ready_roles example_host
              [published_job] ["nsA"; "nsB"] empty_buffer) as (H' & _).
  apply H'. right. left. reflexivity.
Defined.

(* ================================================================== *)
(** ** Reply buffers without blobs *)

Lemma info_array_key_not_blob k :
  info_array_key k = true -> String.eqb k SHMEM_SEG_BLOB_KEY = false.
Proof.
  unfold info_array_key. intros H.
  destruct (String.eqb k SHMEM_SEG_BLOB_KEY) eqn:E; [| reflexivity].
  apply String.eqb_eq in E. subst k. discriminate H.
Qed.

(** X14: [store_job_info] skips the info arrays: on a reply that holds
    nothing else it changes no tracker and maps nothing, and its status is
    decided by how the buffer ends alone. *)
Theorem store_job_info_skips_info_arrays
    (host : host_t) (jobs : list pmix_gds_shmem_job_t) (nspace : string)
    (buff : pmix_buffer_t pmix_value_t) :
  Forall (fun kv => info_array_key (fst kv) = true) (packed buff) ->
  store_job_info host jobs nspace buff
  = (unpack_loop_verdict (unpack_end buff), jobs, []).
Proof.
  intros H. unfold store_job_info.
  assert (L : store_job_info_loop host jobs (packed buff) (unpack_end buff)
              = (unpack_end buff, jobs, [])).
  { induction H as [| kv rest Hkv _ IH]; [reflexivity |].
    cbn [store_job_info_loop]. unfold PMIX_CHECK_KEY.
    rewrite (info_array_key_not_blob _ Hkv).
    unfold info_array_key in Hkv. rewrite Hkv. exact IH. }
  rewrite L. reflexivity.
Qed.

Lemma store_job_info_skips_info_arrays_witness :
  store_job_info example_host [example_job] "nsA"
    (mk_buffer 64 [(PMIX_NODE_INFO_ARRAY, V_data_array 3);
                   (PMIX_APP_INFO_ARRAY, V_data_array 1)]
               PMIX_ERR_UNPACK_READ_PAST_END_OF_BUFFER)
  = (PMIX_SUCCESS, [example_job], []).
Proof.
  apply (store_job_info_skips_info_arrays example_host [example_job] "nsA"
           (mk_buffer 64 [(PMIX_NODE_INFO_ARRAY, V_data_array 3);
                          (PMIX_APP_INFO_ARRAY, V_data_array 1)]
                      PMIX_ERR_UNPACK_READ_PAST_END_OF_BUFFER)).
  repeat constructor.
Defined.

Lemma client_recv_modex_complete_loop_no_release host items end_rc :
  forall jobs, no_release jobs ->
  no_release
    (snd (fst (client_recv_modex_complete_loop host jobs items end_rc))).
Proof.
  induction items as [| kval rest IH]; intros jobs Hn; simpl; [exact Hn |].
  destruct (PMIX_CHECK_KEY kval SHMEM_SEG_BLOB_KEY); [| exact Hn].
  pose proof (unpack_and_attach_no_release host jobs kval Hn) as HU.
  destruct (unpack_shmem_seg_blob_and_attach_if_necessary host jobs kval)
    as [[rc jobs1] evs].
  simpl in HU. destruct rc; try exact HU.
  specialize (IH jobs1 HU).
  destruct (client_recv_modex_complete_loop host jobs1 rest end_rc)
    as [[rc2 jobs2] evs2].
  exact IH.
Qed.

(** X15: [client_recv_modex_complete] accepts blobs only.  A buffer that
    starts with any other key, the info arrays that [store_job_info] skips
    included, is refused with the unpack-failure status and neither a
    tracker nor a mapping is touched; the status is success or unpack
    failure, never anything else; and no RELEASE flag appears on the
    client. *)
Theorem client_recv_modex_complete_takes_blobs_only
    (host : host_t) (jobs : list pmix_gds_shmem_job_t)
    (buff : pmix_buffer_t pmix_value_t) :
  let R := client_recv_modex_complete host jobs buff in
  (forall kv rest,
     packed buff = kv :: rest ->
     fst kv <> SHMEM_SEG_BLOB_KEY ->
     R = (PMIX_ERR_UNPACK_FAILURE, jobs, []))
  /\ (fst (fst R) = PMIX_SUCCESS
      \/ fst (fst R) = PMIX_ERR_UNPACK_FAILURE)
  /\ (no_release jobs -> no_release (snd (fst R))).
Proof.
  cbv zeta. unfold client_recv_modex_complete. split; [| split].
  - intros kv rest Hp Hk. rewrite Hp.
    cbn [client_recv_modex_complete_loop]. unfold PMIX_CHECK_KEY.
    destruct (String.eqb (fst kv) SHMEM_SEG_BLOB_KEY) eqn:E;
      [apply String.eqb_eq in E; contradiction | reflexivity].
  - destruct (client_recv_modex_complete_loop host jobs (packed buff)
                (unpack_end buff)) as [[rc jobs'] evs].
    apply unpack_loop_verdict_values.
  - intros Hn.
    pose proof (client_recv_modex_complete_loop_no_release host (packed buff)
                  (unpack_end buff) jobs Hn) as H.
    destruct (client_recv_modex_complete_loop host jobs (packed buff)
                (unpack_end buff)) as [[rc jobs'] evs].
    exact H.
Qed.

Lemma client_recv_modex_complete_takes_blobs_only_witness :
  client_recv_modex_complete example_host [example_job]
    (mk_buffer 64 [(PMIX_NODE_INFO_ARRAY, V_data_array 3)]
               PMIX_ERR_UNPACK_READ_PAST_END_OF_BUFFER)
  = (PMIX_ERR_UNPACK_FAILURE, [example_job], []).
Proof.
  destruct (client_recv_modex_complete_takes_blobs_only example_host
              [example_job]
              (mk_buffer 64 [(PMIX_NODE_INFO_ARRAY, V_data_array 3)]
                         PMIX_ERR_UNPACK_READ_PAST_END_OF_BUFFER))
    as (H & _).
  apply (H (PMIX_NODE_INFO_ARRAY, V_data_array 3) []);
    [reflexivity | discriminate].
Defined.

(* ================================================================== *)
(** ** Tearing a tracker down *)

(** X16: [job_destruct] clears every flag of both roles, emits usage
    statistics exactly for the roles flagged RELEASE, and releases the
    segment of the JOB role and then that of the MODEX role. *)
Theorem job_destruct_clears_flags (job : pmix_gds_shmem_job_t) :
  let job' := fst (job_destruct job) in
  let evs := snd (job_destruct job) in
  shmem_status job' = 0
  /\ modex_shmem_status job' = 0
  /\ (forall id, In (Ev_usage_stats id) evs
                 <-> pmix_gds_shmem_has_status job id PMIX_GDS_SHMEM_RELEASE
                     = true)
  /\ filter (fun e => match e with Ev_shmem_release _ => true | _ => false end)
            evs
     = [Ev_shmem_release (backing_path (shmem job));
        Ev_shmem_release (backing_path (modex_shmem job))].
Proof.
  cbv zeta. unfold job_destruct, job_destruct_role.
  change (pmix_gds_shmem_get_job_shmem_by_id job PMIX_GDS_SHMEM_JOB_ID)
    with (PMIX_SUCCESS, Some (shmem job)).
  cbv iota beta.
  change (pmix_gds_shmem_get_job_shmem_by_id
            (pmix_gds_shmem_clearall_status job PMIX_GDS_SHMEM_JOB_ID)
            PMIX_GDS_SHMEM_MODEX_ID)
    with (PMIX_SUCCESS, Some (modex_shmem job)).
  cbv iota beta.
  change (pmix_gds_shmem_has_status
            (pmix_gds_shmem_clearall_status job PMIX_GDS_SHMEM_JOB_ID)
            PMIX_GDS_SHMEM_MODEX_ID PMIX_GDS_SHMEM_RELEASE)
    with (pmix_gds_shmem_has_status job PMIX_GDS_SHMEM_MODEX_ID
            PMIX_GDS_SHMEM_RELEASE).
  cbn [fst snd].
  split; [reflexivity |]. split; [reflexivity |]. split.
  - intros id.
    assert (Hrole : pmix_gds_shmem_has_status job id PMIX_GDS_SHMEM_RELEASE
                    = true ->
                    id = PMIX_GDS_SHMEM_JOB_ID
                    \/ id = PMIX_GDS_SHMEM_MODEX_ID).
    { intros Hid.
      destruct (get_job_shmem_by_id_total job id)
        as [(s & _ & Rid) | (_ & Rid)].
      - apply is_role_cases. exact Rid.
      - unfold pmix_gds_shmem_has_status in Hid.
        rewrite (job_status_not_role job id Rid) in Hid. discriminate Hid. }
    destruct (pmix_gds_shmem_has_status job PMIX_GDS_SHMEM_JOB_ID
                PMIX_GDS_SHMEM_RELEASE) eqn:HJ;
      destruct (pmix_gds_shmem_has_status job PMIX_GDS_SHMEM_MODEX_ID
                  PMIX_GDS_SHMEM_RELEASE) eqn:HM;
      cbn [app In]; split.
    all: try (intros Hid; destruct (Hrole Hid) as [-> | ->];
              first [ now auto 6
                    | rewrite HJ in Hid; discriminate Hid
                    | rewrite HM in Hid; discriminate Hid ]).
    all: intros E;
      repeat match goal with
             | H : _ \/ _ |- _ => destruct H as [H | H]
             | H : Ev_usage_stats _ = Ev_usage_stats _ |- _ =>
                 injection H as <-
             | H : Ev_shmem_release _ = Ev_usage_stats _ |- _ =>
                 discriminate H
             | H : False |- _ => contradiction
             end; assumption.
  - destruct (pmix_gds_shmem_has_status job PMIX_GDS_SHMEM_JOB_ID
                PMIX_GDS_SHMEM_RELEASE);
      destruct (pmix_gds_shmem_has_status job PMIX_GDS_SHMEM_MODEX_ID
                  PMIX_GDS_SHMEM_RELEASE); reflexivity.
Qed.

(* ================================================================== *)
(** ** Deleting a namespace and the trackers that stay *)

Lemma find_job_none_Forall nspace jobs :
  find_job nspace jobs = None <->
  Forall (fun job => nspace_id job <> nspace) jobs.
Proof.
  induction jobs as [| ti rest IH]; simpl.
  - split; [constructor | reflexivity].
  - destruct (String.eqb nspace (nspace_id ti)) eqn:E.
    + apply String.eqb_eq in E. split; [discriminate |].
      intros H. inversion H; subst. congruence.
    + apply String.eqb_neq in E. rewrite IH. split.
      * intros H. constructor; [congruence | exact H].
      * intros H. inversion H; assumption.
Qed.



Lemma del_nspace_jobs jobs nspace :
  snd (fst (fst (del_nspace jobs nspace))) = fst (del_nspace_loop nspace jobs).
Proof.
  unfold del_nspace.
  destruct (del_nspace_loop nspace jobs) as [jobs' [ji |]]; reflexivity.
Qed.

(** X17: after [del_nspace], when the trackers of the job list have
    distinct namespaces, the namespace is gone: [server_store_modex] for it
    finds no tracker, creates no segment and stores nothing. *)
Theorem deleted_namespace_is_not_found
    (host : host_t) (jobs : list pmix_gds_shmem_job_t) (nspace : string)
    (buff : pmix_buffer_t pmix_value_t) :
  NoDup (map nspace_id jobs) ->
  let jobs' := snd (fst (fst (del_nspace jobs nspace))) in
  find_job nspace jobs' = None
  /\ server_store_modex host jobs' nspace buff
     = (PMIX_ERR_NOT_FOUND, jobs', None, []).
Proof.
  intros Hnd. cbv zeta. rewrite del_nspace_jobs.
  assert (Hf : find_job nspace (fst (del_nspace_loop nspace jobs)) = None).
  { induction jobs as [| ti rest IH]; simpl; [reflexivity |].
    inversion Hnd as [| x l Hnotin Hnd']; subst.
    destruct (String.eqb nspace (nspace_id ti)) eqn:E.
    - apply String.eqb_eq in E. simpl.
      apply find_job_none_Forall. apply Forall_forall.
      intros job Hin Heq. apply Hnotin. rewrite <- E, <- Heq.
      apply in_map. exact Hin.
    - specialize (IH Hnd').
      destruct (del_nspace_loop nspace rest) as [rest' removed].
      simpl in *. rewrite E. exact IH. }
  split; [exact Hf |].
  unfold server_store_modex, pmix_gds_shmem_get_job_tracker.
  rewrite Hf. reflexivity.
Qed.

Lemma deleted_namespace_is_not_found_witness :
  server_store_modex example_host
    (snd (fst (fst (del_nspace [example_job; job_construct "nsB" 2]
                               (nspace_id example_job)))))
    (nspace_id example_job) empty_buffer
  = (PMIX_ERR_NOT_FOUND,
     snd (fst (fst (del_nspace [example_job; job_construct "nsB" 2]
                               (nspace_id example_job)))),
     None, []).
Proof.
  apply (deleted_namespace_is_not_found example_host
           [example_job; job_construct "nsB" 2] (nspace_id example_job) empty_buffer).
  simpl. constructor; [simpl; intuition discriminate |].
  constructor; [simpl; tauto | constructor].
Defined.



(* ================================================================== *)
(** ** The statistics of the local job data *)

Lemma get_local_job_data_stats_loop_packs host kvs :
  Forall (fun kv => bfrops_pack_status host (fst kv) = PMIX_SUCCESS) kvs ->
  forall n b data,
    bytes_used data = to_size_t b ->
    exists data',
      get_local_job_data_stats_loop host kvs n data
      = (PMIX_SUCCESS, fold_left nhtentries_add kvs n, data')
      /\ bytes_used data' = to_size_t (b + sum_packed_sizes host kvs).
Proof.
  induction 1 as [| kv rest Hkv _ IH]; intros n b data Hb.
  - exists data. split; [reflexivity |].
    cbn [sum_packed_sizes]. rewrite Z.add_0_r. exact Hb.
  - cbn [get_local_job_data_stats_loop fold_left sum_packed_sizes].
    unfold bfrops_pack. rewrite Hkv.
    match goal with
    | |- context [get_local_job_data_stats_loop host rest ?n' ?d'] =>
        destruct (IH n' (b + packed_size_of host kv) d') as (data' & E & B)
    end.
    + cbn [bytes_used]. rewrite Hb, to_size_t_add_idemp.
      destruct kv as [k v]. reflexivity.
    + exists data'. split; [exact E |]. rewrite B. f_equal. lia.
Qed.

Lemma get_local_job_data_stats_loop_fails host l1 kv l2 rc :
  Forall (fun kv => bfrops_pack_status host (fst kv) = PMIX_SUCCESS) l1 ->
  bfrops_pack_status host (fst kv) = rc ->
  rc <> PMIX_SUCCESS ->
  forall n data,
    exists n' data',
      get_local_job_data_stats_loop host (l1 ++ kv :: l2)%list n data
      = (rc, n', data').
Proof.
  intros H1 Hkv Hrc. induction H1 as [| k rest Hk _ IH]; intros n data.
  - cbn [app get_local_job_data_stats_loop]. unfold bfrops_pack.
    rewrite Hkv. destruct rc; try (eexists; eexists; reflexivity).
    congruence.
  - cbn [app get_local_job_data_stats_loop]. unfold bfrops_pack at 1.
    rewrite Hk. apply IH.
Qed.

(** X19: [get_local_job_data_stats] is all or nothing.  When the codec
    packs every entry, the packed size it reports is the sum of the packed
    sizes of the entries (modulo 2^64); when the codec refuses an entry, the
    status is the codec's for the first entry refused and the statistics
    stay zeroed, whatever was counted before. *)
Theorem local_job_data_stats_all_or_nothing
    (host : host_t) (kvs : list pmix_kval_t) :
  (Forall (fun kv => bfrops_pack_status host (fst kv) = PMIX_SUCCESS) kvs ->
   fst (get_local_job_data_stats host kvs) = PMIX_SUCCESS
   /\ packed_size (snd (get_local_job_data_stats host kvs))
      = to_size_t (sum_packed_sizes host kvs))
  /\ (forall l1 kv l2,
        kvs = (l1 ++ kv :: l2)%list ->
        Forall (fun kv => bfrops_pack_status host (fst kv) = PMIX_SUCCESS)
               l1 ->
        bfrops_pack_status host (fst kv) <> PMIX_SUCCESS ->
        get_local_job_data_stats host kvs
        = (bfrops_pack_status host (fst kv), mk_stats 0 0)).
Proof.
  split.
  - intros H. unfold get_local_job_data_stats.
    destruct (get_local_job_data_stats_loop_packs host kvs H 0 0 empty_buffer)
      as (data' & E & B); [reflexivity |].
    rewrite E. cbn [fst snd packed_size]. split; [reflexivity | exact B].
  - intros l1 kv l2 -> H1 Hkv. unfold get_local_job_data_stats.
    destruct (get_local_job_data_stats_loop_fails host l1 kv l2 _ H1
                eq_refl Hkv 0 empty_buffer) as (n & d & F).
    unfold pmix_kval_t in *. rewrite F.
    destruct (bfrops_pack_status host (fst kv)); try reflexivity.
    congruence.
Qed.

Lemma local_job_data_stats_all_or_nothing_witness :
  fst (get_local_job_data_stats example_host
         [("pmix.job.size", V_other 6); (PMIX_PROC_DATA, V_data_array 3)])
  = PMIX_SUCCESS
  /\ packed_size
       (snd (get_local_job_data_stats example_host
               [("pmix.job.size", V_other 6);
                (PMIX_PROC_DATA, V_data_array 3)]))
     = to_size_t
         (sum_packed_sizes example_host
            [("pmix.job.size", V_other 6); (PMIX_PROC_DATA, V_data_array 3)]).
Proof.
  destruct (local_job_data_stats_all_or_nothing example_host
              [("pmix.job.size", V_other 6);
               (PMIX_PROC_DATA, V_data_array 3)]) as (H & _).
  apply H. repeat constructor.
Defined.

(* ================================================================== *)
(** ** Priority negotiation *)

Lemma assign_module_loop_first argv_split default_priority info :
  assign_module_loop argv_split default_priority info
  = match first_gds_module info with
    | Some s =>
        (true,
         if options_name_shmem (argv_split s) then max_priority
         else default_priority)
    | None => (false, default_priority)
    end.
Proof.
  induction info as [| i rest IH]; simpl; [reflexivity |].
  unfold PMIX_CHECK_KEY. destruct (String.eqb (fst i) PMIX_GDS_MODULE);
    [reflexivity | exact IH].
Qed.

(** X20: [assign_module] looks at the first [PMIX_GDS_MODULE] entry only.
    Without such an entry the priority is the default one; when the entry
    names this module it is 100; when it names others only it is 0, unless
    the default priority is itself 100, which is then kept, the test being
    on the priority.  With the compile-time disable the priority is 0
    whatever is asked.  The status is always success. *)
Theorem assign_module_first_entry_decides
    (argv_split : string -> list string) (default_priority : Z)
    (info : list (string * string)) :
  assign_module argv_split default_priority false info
  = (PMIX_SUCCESS,
     match first_gds_module info with
     | None => default_priority
     | Some s =>
         if options_name_shmem (argv_split s) then max_priority
         else if default_priority =? max_priority then max_priority
              else 0
     end)
  /\ assign_module argv_split default_priority true info = (PMIX_SUCCESS, 0).
Proof.
  unfold assign_module. rewrite assign_module_loop_first.
  destruct (first_gds_module info) as [s |]; [| split; reflexivity].
  destruct (options_name_shmem (argv_split s)).
  - split; reflexivity.
  - cbn [andb negb].
    destruct (default_priority =? max_priority) eqn:E;
      [apply Z.eqb_eq in E; subst | ]; split; reflexivity.
Qed.

(* ================================================================== *)
(** ** The layout of the headers *)

(** X21: the containers [job_smdata_construct] and
    [modex_smdata_construct] allocate lie in the segment one after the
    other, behind the header at the base address: when the addresses do not
    wrap around, each container starts 8-aligned at or after the end of the
    one before, the elements of the hash table come last, and the cursor the
    header keeps is past them all, with less than 8 bytes lost to each
    alignment. *)
Theorem smdata_containers_do_not_overlap
    (host : host_t) (job : pmix_gds_shmem_job_t) (htsize : Z) :
  let H := sizeof_shared_job_data host in
  let M := sizeof_shared_modex_data host in
  let L := sizeof_list host in
  let T := sizeof_hash_table host in
  let A := hash_table_capacity host htsize * sizeof_hash_element host in
  0 <= L -> 0 <= T -> 0 <= A ->
  (let base := base_address (shmem job) in
   let r := job_smdata_construct host job htsize in
   let hdr := snd (fst r) in
   let ht := local_hashtab hdr in
   0 <= base -> 0 <= H ->
   base + H + 3 * L + T + A + 48 <= 2 ^ 64 ->
   smdata (snd (fst (fst r))) = base
   /\ base + H <= jobinfo hdr
   /\ jobinfo hdr + L <= nodeinfo hdr
   /\ nodeinfo hdr + L <= appinfo hdr
   /\ appinfo hdr + L <= ht_object ht
   /\ ht_object ht + T <= ht_table ht
   /\ ht_table ht + A <= current_addr hdr < base + H + 3 * L + T + A + 48
   /\ Forall (fun p => p mod 8 = 0)
             [jobinfo hdr; nodeinfo hdr; appinfo hdr; ht_object ht;
              ht_table ht; current_addr hdr])
  /\ (let base := base_address (modex_shmem job) in
      let r := modex_smdata_construct host job htsize in
      let hdr := snd (fst r) in
      let ht := hashtab hdr in
      0 <= base -> 0 <= M ->
      base + M + T + A + 24 <= 2 ^ 64 ->
      smmodex (snd (fst (fst r))) = base
      /\ base + M <= ht_object ht
      /\ ht_object ht + T <= ht_table ht
      /\ ht_table ht + A <= modex_current_addr hdr < base + M + T + A + 24
      /\ Forall (fun p => p mod 8 = 0)
                [ht_object ht; ht_table ht; modex_current_addr hdr]).
Proof.
  cbv zeta. intros HL HT HA. split.
  - intros Hb HH Hfit.
    unfold job_smdata_construct, pmix_obj_new_tma, pmix_hash_table_init,
      tma_malloc, tma_calloc.
    cbn [fst snd data_ptr smdata set_smdata jobinfo nodeinfo appinfo
         local_hashtab ht_object ht_table current_addr].
    rewrite (to_size_t_small (_ * _)) by lia.
    set (base := base_address (shmem job)) in *.
    set (p1 := addr_align base (sizeof_shared_job_data host)).
    set (p2 := addr_align p1 (sizeof_list host)).
    set (p3 := addr_align p2 (sizeof_list host)).
    set (p4 := addr_align p3 (sizeof_list host)).
    set (p5 := addr_align p4 (sizeof_hash_table host)).
    set (p6 := addr_align p5 _).
    pose proof (addr_align_bounds base (sizeof_shared_job_data host)
                  ltac:(lia) ltac:(lia)) as B1. fold p1 in B1.
    pose proof (addr_align_bounds p1 (sizeof_list host)
                  ltac:(lia) ltac:(lia)) as B2. fold p2 in B2.
    pose proof (addr_align_bounds p2 (sizeof_list host)
                  ltac:(lia) ltac:(lia)) as B3. fold p3 in B3.
    pose proof (addr_align_bounds p3 (sizeof_list host)
                  ltac:(lia) ltac:(lia)) as B4. fold p4 in B4.
    pose proof (addr_align_bounds p4 (sizeof_hash_table host)
                  ltac:(lia) ltac:(lia)) as B5. fold p5 in B5.
    pose proof (addr_align_bounds p5
                  (hash_table_capacity host htsize * sizeof_hash_element host)
                  ltac:(lia) ltac:(lia)) as B6. fold p6 in B6.
    repeat split; try lia.
    repeat constructor; apply addr_align_mod8.
  - intros Hb HM Hfit.
    unfold modex_smdata_construct, pmix_obj_new_tma, pmix_hash_table_init,
      tma_malloc, tma_calloc.
    cbn [fst snd data_ptr smmodex set_smmodex hashtab ht_object ht_table
         modex_current_addr].
    rewrite (to_size_t_small (_ * _)) by lia.
    set (base := base_address (modex_shmem job)) in *.
    set (p1 := addr_align base (sizeof_shared_modex_data host)).
    set (p2 := addr_align p1 (sizeof_hash_table host)).
    set (p3 := addr_align p2 _).
    pose proof (addr_align_bounds base (sizeof_shared_modex_data host)
                  ltac:(lia) ltac:(lia)) as B1. fold p1 in B1.
    pose proof (addr_align_bounds p1 (sizeof_hash_table host)
                  ltac:(lia) ltac:(lia)) as B2. fold p2 in B2.
    pose proof (addr_align_bounds p2
                  (hash_table_capacity host htsize * sizeof_hash_element host)
                  ltac:(lia) ltac:(lia)) as B3. fold p3 in B3.
    repeat split; try lia.
    repeat constructor; apply addr_align_mod8.
Qed.

Lemma smdata_containers_do_not_overlap_witness :
  jobinfo (snd (fst (job_smdata_construct example_host published_job 32)))
  + sizeof_list example_host
  <= nodeinfo (snd (fst (job_smdata_construct example_host published_job 32))).
Proof.
  destruct (smdata_containers_do_not_overlap example_host published_job 32)
    as (H & _); [simpl; lia | simpl; lia | simpl; lia |].
  destruct H as (_ & _ & H & _); [simpl; lia | simpl; lia | simpl; lia |].
  exact H.
Defined.

(* ================================================================== *)
(** ** The order of the entries of a blob *)

Ltac unpack_step_cases :=
  cbn [unpack_shmem_connection_info_loop]; unfold PMIX_CHECK_KEY;
  repeat match goal with
         | |- context [if String.eqb ?a ?b then _ else _] =>
             let E := fresh "E" in destruct (String.eqb a b) eqn:E
         | |- context [strtost ?s ?b] =>
             let Hs := fresh "Hs" in
             let rc := fresh "rc" in
             let v := fresh "v" in
             destruct (strtost_status s b) as [Hs | Hs];
             [ destruct (strtost s b) as [rc v]; cbn [fst] in Hs; subst rc
             | rewrite Hs ]
         end.

Lemma unpack_loop_cons_inv kv rest end_rc usb usb1 :
  unpack_shmem_connection_info_loop (kv :: rest) end_rc usb
  = (PMIX_ERR_UNPACK_READ_PAST_END_OF_BUFFER, usb1) ->
  exists usb',
    unpack_shmem_connection_info_loop [kv]
      PMIX_ERR_UNPACK_READ_PAST_END_OF_BUFFER usb
    = (PMIX_ERR_UNPACK_READ_PAST_END_OF_BUFFER, usb')
    /\ unpack_shmem_connection_info_loop rest end_rc usb'
       = (PMIX_ERR_UNPACK_READ_PAST_END_OF_BUFFER, usb1).
Proof.
  unpack_step_cases; intros H; try discriminate H;
    eexists; (split; [reflexivity | exact H]).
Qed.

Lemma unpack_loop_cons_intro kv rest end_rc usb usb' :
  unpack_shmem_connection_info_loop [kv]
    PMIX_ERR_UNPACK_READ_PAST_END_OF_BUFFER usb
  = (PMIX_ERR_UNPACK_READ_PAST_END_OF_BUFFER, usb') ->
  unpack_shmem_connection_info_loop (kv :: rest) end_rc usb
  = unpack_shmem_connection_info_loop rest end_rc usb'.
Proof.
  unpack_step_cases; intros H; try discriminate H;
    injection H as <-; reflexivity.
Qed.

Lemma unpack_step_commute x y usb u1 u2 :
  fst x <> fst y ->
  unpack_shmem_connection_info_loop [x]
    PMIX_ERR_UNPACK_READ_PAST_END_OF_BUFFER usb
  = (PMIX_ERR_UNPACK_READ_PAST_END_OF_BUFFER, u1) ->
  unpack_shmem_connection_info_loop [y]
    PMIX_ERR_UNPACK_READ_PAST_END_OF_BUFFER u1
  = (PMIX_ERR_UNPACK_READ_PAST_END_OF_BUFFER, u2) ->
  exists u1',
    unpack_shmem_connection_info_loop [y]
      PMIX_ERR_UNPACK_READ_PAST_END_OF_BUFFER usb
    = (PMIX_ERR_UNPACK_READ_PAST_END_OF_BUFFER, u1')
    /\ unpack_shmem_connection_info_loop [x]
         PMIX_ERR_UNPACK_READ_PAST_END_OF_BUFFER u1'
       = (PMIX_ERR_UNPACK_READ_PAST_END_OF_BUFFER, u2).
Proof.
  intros Hne. revert u1 u2.
  unpack_step_cases; intros u1 u2 H1; try discriminate H1;
    injection H1 as <-; intros H2; try discriminate H2;
    injection H2 as <-;
    try (eexists; split; reflexivity);
    exfalso; apply Hne;
    repeat match goal with
           | E : String.eqb _ _ = true |- _ => apply String.eqb_eq in E
           end; congruence.
Qed.

Lemma unpack_loop_permutation l l' :
  Permutation l l' ->
  NoDup (map fst l) ->
  forall end_rc usb usb1,
    unpack_shmem_connection_info_loop l end_rc usb
    = (PMIX_ERR_UNPACK_READ_PAST_END_OF_BUFFER, usb1) ->
    unpack_shmem_connection_info_loop l' end_rc usb
    = (PMIX_ERR_UNPACK_READ_PAST_END_OF_BUFFER, usb1).
Proof.
  induction 1 as [| x l l' Hp IH | x y l | l l' l'' Hp1 IH1 Hp2 IH2];
    intros Hnd end_rc usb usb1 H.
  - exact H.
  - inversion Hnd as [| a b Hnotin Hnd']; subst.
    apply unpack_loop_cons_inv in H. destruct H as (usb' & Hx & Hrest).
    rewrite (unpack_loop_cons_intro x l' end_rc usb usb' Hx).
    apply IH; assumption.
  - inversion Hnd as [| a b Hnotin Hnd']; subst.
    assert (Hne : fst x <> fst y).
    { intros E. apply Hnotin. left. exact E. }
    apply unpack_loop_cons_inv in H. destruct H as (u1 & Hy & H).
    apply unpack_loop_cons_inv in H. destruct H as (u2 & Hx & Hrest).
    destruct (unpack_step_commute y x usb u1 u2 (not_eq_sym Hne) Hy Hx)
      as (u1' & Hx' & Hy').
    rewrite (unpack_loop_cons_intro x (y :: l) end_rc usb u1' Hx').
    rewrite (unpack_loop_cons_intro y l end_rc u1' u2 Hy').
    exact Hrest.
  - apply IH2.
    + apply (Permutation_NoDup (Permutation_map fst Hp1)). exact Hnd.
    + apply IH1; assumption.
Qed.

(** X22: [unpack_shmem_connection_info] does not depend on the order of
    the entries.  When a blob with distinct keys unpacks, a blob with the
    same entries in any other order unpacks to the same five fields. *)
Theorem unpack_ignores_entry_order
    (bo bo' : pmix_buffer_t string) (key key' : string)
    (usb : pmix_gds_shmem_unpacked_seg_blob_t) :
  Permutation (packed bo) (packed bo') ->
  NoDup (map fst (packed bo)) ->
  unpack_end bo' = unpack_end bo ->
  fst (unpack_shmem_connection_info (key, V_byte_object bo) usb)
  = PMIX_SUCCESS ->
  unpack_shmem_connection_info (key', V_byte_object bo') usb
  = unpack_shmem_connection_info (key, V_byte_object bo) usb.
Proof.
  intros Hp Hnd He. unfold unpack_shmem_connection_info. cbn [snd].
  rewrite He.
  destruct (unpack_shmem_connection_info_loop (packed bo) (unpack_end bo) usb)
    as [rc usb1] eqn:L.
  cbn [fst]. intros Hs. apply unpack_loop_verdict_success in Hs. subst rc.
  rewrite (unpack_loop_permutation _ _ Hp Hnd _ _ _ L). reflexivity.
Qed.

Lemma unpack_ignores_entry_order_witness :
  unpack_shmem_connection_info
    ("blob",
     V_byte_object
       (mk_buffer 0
          [(SHMEM_SEG_ADDR_KEY, "7f0000000000"); (SHMEM_SEG_NSID_KEY, "nsA");
           (SHMEM_SEG_SIZE_KEY, "2000")]
          PMIX_ERR_UNPACK_READ_PAST_END_OF_BUFFER))
    unpacked_seg_blob_construct
  = unpack_shmem_connection_info
      ("blob",
       V_byte_object
         (mk_buffer 0
            [(SHMEM_SEG_NSID_KEY, "nsA"); (SHMEM_SEG_SIZE_KEY, "2000");
             (SHMEM_SEG_ADDR_KEY, "7f0000000000")]
            PMIX_ERR_UNPACK_READ_PAST_END_OF_BUFFER))
      unpacked_seg_blob_construct.
Proof.
  apply (unpack_ignores_entry_order
           (mk_buffer 0
              [(SHMEM_SEG_NSID_KEY, "nsA"); (SHMEM_SEG_SIZE_KEY, "2000");
               (SHMEM_SEG_ADDR_KEY, "7f0000000000")]
              PMIX_ERR_UNPACK_READ_PAST_END_OF_BUFFER)
           (mk_buffer 0
              [(SHMEM_SEG_ADDR_KEY, "7f0000000000");
               (SHMEM_SEG_NSID_KEY, "nsA"); (SHMEM_SEG_SIZE_KEY, "2000")]
              PMIX_ERR_UNPACK_READ_PAST_END_OF_BUFFER)
           "blob" "blob" unpacked_seg_blob_construct).
  - simpl.
    apply Permutation_sym.
    apply (Permutation_cons_app
             [(SHMEM_SEG_NSID_KEY, "nsA"); (SHMEM_SEG_SIZE_KEY, "2000")] []).
    rewrite app_nil_r. apply Permutation_refl.
  - simpl. repeat constructor; simpl; intuition discriminate.
  - reflexivity.
  - vm_compute. reflexivity.
Defined.

(* ================================================================== *)
(** ** What [strtost] accepts beyond what is packed *)

Lemma strtoll_space_0x (c : ascii) (r : string) :
  digits_only 16 (String c r) ->
  strtoll (String " " (String "0" (String "x" (String c r)))) 16
  = strtoll (String c r) 16.
Proof.
  intros Hd. rewrite (strtoll_digits_only 16 c r ltac:(lia) Hd).
  destruct Hd as [(m & Hm & ->) Hr].
  destruct (digit_char_facts m Hm) as (Hv & _).
  unfold strtoll.
  assert (E1 : skip_spaces
                 (String " " (String "0" (String "x"
                    (String (digit_char m) r))))
               = String "0" (String "x" (String (digit_char m) r)))
    by reflexivity.
  rewrite E1.
  assert (E2 : scan_sign (String "0" (String "x" (String (digit_char m) r)))
               = (false, String "0" (String "x" (String (digit_char m) r))))
    by reflexivity.
  rewrite E2.
  assert (E3 : scan_hex_prefix 16
                 (String "0" (String "x" (String (digit_char m) r)))
               = String (digit_char m) r).
  { unfold scan_hex_prefix, is_digit_in. rewrite Hv.
    assert (Hlt : (m <? 16) = true) by (apply Z.ltb_lt; lia).
    rewrite Hlt. reflexivity. }
  rewrite E3.
  assert (E4 : starts_with_digit 16 (String (digit_char m) r) = true).
  { unfold starts_with_digit, is_digit_in. rewrite Hv.
    apply Z.ltb_lt. lia. }
  rewrite E4. reflexivity.
Qed.

(** X23: [strtost] accepts more than the packer writes: in base 16 the
    hexadecimal text of a value below [2^63] is read back to the same value
    also behind white space and a [0x] prefix. *)
Theorem strtost_accepts_space_and_0x (v : Z) :
  0 <= v < 2 ^ 63 ->
  strtost (String " " (String "0" (String "x" (fmt_zx v)))) 16
  = (PMIX_SUCCESS, v).
Proof.
  intros Hv.
  assert (Hdig : digits_only 16 (fmt_zx v))
    by (apply fmt_digits_digits_only; [lia | exact I]).
  pose proof (strtost_fmt_zx v Hv) as Hback.
  unfold fmt_zx in *.
  destruct (fmt_digits_64_head 16 (to_size_t v)) as (c & r & Hcr).
  rewrite Hcr in *.
  unfold strtost in *. rewrite (strtoll_space_0x c r Hdig). exact Hback.
Qed.

Lemma strtost_accepts_space_and_0x_witness :
  strtost (String " " (String "0" (String "x" (fmt_zx 8192)))) 16
  = (PMIX_SUCCESS, 8192).
Proof.
  apply (strtost_accepts_space_and_0x 8192). lia.
Defined.
